(** * Bank statement chatbot: normalisation pipeline and query engine

    A shallow embedding of [bot2.py]: the table normaliser
    [process_pdf_data], the aggregation helpers ([get_top_debits],
    [filter_by_amount], [search_reference], the period summaries) and
    the free-text branch of the query dispatcher.

    Modelling conventions.
    - A pandas [DataFrame] is a list of labelled columns together with
      its number of rows; labels may repeat, as pandas allows.
    - A number is the exact rational ([Q]) a float64 or int64 cell
      stands for; the float special values are not represented.  The
      sums of pandas round (float64) or wrap (int64), in an order of
      additions of their own: they are parameters of the model.
    - A Python [str] is held as its UTF-8 encoding, one [ascii] per
      byte.  [strip] removes the white space of Unicode.  [str.lower]
      on arbitrary text is a parameter; [Str.lower] is its restriction
      to text whose cased letters are ASCII.
    - A timestamp is a civil date with the time of day.
    - A Python exception that escapes a function is the [Raise] branch
      of [result]. *)

From Stdlib Require Import String Ascii List ZArith QArith Bool Arith Lia.
From Stdlib Require Import Sorted OrdersEx DecimalString.
Import ListNotations.

Local Open Scope string_scope.
Local Open Scope list_scope.
Local Open Scope nat_scope.

Set Implicit Arguments.

(** ** Exceptions and results *)

Inductive exn : Type :=
| KeyError
| AttributeError
| ValueError
| TypeError
| InvalidIndexError
| RegexError.

Inductive result (A : Type) : Type :=
| Ok (a : A)
| Raise (e : exn).

Arguments Ok {A} a.
Arguments Raise {A} e.

Definition bind {A B : Type} (r : result A) (k : A -> result B) : result B :=
  match r with
  | Ok a => k a
  | Raise e => Raise e
  end.

Notation "x <- r ;; k" := (bind r (fun x => k))
  (at level 61, r at next level, right associativity).

(** ** Python string helpers *)

Module Str.

(** [str.lower] on text whose cased letters are ASCII: the letters A
    to Z are lowered, every other byte is kept. *)
Definition lower_ascii (c : ascii) : ascii :=
  let n := nat_of_ascii c in
  if (65 <=? n) && (n <=? 90) then ascii_of_nat (n + 32) else c.

Fixpoint lower (s : string) : string :=
  match s with
  | EmptyString => EmptyString
  | String c s' => String (lower_ascii c) (lower s')
  end.

(** [pat in s]. *)
Fixpoint contains (pat s : string) : bool :=
  prefix pat s ||
  match s with
  | EmptyString => false
  | String _ s' => contains pat s'
  end.

(** [s.replace(c, "")] for a one-character pattern. *)
Fixpoint remove_char (c : ascii) (s : string) : string :=
  match s with
  | EmptyString => EmptyString
  | String a s' =>
      if Ascii.eqb a c then remove_char c s' else String a (remove_char c s')
  end.

Fixpoint rev (s : string) : string :=
  match s with
  | EmptyString => EmptyString
  | String c s' => rev s' ++ String c EmptyString
  end.

Definition of_bytes (l : list nat) : string :=
  string_of_list_ascii (map ascii_of_nat l).

(** The white-space characters of [str.isspace], encoded: U+0009 to
    U+000D, U+001C to U+0020, U+0085, U+00A0, U+1680, U+2000 to
    U+200A, U+2028, U+2029, U+202F, U+205F and U+3000. *)
Definition spaces : list string :=
  map of_bytes
    [[9]; [10]; [11]; [12]; [13]; [28]; [29]; [30]; [31]; [32];
     [194; 133]; [194; 160];
     [225; 154; 128];
     [226; 128; 128]; [226; 128; 129]; [226; 128; 130]; [226; 128; 131];
     [226; 128; 132]; [226; 128; 133]; [226; 128; 134]; [226; 128; 135];
     [226; 128; 136]; [226; 128; 137]; [226; 128; 138];
     [226; 128; 168]; [226; 128; 169]; [226; 128; 175];
     [226; 129; 159];
     [227; 128; 128]].

Fixpoint drop (n : nat) (s : string) : string :=
  match n, s with
  | S k, String _ s' => drop k s'
  | _, _ => s
  end.

(** The one of [toks] that [s] starts with. *)
Definition leading (toks : list string) (s : string) : option string :=
  find (fun w => prefix w s) toks.

(** Pass over the leading characters that are among [toks]; no more
    than [fuel] of them. *)
Fixpoint lstrip_go (toks : list string) (fuel : nat) (s : string) : string :=
  match fuel with
  | O => s
  | S fuel' =>
      match leading toks s with
      | Some w => lstrip_go toks fuel' (drop (String.length w) s)
      | None => s
      end
  end.

Definition lstrip (s : string) : string :=
  lstrip_go spaces (String.length s) s.

(** The trailing white space is the leading white space of the
    reversed bytes, each character reversed. *)
Definition rstrip (s : string) : string :=
  rev (lstrip_go (map rev spaces) (String.length s) (rev s)).

(** [s.strip()]. *)
Definition strip (s : string) : string := rstrip (lstrip s).

(** [s.split(sep)] for a non-empty separator: a left-to-right scan
    for non-overlapping occurrences.  [skip] counts the characters of
    a separator just matched that are still to be passed over; [cur]
    is the current piece, reversed. *)
Fixpoint split_go (sep : string) (skip : nat) (cur : string) (s : string)
  : list string :=
  match s with
  | EmptyString => [rev cur]
  | String c s' =>
      match skip with
      | S k => split_go sep k cur s'
      | O =>
          if prefix sep s
          then rev cur :: split_go sep (String.length sep - 1) EmptyString s'
          else split_go sep 0 (String c cur) s'
      end
  end.

Definition split (sep s : string) : list string := split_go sep 0 "" s.

(** [str(i)] for a non-negative integer. *)
Definition of_nat (n : nat) : string :=
  NilEmpty.string_of_uint (Nat.to_uint n).

End Str.

(** ** Values and frames *)

(** A timestamp: the civil date and the time of day, in nanoseconds
    after midnight. *)
Record date : Type := mkDate { year : Z; month : Z; day : Z; clock : Z }.

(** A cell: text, a number, a timestamp, or missing ([None], [NaN],
    [NaT]). *)
Inductive value : Type :=
| VStr (s : string)
| VNum (q : Q)
| VDate (d : date)
| VNull.

Definition column : Type := (string * list value)%type.

Record frame : Type := mkFrame {
  cols : list column;
  nrows : nat
}.

Definition columns (df : frame) : list string := map fst (cols df).

(** [pd.DataFrame()]. *)
Definition empty_frame : frame := mkFrame [] 0.

(** [df.empty]: some axis has length zero. *)
Definition is_empty (df : frame) : bool :=
  match cols df with
  | [] => true
  | _ => nrows df =? 0
  end.

Definition has_column (name : string) (df : frame) : bool :=
  existsb (String.eqb name) (columns df).

Definition labelled (name : string) (c : column) : bool := String.eqb (fst c) name.

(** [df[name]] for a scalar label, used as a Series.  A label carried by
    several columns selects a two-dimensional block on which the Series
    accessors of this program ([.str], [.dt], [groupby] keys) fail. *)
Definition series (e : exn) (df : frame) (name : string) : result (list value) :=
  match filter (labelled name) (cols df) with
  | [] => Raise KeyError
  | [c] => Ok (snd c)
  | _ => Raise e
  end.

(** The first cells of the columns, and the columns without them. *)
Definition heads (cs : list column) : list (string * value) :=
  map (fun c => (fst c, hd VNull (snd c))) cs.

Definition tails (cs : list column) : list column :=
  map (fun c => (fst c, tl (snd c))) cs.

(** The rows, each as (label, cell) pairs in column order. *)
Fixpoint transpose (n : nat) (cs : list column) : list (list (string * value)) :=
  match n with
  | O => []
  | S n' => heads cs :: transpose n' (tails cs)
  end.

Definition rows (df : frame) : list (list (string * value)) :=
  transpose (nrows df) (cols df).

(** The cell of a row under a label (the first, should it repeat). *)
Definition cell (name : string) (r : list (string * value)) : value :=
  match find (fun lv => String.eqb (fst lv) name) r with
  | Some lv => snd lv
  | None => VNull
  end.

(** Every column holds one cell per row. *)
Definition well_formed (df : frame) : bool :=
  forallb (fun c => length (snd c) =? nrows df) (cols df).

(** Boolean-mask row selection [df[mask]]. *)
Fixpoint mask_list {A : Type} (mask : list bool) (l : list A) : list A :=
  match mask, l with
  | b :: mask', x :: l' => if b then x :: mask_list mask' l' else mask_list mask' l'
  | _, _ => []
  end.

Definition count_true (mask : list bool) : nat :=
  length (filter (fun b => b) mask).

Definition masked (mask : list bool) (cs : list column) : list column :=
  map (fun c => (fst c, mask_list mask (snd c))) cs.

Definition select_rows (mask : list bool) (df : frame) : frame :=
  mkFrame (masked mask (cols df)) (count_true (firstn (nrows df) mask)).

(** ** Column-label deduplication (lines 47-51) *)

Fixpoint set_nth {A : Type} (i : nat) (x : A) (l : list A) : list A :=
  match l, i with
  | [], _ => []
  | _ :: l', O => x :: l'
  | y :: l', S i' => y :: set_nth i' x l'
  end.

(** [cols.duplicated()[i]]: an equal label stands at a smaller index. *)
Definition duplicated_at (labels : list string) (i : nat) : bool :=
  match nth_error labels i with
  | Some c => existsb (String.eqb c) (firstn i labels)
  | None => false
  end.

Definition suffixed (c : string) (i : nat) : string := c ++ "_" ++ Str.of_nat i.

Definition dedup_step (labels : list string) (i : nat) : list string :=
  if duplicated_at labels i
  then set_nth i (suffixed (nth i labels "") i) labels
  else labels.

(** The loop [for i in range(len(cols))]; [duplicated] is evaluated on
    the labels as rewritten so far. *)
Definition dedup_columns (labels : list string) : list string :=
  fold_left dedup_step (seq 0 (length labels)) labels.

(** ** Building the per-page frame (line 46) *)

Definition list_max_len {A : Type} (data : list (list A)) : nat :=
  fold_right Nat.max 0 (map (@length A) data).

Definition cell_at (r : list string) (j : nat) : value :=
  match nth_error r j with
  | Some s => VStr s
  | None => VNull
  end.

(** [pd.DataFrame(data, columns=header)]: the data width is the longest
    row, shorter rows are padded with missing cells, and a width that
    differs from the header's is a [ValueError] ([None] here). *)
Definition DataFrame (data : list (list string)) (header : list string)
  : option frame :=
  match data with
  | [] => Some (mkFrame (map (fun h => (h, [])) header) 0)
  | _ =>
      if list_max_len data =? length header
      then Some (mkFrame
                   (map (fun jh => (snd jh, map (fun r => cell_at r (fst jh)) data))
                        (combine (seq 0 (length header)) header))
                   (length data))
      else None
  end.

(** One page: [page.extract_table()] gives [None] or a list of rows. *)
Definition page : Type := option (list (list string)).

(** The body of the [for page in pdf.pages] loop; [None] when the
    construction of the frame raises. *)
Definition page_frame (p : page) : option (list frame) :=
  match p with
  | None | Some [] => Some []
  | Some (header :: data) =>
      match DataFrame data header with
      | Some df =>
          Some [mkFrame (combine (dedup_columns (columns df)) (map snd (cols df)))
                        (nrows df)]
      | None => None
      end
  end.

Fixpoint collect_pages (ps : list page) : option (list frame) :=
  match ps with
  | [] => Some []
  | p :: ps' =>
      match page_frame p with
      | None => None
      | Some fs =>
          match collect_pages ps' with
          | None => None
          | Some rest => Some (fs ++ rest)
          end
      end
  end.

(** ** Concatenation (line 61) *)

Fixpoint nodupb (l : list string) : bool :=
  match l with
  | [] => true
  | x :: l' => negb (existsb (String.eqb x) l') && nodupb l'
  end.

Definition labels_eqb (a b : list string) : bool :=
  (length a =? length b) && forallb (fun p => String.eqb (fst p) (snd p)) (combine a b).

Fixpoint union_labels (seen : list string) (l : list string) : list string :=
  match l with
  | [] => seen
  | x :: l' =>
      if existsb (String.eqb x) seen
      then union_labels seen l'
      else union_labels (seen ++ [x]) l'
  end.

Definition column_or_missing (name : string) (df : frame) : list value :=
  match find (labelled name) (cols df) with
  | Some c => snd c
  | None => repeat VNull (nrows df)
  end.

Definition total_rows (dfs : list frame) : nat :=
  fold_right Nat.add 0 (map nrows dfs).

(** [pd.concat(dfs, ignore_index=True)] for a non-empty list.  Frames
    with the same labels are stacked position by position.  Otherwise
    the labels are united in order of first appearance and every frame
    is re-indexed on them, which pandas refuses for a frame whose
    labels repeat. *)
Definition pd_concat (dfs : list frame) : result frame :=
  match dfs with
  | [] => Raise ValueError
  | d :: rest =>
      if forallb (fun f => labels_eqb (columns d) (columns f)) rest
      then Ok (mkFrame
                 (map (fun jc =>
                         (fst (snd jc),
                          flat_map (fun f => snd (nth (fst jc) (cols f) ("", []))) dfs))
                      (combine (seq 0 (length (cols d))) (cols d)))
                 (total_rows dfs))
      else if forallb (fun f => nodupb (columns f)) dfs
      then Ok (mkFrame
                 (map (fun name => (name, flat_map (column_or_missing name) dfs))
                      (union_labels [] (flat_map columns dfs)))
                 (total_rows dfs))
      else Raise InvalidIndexError
  end.

(** ** Role inference, projection and coercion (lines 62-81) *)

(** The tests of lines 63-66 on a label.  [Str.lower] stands for
    [str.lower] here without loss: the triggers are ASCII words, and
    [str.lower] turns a letter outside ASCII into letters outside
    ASCII, but for U+0130, which gives an [i] followed by a combining
    dot, and U+212A, which gives a [k]; no trigger has a [k], and none
    has an [i] that a combining dot could follow.  Whether a trigger
    occurs in the lowered label therefore depends on the ASCII letters
    of the label alone. *)
Definition is_date_label (c : string) : bool :=
  Str.contains "date" (Str.lower c).

Definition is_debit_label (c : string) : bool :=
  Str.contains "debit" (Str.lower c) || Str.contains "withdraw" (Str.lower c).

Definition is_credit_label (c : string) : bool :=
  Str.contains "credit" (Str.lower c) || Str.contains "deposit" (Str.lower c).

Definition is_ref_label (c : string) : bool :=
  Str.contains "ref" (Str.lower c) || Str.contains "particular" (Str.lower c).

(** [next((c for c in columns if p(c)), None)]. *)
Definition first_col (p : string -> bool) (labels : list string) : option string :=
  find p labels.

(** Truthiness of an optional label: [None] and the empty string are
    false. *)
Definition truthy (o : option string) : bool :=
  match o with
  | Some c => negb (String.eqb c "")
  | None => false
  end.

Definition keep_if_truthy (o : option string) : list string :=
  match o with
  | Some c => if truthy o then [c] else []
  | None => []
  end.

(** A Python [dict] with string keys: the newest binding of a key is the
    one read. *)
Definition dict : Type := list (string * string).

Definition dict_set (d : dict) (k v : string) : dict := (k, v) :: d.

Definition dict_get (d : dict) (k : string) : option string :=
  match find (fun kv => String.eqb (fst kv) k) d with
  | Some kv => Some (snd kv)
  | None => None
  end.

(** [if col: rename_map[col] = name]. *)
Definition bind_role (o : option string) (name : string) (d : dict) : dict :=
  match o with
  | Some c => if truthy o then dict_set d c name else d
  | None => d
  end.

(** [df[keys]] for a list of labels: for each key in turn, every column
    carrying it. *)
Definition select_columns (df : frame) (keys : list string) : result frame :=
  if forallb (fun k => has_column k df) keys
  then Ok (mkFrame (flat_map (fun k => filter (labelled k) (cols df)) keys)
                   (nrows df))
  else Raise KeyError.

Definition rename_label (d : dict) (c : string) : string :=
  match dict_get d c with
  | Some n => n
  | None => c
  end.

(** [df.rename(columns=d)]. *)
Definition rename (d : dict) (df : frame) : frame :=
  mkFrame (map (fun c => (rename_label d (fst c), snd c)) (cols df)) (nrows df).

(** Apply [f] to the cells of the columns labelled [name]. *)
Definition map_column (name : string) (f : value -> value) (df : frame) : frame :=
  mkFrame (map (fun c => if labelled name c then (fst c, map f (snd c)) else c)
               (cols df))
          (nrows df).

(** [df[name] = g(df[name])] where [g] works on a Series: nothing happens
    without the column, and a repeated label raises [e]. *)
Definition assign_series (e : exn) (name : string) (f : value -> value)
  (df : frame) : result frame :=
  if has_column name df
  then _ <- series e df name ;; Ok (map_column name f df)
  else Ok df.

Section Normalizer.

(** The permissive parsers of pandas, cell by cell: [to_numeric] on
    the text of a number ([None] when it is not one) and
    [to_datetime] on the text of a date. *)
Variable to_numeric : string -> option Q.
Variable to_datetime : string -> option date.

(** [pd.to_numeric(s.astype(str).str.replace(",", "").str.strip(),
    errors="coerce").fillna(0)] on one cell.  A missing cell is
    rendered by [astype(str)] as a word that is not a number. *)
Definition coerce_amount (v : value) : value :=
  match v with
  | VStr s =>
      match to_numeric (Str.strip (Str.remove_char "," s)) with
      | Some q => VNum q
      | None => VNum 0
      end
  | VNum q => VNum q
  | VDate _ | VNull => VNum 0
  end.

(** [pd.to_datetime(s, errors="coerce")] on one cell. *)
Definition coerce_date (v : value) : value :=
  match v with
  | VStr s =>
      match to_datetime s with
      | Some d => VDate d
      | None => VNull
      end
  | VDate d => VDate d
  | VNum _ | VNull => VNull
  end.

Definition date_col (df : frame) : option string :=
  first_col is_date_label (columns df).
Definition debit_col (df : frame) : option string :=
  first_col is_debit_label (columns df).
Definition credit_col (df : frame) : option string :=
  first_col is_credit_label (columns df).
Definition ref_col (df : frame) : option string :=
  first_col is_ref_label (columns df).

Definition keep_cols (df : frame) : list string :=
  keep_if_truthy (date_col df) ++ keep_if_truthy (debit_col df) ++
  keep_if_truthy (credit_col df) ++ keep_if_truthy (ref_col df).

Definition rename_map (df : frame) : dict :=
  bind_role (ref_col df) "Reference"
    (bind_role (credit_col df) "Credit"
       (bind_role (debit_col df) "Debit"
          (bind_role (date_col df) "Date" []))).

(** Lines 62-81, on the concatenated frame. *)
Definition normalize (df : frame) : result frame :=
  match keep_cols df with
  | [] => Ok empty_frame
  | keep =>
      sel <- select_columns df keep ;;
      let df1 := rename (rename_map df) sel in
      df2 <- assign_series AttributeError "Debit" coerce_amount df1 ;;
      df3 <- assign_series AttributeError "Credit" coerce_amount df2 ;;
      assign_series ValueError "Date" coerce_date df3
  end.

(** What opening the document gives: a password failure, any other
    failure, or the tables of the pages. *)
Inductive pdf : Type :=
| PasswordError
| Unreadable
| Pages (ps : list page).

(** Lines 39-81.  The first [except] clause names
    [pdfplumber.pdf.PDFPasswordError], which that module does not
    have: whatever is raised inside the [try] block, matching it
    against the clause raises [AttributeError], and this is what leaves
    the function.  Neither [return None] is reached. *)
Definition process_pdf_data (file : pdf) : result (option frame) :=
  match file with
  | PasswordError | Unreadable => Raise AttributeError
  | Pages ps =>
      match collect_pages ps with
      | None => Raise AttributeError
      | Some [] => Ok (Some empty_frame)
      | Some all_data =>
          df <- pd_concat all_data ;;
          out <- normalize df ;;
          Ok (Some out)
      end
  end.

(** The number of data rows the pages hold. *)
Definition input_rows (ps : list page) : nat :=
  fold_right Nat.add 0
    (map (fun p => match p with
                   | Some (_ :: data) => length data
                   | _ => 0
                   end) ps).

(** The [Process PDF] handler (lines 96-103): the session's frame is
    assigned only in the first branch; an exception that leaves
    [process_pdf_data] ends the run before any assignment. *)
Definition process_button (session_df : option frame) (file : pdf)
  : option frame :=
  match process_pdf_data file with
  | Ok (Some df) => if is_empty df then session_df else Some df
  | Ok None => session_df
  | Raise _ => session_df
  end.

End Normalizer.

(** ** Sample parsers

    Plain decimal notation and the month/day/year form, on which the
    permissive parsers of pandas agree with these. *)

Module Parse.

Definition digit (c : ascii) : option Z :=
  let n := nat_of_ascii c in
  if (48 <=? n) && (n <=? 57) then Some (Z.of_nat (n - 48)) else None.

(** Value and number of digits of a run of decimal digits. *)
Fixpoint digits (acc : Z) (s : string) : option Z :=
  match s with
  | EmptyString => Some acc
  | String c s' =>
      match digit c with
      | Some d => digits (10 * acc + d) s'
      | None => None
      end
  end.

Fixpoint split_at (c : ascii) (s : string) : string * option string :=
  match s with
  | EmptyString => (EmptyString, None)
  | String a s' =>
      if Ascii.eqb a c then (EmptyString, Some s')
      else let '(l, r) := split_at c s' in (String a l, r)
  end.

Definition unsigned (s : string) : option Q :=
  match split_at "." s with
  | (i, None) =>
      match i with
      | EmptyString => None
      | _ => match digits 0 i with Some n => Some (inject_Z n) | None => None end
      end
  | (i, Some f) =>
      match i, f with
      | EmptyString, EmptyString => None
      | _, _ =>
          match digits 0 i, digits 0 f with
          | Some n, Some m =>
              Some (Qred (inject_Z n + (m # Pos.pow 10 (Pos.of_nat (String.length f))))%Q)
          | _, _ => None
          end
      end
  end.

Definition decimal (s : string) : option Q :=
  match s with
  | String "-" s' =>
      match unsigned s' with Some q => Some (Qopp q) | None => None end
  | String "+" s' => unsigned s'
  | _ => unsigned s
  end.

(** [MM/DD/YYYY]. *)
Definition mdy (s : string) : option date :=
  match Str.split "/" s with
  | [m; d; y] =>
      match digits 0 m, digits 0 d, digits 0 y with
      | Some m', Some d', Some y' =>
          if (1 <=? m')%Z && (m' <=? 12)%Z && (1 <=? d')%Z && (d' <=? 31)%Z
             && negb (String.eqb m "") && negb (String.eqb d "")
             && (String.length y =? 4)
          then Some (mkDate y' m' d' 0)
          else None
      | _, _, _ => None
      end
  | _ => None
  end.

End Parse.

(** ** Grouping and ranking *)

Section Grouping.

Variables K V : Type.
Variable cmp : K -> K -> comparison.

(** One more row for key [k] in the groups, kept in ascending key
    order as [groupby] (with its default [sort=True]) returns them; a
    group holds the values of its rows in row order. *)
Fixpoint group_add (k : K) (v : V) (g : list (K * list V)) : list (K * list V) :=
  match g with
  | [] => [(k, [v])]
  | (k', l) :: g' =>
      match cmp k k' with
      | Lt => (k, [v]) :: g
      | Eq => (k', l ++ [v]) :: g'
      | Gt => (k', l) :: group_add k v g'
      end
  end.

Definition group_by (rows : list (K * V)) : list (K * list V) :=
  fold_left (fun g kv => group_add (fst kv) (snd kv) g) rows [].

End Grouping.

(** A Series indexed by Reference, in index order. *)
Definition ranked : Type := list (string * Q).

Definition Qgtb (a b : Q) : bool := negb (Qle_bool a b).

(** Stable insertion by descending amount: [x] goes before the first
    entry that is not larger. *)
Fixpoint insert_desc (x : string * Q) (s : ranked) : ranked :=
  match s with
  | [] => [x]
  | y :: s' => if Qgtb (snd y) (snd x) then y :: insert_desc x s' else x :: s
  end.

Fixpoint sort_desc (s : ranked) : ranked :=
  match s with
  | [] => []
  | x :: s' => insert_desc x (sort_desc s')
  end.

(** [s.nlargest(n)] with the default [keep="first"]. *)
Definition nlargest (n : nat) (s : ranked) : ranked := firstn n (sort_desc s).

(** [s[s > 0]]. *)
Definition positive (s : ranked) : ranked :=
  filter (fun kv => Qgtb (snd kv) 0) s.

(** The keys of a grouping by a text column: missing cells are left out
    ([dropna]).  Reference cells are text or missing in every frame the
    normaliser returns; other cells are outside this model. *)
Definition text_key (v : value) : result (option string) :=
  match v with
  | VStr s => Ok (Some s)
  | VNull => Ok None
  | _ => Raise TypeError
  end.

(** A numeric cell for an aggregate: [None] for a missing cell, which
    the aggregates pass over. *)
Definition number (v : value) : result (option Q) :=
  match v with
  | VNum q => Ok (Some q)
  | VNull => Ok None
  | _ => Raise TypeError
  end.

Fixpoint keyed_amounts (keys vals : list value)
  : result (list (string * option Q)) :=
  match keys, vals with
  | k :: keys', v :: vals' =>
      ok <- text_key k ;;
      q <- number v ;;
      rest <- keyed_amounts keys' vals' ;;
      Ok match ok with
         | Some s => (s, q) :: rest
         | None => rest
         end
  | _, _ => Ok []
  end.

Section Sums.

(** [GroupBy.sum] on the cells of one group of the column [col], in row
    order: the additions are those of float64 or int64, by the dtype of
    the column, and pass over the missing cells. *)
Variable group_sum : string -> list (option Q) -> Q.

(** [df.groupby("Reference")[col].sum()]. *)
Definition sum_by_reference (col : string) (df : frame) : result ranked :=
  keys <- series ValueError df "Reference" ;;
  vals <- series TypeError df col ;;
  rows <- keyed_amounts keys vals ;;
  Ok (map (fun kl => (fst kl, group_sum col (snd kl)))
          (group_by String_as_OT.compare rows)).

Definition get_top (col : string) (df : frame) (n : nat) : result ranked :=
  if has_column col df && has_column "Reference" df
  then sums <- sum_by_reference col df ;; Ok (positive (nlargest n sums))
  else Ok [].

(** Lines 106-110. *)
Definition get_top_debits (df : frame) (n : nat) : result ranked :=
  get_top "Debit" df n.

(** Lines 112-116. *)
Definition get_top_credits (df : frame) (n : nat) : result ranked :=
  get_top "Credit" df n.

(** ** Period summaries (lines 128-140) *)

(** Days since 1970-01-01 of a civil date. *)
Definition days_from_civil (d : date) : Z :=
  let y := if (month d <=? 2)%Z then (year d - 1)%Z else year d in
  let era := (y / 400)%Z in
  let yoe := (y - era * 400)%Z in
  let mp := ((month d + 9) mod 12)%Z in
  let doy := ((153 * mp + 2) / 5 + day d - 1)%Z in
  let doe := (yoe * 365 + yoe / 4 - yoe / 100 + doy)%Z in
  (era * 146097 + doe - 719468)%Z.

(** [to_period("M")], as months since January 1970. *)
Definition month_period (d : date) : Z := ((year d - 1970) * 12 + (month d - 1))%Z.

(** [to_period("W")]: weeks run from Monday to Sunday; day 0 was a
    Thursday. *)
Definition week_period (d : date) : Z := ((days_from_civil d + 3) / 7)%Z.

(** [df["Date"].dt.to_period(..)] on one cell. *)
Definition period_of (period : date -> Z) (v : value) : result (option Z) :=
  match v with
  | VDate d => Ok (Some (period d))
  | VNull => Ok None
  | _ => Raise AttributeError
  end.

Fixpoint bucketed (period : date -> Z) (dates debits credits : list value)
  : result (list (Z * (option Q * option Q))) :=
  match dates, debits, credits with
  | d :: dates', x :: debits', y :: credits' =>
      p <- period_of period d ;;
      a <- number x ;;
      b <- number y ;;
      rest <- bucketed period dates' debits' credits' ;;
      Ok match p with
         | Some k => (k, (a, b)) :: rest
         | None => rest
         end
  | _, _, _ => Ok []
  end.

(** The body shared by the two summaries: the period column is added to
    a copy, the groups are summed over [["Debit", "Credit"]] (a
    [KeyError] if either label is missing), the result is in period
    order and holds no group for a missing date. *)
Definition period_summary (period : date -> Z) (df : frame)
  : result (list (Z * (Q * Q))) :=
  if has_column "Date" df
  then
    dates <- series AttributeError df "Date" ;;
    debits <- series TypeError df "Debit" ;;
    credits <- series TypeError df "Credit" ;;
    rows <- bucketed period dates debits credits ;;
    Ok (map (fun kl => (fst kl, (group_sum "Debit" (map fst (snd kl)),
                                 group_sum "Credit" (map snd (snd kl)))))
            (group_by Z.compare rows))
  else Ok [].

Definition get_monthly_summary (df : frame) : result (list (Z * (Q * Q))) :=
  period_summary month_period df.

Definition get_weekly_summary (df : frame) : result (list (Z * (Q * Q))) :=
  period_summary week_period df.

End Sums.

(** ** Range filter (lines 147-152) *)

(** [series >= bound] and [series <= bound], cell by cell; a missing
    cell compares false, text does not compare with a number. *)
Definition compare_cell (test : Q -> bool) (v : value) : result bool :=
  match v with
  | VNum q => Ok (test q)
  | VNull => Ok false
  | _ => Raise TypeError
  end.

Fixpoint traverse {A B : Type} (f : A -> result B) (l : list A) : result (list B) :=
  match l with
  | [] => Ok []
  | x :: l' => y <- f x ;; ys <- traverse f l' ;; Ok (y :: ys)
  end.

Definition default_min_amt : Q := 0%Q.
Definition default_col : string := "Debit".

Definition filter_by_amount (df : frame) (min_amt : Q) (max_amt : option Q)
  (col : string) : result frame :=
  if has_column col df
  then
    match max_amt with
    | Some m =>
        if Qgtb m 0
        then
          vals <- series ValueError df col ;;
          mask <- traverse (compare_cell (fun q => Qle_bool min_amt q && Qle_bool q m)) vals ;;
          Ok (select_rows mask df)
        else
          vals <- series ValueError df col ;;
          mask <- traverse (compare_cell (fun q => Qle_bool min_amt q)) vals ;;
          Ok (select_rows mask df)
    | None =>
        vals <- series ValueError df col ;;
        mask <- traverse (compare_cell (fun q => Qle_bool min_amt q)) vals ;;
        Ok (select_rows mask df)
    end
  else Ok empty_frame.

(** The call with keyword defaults: [min_amt=0], [max_amt=None],
    [col="Debit"]. *)
Definition filter_by_amount_kw (df : frame) (min_amt max_amt : option Q)
  (col : option string) : result frame :=
  filter_by_amount df
    (match min_amt with Some m => m | None => default_min_amt end)
    max_amt
    (match col with Some c => c | None => default_col end).

(** ** Reference search and the dispatcher (lines 142-145, 213-337) *)

Section Query.

(** The regular-expression engine: [re.compile(pat).search], [None]
    for a pattern that does not compile. *)
Variable re_search : string -> option (string -> bool).

(** [str.lower], on any text. *)
Variable lower : string -> string.

(** [Series.sum] on the cells of a column, in row order: additions in
    float64 or int64, by the dtype of the column, passing over the
    missing cells. *)
Variable series_sum : list (option Q) -> Q.

Definition is_meta (c : ascii) : bool :=
  existsb (Ascii.eqb c)
    ["."; "^"; "$"; "*"; "+"; "?"; "{"; "}"; "["; "]"; "\"; "|"; "("; ")"]%char.

(** A pattern without metacharacters matches as a plain substring. *)
Fixpoint regex_plain (pat : string) : bool :=
  match pat with
  | EmptyString => true
  | String c pat' => negb (is_meta c) && regex_plain pat'
  end.

Definition cell_contains (m : string -> bool) (v : value) : bool :=
  match v with
  | VStr s => m (lower s)
  | _ => false
  end.

(** [s.str.lower().str.contains(pat, na=False)]; the pattern is a
    regular expression. *)
Definition str_contains (pat : string) (cells : list value) : result (list bool) :=
  if regex_plain pat
  then Ok (map (cell_contains (Str.contains pat)) cells)
  else match re_search pat with
       | Some m => Ok (map (cell_contains m) cells)
       | None => Raise RegexError
       end.

Definition search_reference (df : frame) (term : string) : result frame :=
  if has_column "Reference" df
  then
    refs <- series AttributeError df "Reference" ;;
    mask <- str_contains (lower term) refs ;;
    Ok (select_rows mask df)
  else Ok empty_frame.

(** [df.get(col, pd.Series()).sum()]; the sum of the empty default is
    0. *)
Definition sum_column (col : string) (df : frame) : result Q :=
  if has_column col df
  then
    vals <- series TypeError df col ;;
    ns <- traverse number vals ;;
    Ok (series_sum ns)
  else Ok 0%Q.

(** The branches of the [if]/[elif] cascade, in its order. *)
Inductive branch : Type :=
| HighestDebit
| HighestCredit
| MostTransactions
| TotalSpent
| TotalDeposited
| MonthlySummary
| WeeklySummary
| CountByReference
| MostFrequentReference
| LargestTransaction
| FilterReferenceAmount
| FreeText
| NotUnderstood.

Definition fixed_keys : list (string * branch) :=
  [("highest_debit", HighestDebit);
   ("highest_credit", HighestCredit);
   ("most_transactions", MostTransactions);
   ("total_spent", TotalSpent);
   ("total_deposited", TotalDeposited);
   ("monthly_summary", MonthlySummary);
   ("weekly_summary", WeeklySummary);
   ("count_by_reference", CountByReference);
   ("most_frequent_reference", MostFrequentReference);
   ("largest_transaction", LargestTransaction);
   ("filter_reference_amount", FilterReferenceAmount)].

Definition is_free_text (q : string) : bool :=
  Str.contains "how much" q || Str.contains "spent on" q
  || Str.contains "spend on" q.

Definition classify (q : string) : branch :=
  match find (fun kb => Str.contains (fst kb) q) fixed_keys with
  | Some kb => snd kb
  | None => if is_free_text q then FreeText else NotUnderstood
  end.

(** What the free-text branch displays. *)
Inductive answer : Type :=
| Spent (total : Q) (term : string) (found : frame)
| NoneFound (term : string)
| UsageHint.

(** Lines 321-334. *)
Definition answer_free_text (df : frame) (q : string) : result answer :=
  let parts := Str.split "on" q in
  if 1 <? length parts
  then
    let search_term := Str.strip (last parts "") in
    filtered_df <- search_reference df search_term ;;
    if negb (is_empty filtered_df)
    then
      total <- sum_column "Debit" filtered_df ;;
      Ok (Spent total search_term filtered_df)
    else Ok (NoneFound search_term)
  else Ok UsageHint.

(** Lines 262-270 and 272-280: the summary, or the warning when it is
    empty. *)
Definition answer_summary (summary : result (list (Z * (Q * Q))))
  : result (option (list (Z * (Q * Q)))) :=
  s <- summary ;;
  Ok match s with
     | [] => None
     | _ => Some s
     end.

End Query.

(** * Definitions used in the statements *)

(** ** Column-label deduplication *)

(** The label written at the next index, given the labels already
    written to its left. *)
Definition emit (done : list string) (c : string) : string :=
  if existsb (String.eqb c) done then suffixed c (length done) else c.

(** The left-to-right reading of the loop. *)
Fixpoint relabel (done rest : list string) : list string :=
  match rest with
  | [] => []
  | c :: r => emit done c :: relabel (done ++ [emit done c]) r
  end.


(** ** Range filter *)

(** A cell of an amount column: a number or missing. *)
Definition is_amount (v : value) : bool :=
  match v with
  | VNum _ | VNull => true
  | _ => false
  end.

(** The inclusive range test on a cell; the upper bound counts only
    for a positive [max_amt]. *)
Definition in_range (min_amt : Q) (max_amt : option Q) (v : value) : bool :=
  match v with
  | VNum q =>
      Qle_bool min_amt q &&
      match max_amt with
      | Some m => if Qgtb m 0 then Qle_bool q m else true
      | None => true
      end
  | _ => false
  end.

(** ** Sample inputs *)

(** The exact sum, which the float64 and the int64 sums of pandas give
    on whole numbers of moderate size. *)
Definition exact_sum (l : list (option Q)) : Q :=
  fold_left (fun acc x => match x with
                          | Some q => Qred (acc + q)
                          | None => acc
                          end) l 0%Q.

Definition sample_pdf : pdf :=
  Pages [Some [["Txn Date"; "Debit Amt"; "Credit Amt"; "Particulars"];
               ["01/01/2024"; "1,200.50"; "0"; "Coffee Shop"]]].

Definition sample_store : frame :=
  mkFrame [("Date", [VDate (mkDate 2024 1 1 0); VDate (mkDate 2024 1 2 0); VNull]);
           ("Debit", [VNum 5; VNum 0; VNum 12]);
           ("Credit", [VNum 0; VNum 30; VNum 0]);
           ("Reference", [VStr "Coffee Shop"; VStr "Salary"; VStr "Book shop"])]
          3.

(** ** Canonical roles *)

Inductive role : Type := Date | Debit | Credit | Reference.

Definition role_name (r : role) : string :=
  match r with
  | Date => "Date"
  | Debit => "Debit"
  | Credit => "Credit"
  | Reference => "Reference"
  end.

Definition triggers (r : role) : list string :=
  match r with
  | Date => ["date"]
  | Debit => ["debit"; "withdraw"]
  | Credit => ["credit"; "deposit"]
  | Reference => ["ref"; "particular"]
  end.

Definition role_label (r : role) : string -> bool :=
  match r with
  | Date => is_date_label
  | Debit => is_debit_label
  | Credit => is_credit_label
  | Reference => is_ref_label
  end.

(** The column the normaliser binds to a role. *)
Definition role_col (r : role) (df : frame) : option string :=
  match r with
  | Date => date_col df
  | Debit => debit_col df
  | Credit => credit_col df
  | Reference => ref_col df
  end.

(** What the normaliser does to the cells of a role's column. *)
Definition role_coercion (to_numeric : string -> option Q)
  (to_datetime : string -> option date) (r : role) : value -> value :=
  match r with
  | Date => coerce_date to_datetime
  | Debit | Credit => coerce_amount to_numeric
  | Reference => fun v => v
  end.

(** The frame before coercion: the kept columns under their canonical
    names. *)
Definition projected (df : frame) : frame :=
  rename (rename_map df)
    (mkFrame (flat_map (fun k => filter (labelled k) (cols df)) (keep_cols df))
             (nrows df)).

(** The concatenated table of two pages, [Txn Date | Amount] and
    [Txn Date | Narration Ref]. *)
Definition two_page_frame : frame :=
  mkFrame [("Txn Date", [VStr "01/01/2024"; VStr "01/02/2024"]);
           ("Amount", [VStr "5"; VNull]);
           ("Narration Ref", [VNull; VStr "Rent"])]
          2.

(** A page whose only column serves two roles. *)
Definition shared_column_pdf : pdf :=
  Pages [Some [["Debit/Credit"]; ["5"]]].

(** A statement with dates and debits but no credit column. *)
Definition debit_only_pdf : pdf :=
  Pages [Some [["Date"; "Debit"]; ["01/01/2024"; "5"]]].

Definition debit_only_store : frame :=
  mkFrame [("Date", [VDate (mkDate 2024 1 1 0)]); ("Debit", [VNum 5])] 1.

(** ** Ranking *)

(** The lexicographic order on labels. *)
Abbreviation slt := String_as_OT.lt.

(** A cell as a number: [None] for a missing cell. *)
Definition num_of (v : value) : option Q :=
  match v with
  | VNum q => Some q
  | _ => None
  end.

(** The row carries the Reference [k]. *)
Definition has_reference (k : string) (r : list (string * value)) : bool :=
  match cell "Reference" r with
  | VStr s => String.eqb s k
  | _ => false
  end.

(** The cells of [col] in the rows of Reference [k], in row order. *)
Definition reference_cells (col k : string) (df : frame) : list (option Q) :=
  map (fun r => num_of (cell col r)) (filter (has_reference k) (rows df)).

(** Larger amounts first; equal amounts in ascending key order. *)
Definition desc_then_key (a b : string * Q) : Prop :=
  (snd b < snd a)%Q \/ ((snd a == snd b)%Q /\ String_as_OT.lt (fst a) (fst b)).

(** [s] ranks the [n] largest positive sums of [col] by Reference:
    every entry is a Reference of the store with the sum of its cells,
    a positive one; larger sums come first and equal sums in ascending
    Reference order; and a Reference with a positive sum is left out
    only when [n] entries precede it. *)
Definition is_top (group_sum : string -> list (option Q) -> Q) (col : string)
  (df : frame) (n : nat) (s : ranked) : Prop :=
  length s <= n /\
  StronglySorted desc_then_key s /\
  (forall k q,
      In (k, q) s ->
      (exists r, In r (rows df) /\ has_reference k r = true) /\
      q = group_sum col (reference_cells col k df) /\
      (0 < q)%Q) /\
  (forall k r,
      In r (rows df) ->
      has_reference k r = true ->
      (0 < group_sum col (reference_cells col k df))%Q ->
      In (k, group_sum col (reference_cells col k df)) s \/
      (length s = n /\
       Forall (fun e => desc_then_key e (k, group_sum col (reference_cells col k df))) s)).

(** Two references with the same total, the later one in the alphabet
    first. *)
Definition tie_store : frame :=
  mkFrame [("Debit", [VNum 5; VNum 5; VNum 1]);
           ("Reference", [VStr "B"; VStr "A"; VStr "C"])] 3.

(** ** Free-text queries *)

(** The lowered text of a Reference cell contains the lowered term. *)
Definition reference_matches (lower : string -> string) (term : string)
  (v : value) : bool :=
  match v with
  | VStr s => Str.contains (lower term) (lower s)
  | _ => false
  end.

(** ** Store invariants *)

(** A cell as the table extractor delivers it: text or missing. *)
Definition is_raw (v : value) : bool :=
  match v with
  | VStr _ | VNull => true
  | _ => false
  end.

Definition raw_frame (df : frame) : bool :=
  forallb (fun c => forallb is_raw (snd c)) (cols df).

Definition is_number (v : value) : bool :=
  match v with
  | VNum _ => true
  | _ => false
  end.

Definition is_date_cell (v : value) : bool :=
  match v with
  | VDate _ | VNull => true
  | _ => false
  end.

(** A column of a transaction store: a canonical label over cells of
    its kind. *)
Definition typed_column (c : column) : bool :=
  if String.eqb (fst c) "Debit" || String.eqb (fst c) "Credit"
  then forallb is_number (snd c)
  else if String.eqb (fst c) "Date"
  then forallb is_date_cell (snd c)
  else if String.eqb (fst c) "Reference"
  then forallb is_raw (snd c)
  else false.

(** The canonical names of the roles that found a column, in the order
    of the projection. *)
Definition present_roles (df : frame) : list string :=
  flat_map (fun r => match role_col r df with
                     | Some _ => [role_name r]
                     | None => []
                     end)
           [Date; Debit; Credit; Reference].

(** A page whose data rows do not have the width of its header. *)
Definition ragged (p : page) : bool :=
  match p with
  | Some (header :: (_ :: _) as data) =>
      negb (list_max_len data =? length header)
  | _ => false
  end.

Definition ragged_pdf : pdf :=
  Pages [Some [["Date"; "Debit"]; ["01/01/2024"; "5"]];
         Some [["Date"; "Debit"]; ["01/02/2024"; "7"; "x"]]].

(** A rectangular frame of raw cells. *)
Definition frame_ok (df : frame) : Prop :=
  well_formed df = true /\ raw_frame df = true.

(** ** The filter branch (lines 306-319) *)

(** The sidebar's filter fields of the session state. *)
Record filters : Type := mkFilters {
  search_term : string;
  min_amt : Q;
  max_amt : Q;
  amt_col : string
}.

Section FilterBranch.

Variable re_search : string -> option (string -> bool).
Variable lower : string -> string.

(** The frame the branch displays, [None] for "No matching transactions
    found."  A non-empty search term narrows the store first. *)
Definition answer_filter (s : filters) (df : frame) : result (option frame) :=
  fdf <- (if negb (String.eqb (search_term s) "")
          then search_reference re_search lower df (search_term s)
          else Ok df) ;;
  fdf' <- (if Qgtb (max_amt s) 0
           then filter_by_amount fdf (min_amt s) (Some (max_amt s)) (amt_col s)
           else filter_by_amount fdf (min_amt s) None (amt_col s)) ;;
  Ok (if negb (is_empty fdf') then Some fdf' else None).

End FilterBranch.

(** The rows the filter branch keeps. *)
Definition passes (lower : string -> string) (s : filters)
  (r : list (string * value)) : bool :=
  (String.eqb (search_term s) ""
   || reference_matches lower (search_term s) (cell "Reference" r))
  && in_range (min_amt s) (Some (max_amt s)) (cell (amt_col s) r).

Definition sample_filters : filters := mkFilters "shop" 1 10 "Debit".

(** ** The remaining helpers and dispatcher branches *)

(** Chronological order of timestamps. *)
Definition date_compare (a b : date) : comparison :=
  match Z.compare (year a) (year b) with
  | Eq =>
      match Z.compare (month a) (month b) with
      | Eq =>
          match Z.compare (day a) (day b) with
          | Eq => Z.compare (clock a) (clock b)
          | c => c
          end
      | c => c
      end
  | c => c
  end.

(** The keys of a grouping by the Date column: missing dates are left
    out.  Date cells are dates or missing in every frame the normaliser
    returns; other cells are outside this model. *)
Definition date_key (v : value) : result (option date) :=
  match v with
  | VDate d => Ok (Some d)
  | VNull => Ok None
  | _ => Raise TypeError
  end.

Fixpoint dated_rows (dates : list value) : result (list (date * unit)) :=
  match dates with
  | [] => Ok []
  | v :: dates' =>
      k <- date_key v ;;
      rest <- dated_rows dates' ;;
      Ok match k with
         | Some d => (d, tt) :: rest
         | None => rest
         end
  end.

(** Lines 118-121: [df.groupby("Date").size()], one group per
    timestamp. *)
Definition get_day_counts (df : frame) : result (list (date * nat)) :=
  if has_column "Date" df
  then
    dates <- series ValueError df "Date" ;;
    rows <- dated_rows dates ;;
    Ok (map (fun kl => (fst kl, length (snd kl))) (group_by date_compare rows))
  else Ok [].

Section Extremes.

Variables K V : Type.
Variable gtb : V -> V -> bool.

(** The first entry holding the largest value. *)
Fixpoint arg_max (best : K * V) (l : list (K * V)) : K * V :=
  match l with
  | [] => best
  | x :: l' => arg_max (if gtb (snd x) (snd best) then x else best) l'
  end.

(** [s.idxmax()] together with [s.max()]; [None] for an empty Series,
    which the branches test for first. *)
Definition idxmax (l : list (K * V)) : option (K * V) :=
  match l with
  | [] => None
  | x :: l' => Some (arg_max x l')
  end.

End Extremes.

Section Highest.

Variable group_sum : string -> list (option Q) -> Q.

(** Lines 215-223 and 225-236: the reference and value displayed, or
    [None] for the "no data" warning. *)
Definition answer_highest_debit (df : frame) : result (option (string * Q)) :=
  top_debits <- get_top_debits group_sum df 5 ;;
  Ok (idxmax Qgtb top_debits).

Definition answer_highest_credit (df : frame) : result (option (string * Q)) :=
  top_credits <- get_top_credits group_sum df 5 ;;
  Ok (idxmax Qgtb top_credits).

End Highest.

(** Lines 238-246. *)
Definition answer_most_transactions (df : frame) : result (option (date * nat)) :=
  day_counts <- get_day_counts df ;;
  Ok (idxmax (fun a b => b <? a) day_counts).

Definition Qmax_opt (acc : option Q) (x : option Q) : option Q :=
  match acc, x with
  | Some a, Some b => Some (if Qgtb b a then b else a)
  | None, _ => x
  | _, None => acc
  end.

(** [df.get(col, pd.Series()).max()]; [None] is the not-a-number the
    maximum of no numbers is. *)
Definition column_max (col : string) (df : frame) : result (option Q) :=
  if has_column col df
  then
    vals <- series TypeError df col ;;
    ns <- traverse number vals ;;
    Ok (fold_left Qmax_opt ns None)
  else Ok None.

(** Lines 301-304. *)
Definition answer_largest_transaction (df : frame)
  : result (option Q * option Q) :=
  debit_max <- column_max "Debit" df ;;
  credit_max <- column_max "Credit" df ;;
  Ok (debit_max, credit_max).

(** ** The quick-analysis menu (lines 195-203) *)

Definition quick_options : list string :=
  ["🔴 Highest Debit"; "💰 Highest Credit"; "📅 Most Transactions";
   "💸 Total Spent"; "💵 Total Deposited"; "🗓️ Monthly Summary";
   "🗓️ Weekly Summary"; "🔢 Transaction Count by Reference";
   "🔥 Most Frequent Reference"; "🏆 Largest Transaction"].

(** [s.split(" ", 1)[1]]: the text after the first space; there is no
    such element ([IndexError]) without a space. *)
Fixpoint after_first_space (s : string) : option string :=
  match s with
  | EmptyString => None
  | String c s' => if Ascii.eqb c " " then Some s' else after_first_space s'
  end.

(** [s.replace(a, b)] for one-character strings. *)
Fixpoint replace_char (a b : ascii) (s : string) : string :=
  match s with
  | EmptyString => EmptyString
  | String c s' => String (if Ascii.eqb c a then b else c) (replace_char a b s')
  end.

(** [selected_example.split(" ", 1)[1].lower().replace(" ", "_")]; what
    follows the first space of a menu entry is ASCII text. *)
Definition query_key (selected_example : string) : option string :=
  match after_first_space selected_example with
  | Some label => Some (replace_char " " "_" (Str.lower label))
  | None => None
  end.

(** The branch each menu entry is meant for, in menu order. *)
Definition menu_branches : list branch :=
  [HighestDebit; HighestCredit; MostTransactions; TotalSpent; TotalDeposited;
   MonthlySummary; WeeklySummary; CountByReference; MostFrequentReference;
   LargestTransaction].

(** [sep.join(parts)]. *)
Fixpoint join (sep : string) (parts : list string) : string :=
  match parts with
  | [] => EmptyString
  | [p] => p
  | p :: rest => (p ++ sep ++ join sep rest)%string
  end.

(** A timestamp of an earlier day. *)
Definition date_lt (a b : date) : Prop :=
  (year a < year b)%Z \/
  (year a = year b /\
   ((month a < month b)%Z \/ (month a = month b /\ (day a < day b)%Z))).

(** The earlier of two timestamps. *)
Definition stamp_lt (a b : date) : Prop :=
  date_lt a b \/
  (year a = year b /\ month a = month b /\ day a = day b /\
   (clock a < clock b)%Z).

(** [m] is the largest number of a column: one of its cells, no cell
    above it; [None] when the column holds no number. *)
Definition is_max (m : option Q) (vals : list value) : Prop :=
  match m with
  | Some q => In (VNum q) vals /\ forall q', In (VNum q') vals -> (q' <= q)%Q
  | None => forall q', ~ In (VNum q') vals
  end.

(** The entry the "highest" branches display: a Reference of the store
    whose sum of [col] is positive and which no other Reference
    exceeds, the first in Reference order among equals; [None] when no
    Reference has a positive sum. *)
Definition is_highest (group_sum : string -> list (option Q) -> Q)
  (col : string) (df : frame) (shown : option (string * Q)) : Prop :=
  let total k := group_sum col (reference_cells col k df) in
  match shown with
  | Some (k, q) =>
      (exists r, In r (rows df) /\ has_reference k r = true) /\
      q = total k /\ (0 < q)%Q /\
      forall k' r, In r (rows df) -> has_reference k' r = true ->
                   (total k' <= q)%Q /\ ((total k' == q)%Q -> k' = k \/ slt k k')
  | None =>
      forall k' r, In r (rows df) -> has_reference k' r = true ->
                   (total k' <= 0)%Q
  end.

(** The row is dated in the period [k]. *)
Definition in_period (period : date -> Z) (k : Z) (r : list (string * value))
  : bool :=
  match cell "Date" r with
  | VDate d => Z.eqb (period d) k
  | _ => false
  end.

(** The cells of [col] in the rows of period [k], in row order. *)
Definition period_cells (period : date -> Z) (col : string) (k : Z) (df : frame)
  : list (option Q) :=
  map (fun r => num_of (cell col r)) (filter (in_period period k) (rows df)).

(** [out] summarises the store by period: one line for each period
    that holds a dated row, in ascending order, with the sums of the
    Debit cells and of the Credit cells of the rows of that period. *)
Definition is_summary (group_sum : string -> list (option Q) -> Q)
  (period : date -> Z) (df : frame) (out : list (Z * (Q * Q))) : Prop :=
  StronglySorted Z.lt (map fst out) /\
  (forall k, In k (map fst out) <->
             exists r, In r (rows df) /\ in_period period k r = true) /\
  (forall k a b,
      In (k, (a, b)) out ->
      a = group_sum "Debit" (period_cells period "Debit" k df) /\
      b = group_sum "Credit" (period_cells period "Credit" k df)).

Definition dated_store : frame :=
  mkFrame [("Date", [VDate (mkDate 2024 1 31 0); VNull; VDate (mkDate 2024 2 1 0);
                     VDate (mkDate 2024 1 2 0); VDate (mkDate 2024 2 1 0);
                     VDate (mkDate 2024 2 1 3600000000000)]);
           ("Debit", [VNum 5; VNum 1; VNum 7; VNum 2; VNum 1; VNum 1]);
           ("Credit", [VNum 0; VNum 0; VNum 3; VNum 4; VNum 0; VNum 0])] 6.

(** The number of cells of a Date column that hold the timestamp [d]. *)
Definition dates_on (d : date) (dates : list value) : nat :=
  length (filter (fun v => match v with
                           | VDate d' =>
                               match date_compare d' d with
                               | Eq => true
                               | _ => false
                               end
                           | _ => false
                           end) dates).

(** The entry "Most Transactions" displays for the counts per
    timestamp: a timestamp no other exceeds, the earliest among equals;
    [None] when there is no dated row. *)
Definition is_busiest (counts : list (date * nat)) (shown : option (date * nat)) : Prop :=
  match shown with
  | Some (d, n) =>
      In (d, n) counts /\
      forall d' n', In (d', n') counts ->
                    n' <= n /\ (n' = n -> d' = d \/ stamp_lt d d')
  | None => counts = []
  end.


(** ** Rows under the labels of a concatenation *)

(** A row laid out under [labels]: its cell where it has the label, a
    missing cell elsewhere. *)
Definition reindex (labels : list string) (r : list (string * value))
  : list (string * value) :=
  map (fun name => (name, cell name r)) labels.

Definition page_one : frame :=
  mkFrame [("Date", [VStr "01/01/2024"; VStr "01/02/2024"]);
           ("Debit", [VStr "5"; VStr "7"])] 2.

Definition page_two : frame :=
  mkFrame [("Date", [VStr "01/03/2024"]); ("Debit", [VStr "9"])] 1.

Definition page_three : frame :=
  mkFrame [("Date", [VStr "01/04/2024"]); ("Credit", [VStr "30"])] 1.

(** ** Regular documents *)

(** A page without a table, or with the given header over data rows of
    the header's width. *)
Definition regular_page (header : list string) (p : page) : Prop :=
  match p with
  | None | Some [] => True
  | Some (h :: data) =>
      h = header /\ Forall (fun r : list string => length r = length header) data
  end.

(** The labels the roles choose in a header. *)
Definition chosen_labels (header : list string) : list string :=
  keep_cols (mkFrame (map (fun l => (l, [])) header) 0).

Definition regular_pages : list page :=
  [Some [["Date"; "Withdrawal"; "Deposit"; "Particulars"];
         ["01/01/2024"; "5"; "0"; "Coffee"]];
   None;
   Some [["Date"; "Withdrawal"; "Deposit"; "Particulars"];
         ["01/02/2024"; "0"; "30"; "Salary"];
         ["01/03/2024"; "7"; "0"; "Books"]]].

(** ** The civil calendar *)

Section Calendar.

Local Open Scope Z_scope.

Definition leap_year (y : Z) : bool :=
  ((y mod 4 =? 0) && negb (y mod 100 =? 0)) || (y mod 400 =? 0).

Definition days_in_month (y m : Z) : Z :=
  if m =? 2 then (if leap_year y then 29 else 28)
  else if (m =? 4) || (m =? 6) || (m =? 9) || (m =? 11) then 30 else 31.

(** The dates [pd.to_datetime] can produce: a month of the year and a
    day of that month. *)
Definition valid_date (d : date) : Prop :=
  1 <= month d <= 12 /\ 1 <= day d <= days_in_month (year d) (month d).

Definition year_start (y : Z) : Z := days_from_civil (mkDate y 1 1 0).

Definition year_length (y : Z) : Z := if leap_year y then 366 else 365.

(** Days between 1 January and the first of month [m]. *)
Definition month_offset (y m : Z) : Z :=
  if m =? 1 then 0 else if m =? 2 then 31 else
  (if leap_year y then 1 else 0) +
  (if m =? 3 then 59 else if m =? 4 then 90 else if m =? 5 then 120
   else if m =? 6 then 151 else if m =? 7 then 181 else if m =? 8 then 212
   else if m =? 9 then 243 else if m =? 10 then 273 else if m =? 11 then 304
   else 334).

End Calendar.

(** ** Groups, as the proofs see them *)

(** The values of the rows filed under [k], in row order. *)
Definition gather {K V : Type} (cmp : K -> K -> comparison) (k : K)
  (rows : list (K * V)) : list V :=
  map snd (filter (fun kv => match cmp (fst kv) k with
                             | Eq => true
                             | _ => false
                             end) rows).

(** The (Reference, number) pairs of the rows that have a Reference. *)
Definition keyed_cells (keys vals : list value) : list (string * option Q) :=
  flat_map (fun kv => match fst kv with
                      | VStr s => [(s, num_of (snd kv))]
                      | _ => []
                      end) (combine keys vals).

(** The (period, (debit, credit)) triples of the dated rows. *)
Definition bucketed_cells (period : date -> Z) (dates debits credits : list value)
  : list (Z * (option Q * option Q)) :=
  flat_map (fun dxy => match fst dxy with
                       | VDate d =>
                           [(period d,
                             (num_of (fst (snd dxy)), num_of (snd (snd dxy))))]
                       | _ => []
                       end) (combine dates (combine debits credits)).

(** The timestamps of the dated rows. *)
Definition dated_cells (dates : list value) : list (date * unit) :=
  flat_map (fun v => match v with
                     | VDate d => [(d, tt)]
                     | _ => []
                     end) dates.

(** ** White space, as the statements see it *)

(** A run of characters of [toks]. *)
Inductive blank_of (toks : list string) : string -> Prop :=
| blank_nil : blank_of toks ""
| blank_cons (w s : string) :
    In w toks -> blank_of toks s -> blank_of toks (w ++ s).

(** A run of white-space characters. *)
Definition blank : string -> Prop := blank_of Str.spaces.

(** [t] is [s] without its leading and its trailing white space. *)
Definition stripped (s t : string) : Prop :=
  (exists pre post, s = (pre ++ t ++ post)%string /\ blank pre /\ blank post) /\
  (forall w u, In w Str.spaces -> t <> (w ++ u)%string) /\
  (forall w u, In w Str.spaces -> t <> (u ++ w)%string).

(** [t] is [s] without the character [c]. *)
Definition without (c : ascii) (s t : string) : Prop :=
  list_ascii_of_string t
  = filter (fun a => negb (Ascii.eqb a c)) (list_ascii_of_string s).

(** [t] is the text of a raw amount cell [s] as it is parsed: without
    the commas and then without the surrounding white space. *)
Definition cleaned (s t : string) : Prop :=
  exists u, without "," s u /\ stripped u t.

(** A page whose amounts are padded with white space: a tab and spaces
    in front, a no-break space (U+00A0) and an ideographic space
    (U+3000) behind. *)
Definition padded_pdf : pdf :=
  Pages [Some [["Txn Date"; "Debit Amt"; "Credit Amt"; "Particulars"];
               ["01/01/2024";
                (Str.of_bytes [9; 32] ++ "1,200.50" ++ Str.of_bytes [194; 160])%string;
                ("7" ++ Str.of_bytes [227; 128; 128; 32])%string;
                "Coffee Shop"]]].

(** ** A label with the triggers of two roles *)

Definition ref_date_pdf : pdf :=
  Pages [Some [["Ref Date"; "Debit"]; ["01/01/2024"; "5"]]].

(** The table of [ref_date_pdf], as concatenated. *)
Definition ref_date_frame : frame :=
  mkFrame [("Ref Date", [VStr "01/01/2024"]); ("Debit", [VStr "5"])] 1.

(** ** The range filter without an upper bound *)

Definition at_least (lo : Q) (v : value) : bool :=
  match v with
  | VNum q => Qle_bool lo q
  | _ => false
  end.
(** * Properties *)

(** ** Column-label deduplication *)

Lemma set_nth_app (A : Type) (done : list A) (x y : A) (r : list A) :
  set_nth (length done) x (done ++ y :: r) = done ++ x :: r.
Proof.
  induction done as [|d done IH]; simpl; [reflexivity|].
  now rewrite IH.
Qed.

Lemma firstn_length_app (A : Type) (done r : list A) :
  firstn (length done) (done ++ r) = done.
Proof.
  induction done as [|d done IH]; simpl.
  - now destruct r.
  - now rewrite IH.
Qed.

Lemma nth_error_length_app (A : Type) (done : list A) (c : A) (r : list A) :
  nth_error (done ++ c :: r) (length done) = Some c.
Proof.
  induction done as [|d done IH]; simpl; auto.
Qed.

Lemma nth_length_app (A : Type) (done : list A) (c d : A) (r : list A) :
  nth (length done) (done ++ c :: r) d = c.
Proof.
  induction done as [|x done IH]; simpl; auto.
Qed.

Lemma dedup_step_next (done : list string) (c : string) (r : list string) :
  dedup_step (done ++ c :: r) (length done) = done ++ emit done c :: r.
Proof.
  unfold dedup_step, duplicated_at, emit.
  rewrite nth_error_length_app, firstn_length_app, nth_length_app.
  destruct (existsb (String.eqb c) done); [|reflexivity].
  apply set_nth_app.
Qed.

Lemma dedup_loop_relabel (rest done : list string) :
  fold_left dedup_step (seq (length done) (length rest)) (done ++ rest)
  = done ++ relabel done rest.
Proof.
  revert done.
  induction rest as [|c r IH]; intros done; simpl; [reflexivity|].
  rewrite dedup_step_next.
  specialize (IH (done ++ [emit done c])).
  rewrite length_app, Nat.add_comm in IH; simpl in IH.
  rewrite <- !app_assoc in IH; simpl in IH.
  exact IH.
Qed.

Lemma dedup_columns_relabel (h : list string) :
  dedup_columns h = relabel [] h.
Proof.
  unfold dedup_columns.
  exact (dedup_loop_relabel h []).
Qed.

Lemma relabel_length (rest done : list string) :
  length (relabel done rest) = length rest.
Proof.
  revert done; induction rest as [|c r IH]; intros done; simpl; auto.
Qed.

Lemma relabel_nth (rest : list string) :
  forall done i c,
    nth_error rest i = Some c ->
    nth_error (relabel done rest) i
    = Some (emit (done ++ firstn i (relabel done rest)) c).
Proof.
  induction rest as [|c0 r IH]; intros done i c Hi.
  - destruct i; discriminate.
  - destruct i as [|i]; simpl in *.
    + injection Hi as ->. now rewrite app_nil_r.
    + rewrite (IH _ _ _ Hi), <- app_assoc. reflexivity.
Qed.

Lemma existsb_eqb_In (c : string) (l : list string) :
  existsb (String.eqb c) l = true <-> In c l.
Proof.
  rewrite existsb_exists. split.
  - intros [x [Hx He]]. apply String.eqb_eq in He. now subst.
  - intros H. exists c. split; [assumption|apply String.eqb_refl].
Qed.

Lemma relabel_fresh (rest : list string) :
  forall done,
    (forall x, In x rest -> ~ In x done) ->
    NoDup rest ->
    relabel done rest = rest.
Proof.
  induction rest as [|c r IH]; intros done Hfresh Hnd; simpl; [reflexivity|].
  inversion Hnd as [|? ? Hc Hr]; subst.
  assert (He : emit done c = c).
  { unfold emit. destruct (existsb (String.eqb c) done) eqn:E; [|reflexivity].
    apply existsb_eqb_In in E. exfalso. apply (Hfresh c); simpl; auto. }
  rewrite He. f_equal.
  apply IH; [|assumption].
  intros x Hx Hin. apply in_app_or in Hin. destruct Hin as [Hin|[->|[]]].
  - apply (Hfresh x); simpl; auto.
  - contradiction.
Qed.

Lemma firstn_In_le (A : Type) (l : list A) (x : A) (i j : nat) :
  i <= j -> In x (firstn i l) -> In x (firstn j l).
Proof.
  revert i j; induction l as [|a l IH]; intros i j Hle Hin.
  - now rewrite firstn_nil in Hin.
  - destruct i as [|i]; [contradiction|].
    destruct j as [|j]; [lia|].
    simpl in *. destruct Hin as [->|Hin]; [now left|right].
    apply (IH i j); [lia|assumption].
Qed.

Lemma firstn_S_nth_error (A : Type) (l : list A) (i : nat) (x : A) :
  nth_error l i = Some x -> In x (firstn (S i) l).
Proof.
  revert i; induction l as [|a l IH]; intros i Hi.
  - destruct i; discriminate.
  - destruct i as [|i]; simpl in *.
    + injection Hi as ->. now left.
    + right. now apply IH.
Qed.

(** Once a label has been read, it stands among the labels written up
    to that index. *)
Lemma dedup_label_written (h : list string) (j : nat) (c : string) :
  nth_error h j = Some c -> In c (firstn (S j) (dedup_columns h)).
Proof.
  intros Hj.
  pose proof (relabel_nth h [] j Hj) as Hout.
  rewrite <- dedup_columns_relabel in Hout. simpl in Hout.
  unfold emit in Hout.
  destruct (existsb (String.eqb c) (firstn j (dedup_columns h))) eqn:E.
  - apply existsb_eqb_In in E.
    apply (@firstn_In_le _ _ _ j (S j)); [lia|assumption].
  - now apply firstn_S_nth_error.
Qed.

(** C9 (as stated, refuted): the header [a, a, a_1] holds the first
    occurrence of [a_1] at index 2, and the pass rewrites it, because
    the duplicate at index 1 has just been renamed to [a_1]. *)
Lemma dedup_first_occurrence_rewritten :
  ~ (forall (h : list string) (i : nat) (c : string),
        nth_error h i = Some c ->
        ~ In c (firstn i h) ->
        nth_error (dedup_columns h) i = Some c).
Proof.
  intros H.
  specialize (H ["a"; "a"; "a_1"] 2 "a_1" eq_refl).
  assert (Hn : ~ In "a_1" (firstn 2 ["a"; "a"; "a_1"])).
  { simpl. intros [E|[E|[]]]; discriminate. }
  specialize (H Hn). vm_compute in H. discriminate.
Qed.

(** C9 (amended): a header without repeated labels is left unchanged by
    the deduplication pass; in general the label at index [i] keeps its
    text exactly when no label written to its left equals it and is
    suffixed with [_i] otherwise, so every later duplicate of a label is
    suffixed. *)
Theorem dedup_columns_spec (h : list string) :
  (NoDup h -> dedup_columns h = h) /\
  length (dedup_columns h) = length h /\
  (forall i c,
      nth_error h i = Some c ->
      nth_error (dedup_columns h) i
      = Some (if existsb (String.eqb c) (firstn i (dedup_columns h))
              then suffixed c i else c)) /\
  (forall i j c,
      j < i ->
      nth_error h j = Some c ->
      nth_error h i = Some c ->
      nth_error (dedup_columns h) i = Some (suffixed c i)).
Proof.
  assert (Hnth : forall i c,
             nth_error h i = Some c ->
             nth_error (dedup_columns h) i
             = Some (if existsb (String.eqb c) (firstn i (dedup_columns h))
                     then suffixed c i else c)).
  { intros i c Hi.
    pose proof (relabel_nth h [] i Hi) as Hout.
    rewrite <- dedup_columns_relabel in Hout. simpl in Hout.
    rewrite Hout. unfold emit.
    rewrite length_firstn, dedup_columns_relabel, relabel_length.
    assert (i < length h) by (apply nth_error_Some; congruence).
    now rewrite Nat.min_l by lia. }
  split; [|split; [|split]].
  - intros Hnd. rewrite dedup_columns_relabel.
    apply relabel_fresh; [intros x _ []|assumption].
  - rewrite dedup_columns_relabel. apply relabel_length.
  - exact Hnth.
  - intros i j c Hlt Hj Hi.
    rewrite (Hnth i c Hi).
    assert (Hin : In c (firstn i (dedup_columns h))).
    { apply (@firstn_In_le _ _ _ (S j) i); [lia|].
      now apply dedup_label_written. }
    apply existsb_eqb_In in Hin. now rewrite Hin.
Qed.

Lemma dedup_columns_spec_witness :
  dedup_columns ["Date"; "Debit"] = ["Date"; "Debit"] /\
  nth_error (dedup_columns ["Date"; "Date"; "Amount"]) 1 = Some "Date_1".
Proof.
  split.
  - apply (proj1 (dedup_columns_spec ["Date"; "Debit"])).
    repeat constructor; simpl; intuition discriminate.
  - apply (proj2 (proj2 (proj2 (dedup_columns_spec ["Date"; "Date"; "Amount"])))
             1 0 "Date"); [lia|reflexivity|reflexivity].
Defined.

(** ** Range filter *)

Lemma Qgtb_false_iff (a b : Q) : Qgtb a b = false <-> (a <= b)%Q.
Proof.
  unfold Qgtb. rewrite negb_false_iff. apply Qle_bool_iff.
Qed.

Lemma Qgtb_true_iff (a b : Q) : Qgtb a b = true <-> (b < a)%Q.
Proof.
  unfold Qgtb. rewrite negb_true_iff. split.
  - intros H. apply Qnot_le_lt. intros Hle. apply Qle_bool_iff in Hle. congruence.
  - intros H. destruct (Qle_bool a b) eqn:E; [|reflexivity].
    apply Qle_bool_iff in E. exfalso. exact (Qlt_not_le _ _ H E).
Qed.

Lemma traverse_compare_amounts (t : Q -> bool) (vals : list value) :
  forallb is_amount vals = true ->
  traverse (compare_cell t) vals
  = Ok (map (fun v => match v with VNum q => t q | _ => false end) vals).
Proof.
  induction vals as [|v vals IH]; simpl; [reflexivity|].
  intros H. apply andb_true_iff in H. destruct H as [Hv Hr].
  rewrite (IH Hr). destruct v; simpl in *; try discriminate; reflexivity.
Qed.

Lemma series_inv (e : exn) (df : frame) (name : string) (vals : list value) :
  series e df name = Ok vals ->
  exists c, filter (labelled name) (cols df) = [c] /\ snd c = vals.
Proof.
  unfold series. destruct (filter (labelled name) (cols df)) as [|c [|c' l]];
    try discriminate.
  intros H. injection H as <-. now exists c.
Qed.

Lemma series_exn_irrelevant (e e' : exn) (df : frame) (name : string)
  (vals : list value) :
  series e df name = Ok vals -> series e' df name = Ok vals.
Proof.
  unfold series. destruct (filter (labelled name) (cols df)) as [|c [|c' l]];
    try discriminate; auto.
Qed.

Lemma series_has_column (e : exn) (df : frame) (name : string) (vals : list value) :
  series e df name = Ok vals -> has_column name df = true.
Proof.
  intros H. apply series_inv in H. destruct H as [c [Hc _]].
  assert (Hin : In c (filter (labelled name) (cols df))) by (rewrite Hc; now left).
  apply filter_In in Hin. destruct Hin as [Hin Hl].
  unfold has_column, columns. apply existsb_exists.
  exists (fst c). split; [now apply in_map|].
  unfold labelled in Hl. now rewrite String.eqb_sym.
Qed.

Section Transposition.

Variable name : string.

Lemma tails_lengths (n : nat) (cs : list column) :
  Forall (fun c => length (snd c) = S n) cs ->
  Forall (fun c => length (snd c) = n) (tails cs).
Proof.
  intros H. unfold tails. rewrite Forall_map. simpl.
  eapply Forall_impl; [|exact H].
  intros c Hc. simpl in Hc. destruct (snd c); simpl in *; lia.
Qed.

Lemma masked_kept (n : nat) (mask : list bool) (cs : list column) :
  Forall (fun c => length (snd c) = S n) cs ->
  heads (masked (true :: mask) cs) = heads cs /\
  tails (masked (true :: mask) cs) = masked mask (tails cs).
Proof.
  intros H. rewrite Forall_forall in H.
  unfold heads, tails, masked. rewrite !map_map. simpl.
  split; apply map_ext_in; intros c Hc; specialize (H c Hc);
    destruct (snd c); (discriminate || reflexivity).
Qed.

Lemma masked_dropped (n : nat) (mask : list bool) (cs : list column) :
  Forall (fun c => length (snd c) = S n) cs ->
  masked (false :: mask) cs = masked mask (tails cs).
Proof.
  intros H. rewrite Forall_forall in H.
  unfold tails, masked. rewrite map_map. simpl.
  apply map_ext_in; intros c Hc; specialize (H c Hc);
    destruct (snd c); (discriminate || reflexivity).
Qed.

Lemma transpose_masked (n : nat) :
  forall cs mask,
    length mask = n ->
    Forall (fun c => length (snd c) = n) cs ->
    transpose (count_true mask) (masked mask cs)
    = mask_list mask (transpose n cs).
Proof.
  induction n as [|n IH]; intros cs mask Hm Hcs.
  - destruct mask; [reflexivity|discriminate].
  - destruct mask as [|b mask]; [discriminate|].
    injection Hm as Hm.
    pose proof (tails_lengths Hcs) as Htl.
    destruct b.
    + change (count_true (true :: mask)) with (S (count_true mask)).
      cbn [transpose mask_list].
      destruct (masked_kept mask Hcs) as [-> ->].
      apply f_equal. now apply IH.
    + change (count_true (false :: mask)) with (count_true mask).
      cbn [transpose mask_list].
      rewrite (masked_dropped mask Hcs). now apply IH.
Qed.

Lemma filter_labelled_tails (cs : list column) :
  filter (labelled name) (tails cs) = tails (filter (labelled name) cs).
Proof.
  unfold tails. induction cs as [|c cs IH]; simpl; [reflexivity|].
  change (labelled name (fst c, tl (snd c))) with (labelled name c).
  destruct (labelled name c); simpl; now rewrite IH.
Qed.

Lemma cell_heads (cs : list column) (c : column) :
  filter (labelled name) cs = [c] ->
  cell name (heads cs) = hd VNull (snd c).
Proof.
  unfold cell, heads. induction cs as [|c0 cs IH]; simpl; [discriminate|].
  unfold labelled at 1. destruct (String.eqb (fst c0) name) eqn:E.
  - intros H. injection H as -> _. reflexivity.
  - exact IH.
Qed.

Lemma mask_transpose_filter (g : value -> bool) (n : nat) :
  forall cs c,
    filter (labelled name) cs = [c] ->
    length (snd c) = n ->
    mask_list (map g (snd c)) (transpose n cs)
    = filter (fun r => g (cell name r)) (transpose n cs).
Proof.
  induction n as [|n IH]; intros cs c Hc Hlen; simpl.
  - now destruct (map g (snd c)).
  - rewrite (cell_heads _ Hc).
    assert (Htl : filter (labelled name) (tails cs) = [(fst c, tl (snd c))]).
    { rewrite filter_labelled_tails, Hc. reflexivity. }
    specialize (IH (tails cs) _ Htl).
    destruct (snd c) as [|v vals]; [discriminate|].
    simpl in *. injection Hlen as Hlen. specialize (IH Hlen).
    destruct (g v); now rewrite IH.
Qed.

End Transposition.

Lemma well_formed_lengths (df : frame) :
  well_formed df = true ->
  Forall (fun c => length (snd c) = nrows df) (cols df).
Proof.
  unfold well_formed. rewrite forallb_forall, Forall_forall.
  intros H c Hc. apply Nat.eqb_eq. now apply H.
Qed.

Lemma select_rows_spec (df : frame) (name : string) (c : column) (g : value -> bool) :
  well_formed df = true ->
  filter (labelled name) (cols df) = [c] ->
  let out := select_rows (map g (snd c)) df in
  columns out = columns df /\
  rows out = filter (fun r => g (cell name r)) (rows df).
Proof.
  intros Hwf Hc out.
  pose proof (well_formed_lengths df Hwf) as Hlen.
  assert (Hcl : length (snd c) = nrows df).
  { rewrite Forall_forall in Hlen. apply Hlen.
    assert (Hin : In c (filter (labelled name) (cols df))) by (rewrite Hc; now left).
    now apply filter_In in Hin. }
  split.
  - unfold out, select_rows, columns, masked. simpl. rewrite map_map. reflexivity.
  - unfold out, rows, select_rows. simpl.
    rewrite firstn_all2 by (rewrite length_map; lia).
    rewrite (@transpose_masked (nrows df)); [|rewrite length_map; lia|assumption].
    now apply mask_transpose_filter.
Qed.

(** C7: on a store whose chosen column holds amounts,
    [filter_by_amount] returns exactly the rows whose amount lies in the
    inclusive range [min_amt .. max_amt], where the upper bound applies
    only for a positive [max_amt]; with [min = 0] and [max = 0] these
    are the rows with a non-negative amount, and [min_amt] defaults to
    0. *)
Theorem filter_by_amount_spec (df : frame) (min_amt : Q) (max_amt : option Q)
  (col : string) (vals : list value) :
  well_formed df = true ->
  series ValueError df col = Ok vals ->
  forallb is_amount vals = true ->
  (exists out,
      filter_by_amount df min_amt max_amt col = Ok out /\
      columns out = columns df /\
      rows out = filter (fun r => in_range min_amt max_amt (cell col r)) (rows df)) /\
  (forall q,
      in_range min_amt max_amt (VNum q) = true <->
      (min_amt <= q)%Q /\
      (forall m, max_amt = Some m -> (0 < m)%Q -> (q <= m)%Q)) /\
  (forall q, in_range 0 (Some 0%Q) (VNum q) = true <-> (0 <= q)%Q) /\
  filter_by_amount_kw df None max_amt (Some col)
  = filter_by_amount df 0 max_amt col.
Proof.
  intros Hwf Hs Ham.
  split; [|split; [|split]].
  - pose proof (series_has_column _ _ _ Hs) as Hhas.
    destruct (series_inv _ _ _ Hs) as [c [Hc Hv]]. subst vals.
    unfold filter_by_amount. rewrite Hhas, Hs. simpl.
    assert (Hcase :
      forall t : Q -> bool,
        (forall v, is_amount v = true ->
                   match v with VNum q => t q | _ => false end
                   = in_range min_amt max_amt v) ->
        exists out,
          (mask <- traverse (compare_cell t) (snd c) ;; Ok (select_rows mask df))
          = Ok out /\
          columns out = columns df /\
          rows out
          = filter (fun r => in_range min_amt max_amt (cell col r)) (rows df)).
    { intros t Ht.
      rewrite (traverse_compare_amounts t _ Ham). simpl.
      eexists. split; [reflexivity|].
      assert (Hmask :
        map (fun v => match v with VNum q => t q | _ => false end) (snd c)
        = map (in_range min_amt max_amt) (snd c)).
      { apply map_ext_in. intros v Hv. apply Ht.
        rewrite forallb_forall in Ham. now apply Ham. }
      rewrite Hmask.
      exact (select_rows_spec df col (in_range min_amt max_amt) Hwf Hc). }
    destruct max_amt as [m|]; [destruct (Qgtb m 0) eqn:Em|].
    + apply Hcase. intros v _. destruct v; simpl; try reflexivity.
      now rewrite Em.
    + apply Hcase. intros v _. destruct v; simpl; try reflexivity.
      now rewrite Em, andb_true_r.
    + apply Hcase. intros v _. destruct v; simpl; try reflexivity.
      now rewrite andb_true_r.
  - intros q. simpl. rewrite andb_true_iff, Qle_bool_iff.
    split.
    + intros [H1 H2]. split; [assumption|].
      intros m -> Hm. apply Qgtb_true_iff in Hm. rewrite Hm in H2.
      now apply Qle_bool_iff.
    + intros [H1 H2]. split; [assumption|].
      destruct max_amt as [m|]; [|reflexivity].
      destruct (Qgtb m 0) eqn:Em; [|reflexivity].
      apply Qle_bool_iff. apply H2; [reflexivity|now apply Qgtb_true_iff].
  - intros q. simpl. change (Qgtb 0 0) with false.
    now rewrite andb_true_r, Qle_bool_iff.
  - reflexivity.
Qed.

Lemma filter_by_amount_spec_witness :
  exists out,
    filter_by_amount sample_store 3 (Some 10%Q) "Debit" = Ok out /\
    columns out = columns sample_store /\
    rows out
    = filter (fun r => in_range 3 (Some 10%Q) (cell "Debit" r)) (rows sample_store).
Proof.
  apply (@filter_by_amount_spec sample_store 3 (Some 10%Q) "Debit"
           [VNum 5; VNum 0; VNum 12]); reflexivity.
Defined.

(** ** The session's store *)

(** C8: the [Process PDF] handler replaces the session's store only by a
    non-empty frame that [process_pdf_data] returned; after a failure
    ([None], an escaped exception) or an empty result the store is the
    one held before. *)
Theorem process_button_keeps_store (to_numeric : string -> option Q)
  (to_datetime : string -> option date) (session_df : option frame) (file : pdf) :
  let attempt := process_pdf_data to_numeric to_datetime file in
  let after := process_button to_numeric to_datetime session_df file in
  (attempt = Ok None -> after = session_df) /\
  (forall e, attempt = Raise e -> after = session_df) /\
  (forall df, attempt = Ok (Some df) -> is_empty df = true -> after = session_df) /\
  (forall df, attempt = Ok (Some df) -> is_empty df = false -> after = Some df) /\
  (after <> session_df ->
   exists df, attempt = Ok (Some df) /\ is_empty df = false /\ after = Some df).
Proof.
  intros attempt after. subst attempt after. unfold process_button.
  destruct (process_pdf_data to_numeric to_datetime file) as [[df|]|e].
  - destruct (is_empty df) eqn:E; repeat split; try congruence.
    intros _. exists df. auto.
  - repeat split; congruence.
  - repeat split; congruence.
Qed.

Lemma process_button_keeps_store_witness :
  process_button Parse.decimal Parse.mdy (Some sample_store) Unreadable
  = Some sample_store /\
  process_button Parse.decimal Parse.mdy (Some sample_store)
    (Pages [Some [["Debit/Credit"]; ["5"]]])
  = Some sample_store.
Proof.
  split.
  - apply (proj1 (proj2 (process_button_keeps_store Parse.decimal Parse.mdy
                    (Some sample_store) Unreadable))
             AttributeError).
    reflexivity.
  - apply (proj1 (proj2 (process_button_keeps_store Parse.decimal Parse.mdy
                    (Some sample_store) (Pages [Some [["Debit/Credit"]; ["5"]]])))
             AttributeError).
    reflexivity.
Defined.

(** ** Role inference and coercion *)

Lemma find_first_spec (A : Type) (p : A -> bool) (l : list A) (c : A) :
  find p l = Some c <->
  exists pre post,
    l = pre ++ c :: post /\ p c = true /\ forall x, In x pre -> p x = false.
Proof.
  split.
  - induction l as [|a l IH]; simpl; [discriminate|].
    destruct (p a) eqn:E.
    + intros H. injection H as <-. exists [], l. simpl. intuition.
    + intros H. destruct (IH H) as [pre [post [-> [Hc Hpre]]]].
      exists (a :: pre), post. simpl. repeat split; auto.
      intros x [<-|Hx]; auto.
  - intros [pre [post [-> [Hc Hpre]]]].
    induction pre as [|a pre IH]; simpl.
    + now rewrite Hc.
    + rewrite (Hpre a) by now left. apply IH. intros x Hx. apply Hpre. now right.
Qed.

Lemma find_none_iff (A : Type) (p : A -> bool) (l : list A) :
  find p l = None <-> forall x, In x l -> p x = false.
Proof.
  split; [apply find_none|].
  induction l as [|a l IH]; simpl; [reflexivity|].
  intros H. rewrite (H a) by now left. apply IH. intros x Hx. apply H. now right.
Qed.

Lemma filter_all (A : Type) (p : A -> bool) (l : list A) :
  (forall x, In x l -> p x = true) -> filter p l = l.
Proof.
  induction l as [|a l IH]; simpl; [reflexivity|].
  intros H. rewrite (H a) by now left. f_equal. apply IH. intros x Hx. apply H. now right.
Qed.

Lemma filter_none (A : Type) (p : A -> bool) (l : list A) :
  (forall x, In x l -> p x = false) -> filter p l = [].
Proof.
  induction l as [|a l IH]; simpl; [reflexivity|].
  intros H. rewrite (H a) by now left. apply IH. intros x Hx. apply H. now right.
Qed.

Lemma flat_map_singleton (A B : Type) (f : A -> list B) (l : list A) (x : B) :
  flat_map f l = [x] -> exists k, In k l /\ f k = [x].
Proof.
  induction l as [|a l IH]; simpl; [discriminate|].
  intros H. apply app_eq_unit in H. destruct H as [[Ha Hl]|[Ha Hl]].
  - destruct (IH Hl) as [k [Hk Hf]]. exists k. auto.
  - exists a. auto.
Qed.

Lemma flat_map_nonempty (A B : Type) (f : A -> list B) (l : list A) :
  flat_map f l <> [] -> exists k, In k l /\ f k <> [].
Proof.
  induction l as [|a l IH]; simpl; [congruence|].
  intros H. destruct (f a) eqn:E.
  - destruct (IH H) as [k [Hk Hf]]. exists k. auto.
  - exists a. split; [now left|congruence].
Qed.

Lemma labelled_iff (name : string) (c : column) :
  labelled name c = true <-> fst c = name.
Proof. unfold labelled. apply String.eqb_eq. Qed.

(** The columns of [df.rename(columns=d)] over [df[keys]] that carry the
    label [name]. *)
Lemma filter_rename_select (d : dict) (cs : list column) (keys : list string)
  (name : string) :
  filter (labelled name)
    (map (fun c => (rename_label d (fst c), snd c))
         (flat_map (fun k => filter (labelled k) cs) keys))
  = flat_map
      (fun k => if String.eqb (rename_label d k) name
                then map (fun c => (name, snd c)) (filter (labelled k) cs)
                else [])
      keys.
Proof.
  induction keys as [|k keys IH]; [reflexivity|].
  cbn [flat_map]. rewrite map_app, filter_app.
  apply f_equal2; [|exact IH].
  destruct (String.eqb (rename_label d k) name) eqn:E.
  - apply String.eqb_eq in E.
    rewrite filter_all.
    + apply map_ext_in. intros c Hc. apply filter_In in Hc.
      destruct Hc as [_ Hc]. apply labelled_iff in Hc. now rewrite Hc, E.
    + intros x Hx. apply in_map_iff in Hx. destruct Hx as [c [<- Hc]].
      apply filter_In in Hc. destruct Hc as [_ Hc]. apply labelled_iff in Hc.
      apply labelled_iff. simpl. now rewrite Hc.
  - apply filter_none.
    intros x Hx. apply in_map_iff in Hx. destruct Hx as [c [<- Hc]].
    apply filter_In in Hc. destruct Hc as [_ Hc]. apply labelled_iff in Hc.
    unfold labelled. simpl. now rewrite Hc.
Qed.

Lemma filter_map_column (name other : string) (f : value -> value) (df : frame) :
  filter (labelled name) (cols (map_column other f df))
  = if String.eqb other name
    then map (fun c => (fst c, map f (snd c))) (filter (labelled name) (cols df))
    else filter (labelled name) (cols df).
Proof.
  unfold map_column. simpl.
  destruct (String.eqb other name) eqn:En.
  - apply String.eqb_eq in En. subst other.
    induction (cols df) as [|c cs IH]; simpl; [reflexivity|].
    destruct (labelled name c) eqn:E; simpl.
    + change (labelled name (fst c, map f (snd c))) with (labelled name c).
      rewrite E. simpl. now rewrite IH.
    + now rewrite E.
  - induction (cols df) as [|c cs IH]; simpl; [reflexivity|].
    destruct (labelled other c) eqn:E; simpl.
    + change (labelled name (fst c, map f (snd c))) with (labelled name c).
      destruct (labelled name c) eqn:E2; [|exact IH].
      apply labelled_iff in E. apply labelled_iff in E2.
      apply String.eqb_neq in En. congruence.
    + now rewrite IH.
Qed.

Lemma map_column_absent (name : string) (f : value -> value) (df : frame) :
  has_column name df = false -> map_column name f df = df.
Proof.
  intros H. unfold map_column. destruct df as [cs n]. simpl. f_equal.
  unfold has_column, columns in H. simpl in H.
  induction cs as [|c cs IH]; simpl in *; [reflexivity|].
  apply orb_false_iff in H. destruct H as [Hc Hcs].
  unfold labelled at 1. rewrite String.eqb_sym, Hc.
  apply (f_equal (cons c)). now apply IH.
Qed.

Lemma has_column_filter (name : string) (df : frame) :
  has_column name df = false -> filter (labelled name) (cols df) = [].
Proof.
  intros H. apply filter_none. intros c Hc.
  unfold has_column, columns in H.
  destruct (labelled name c) eqn:E; [|reflexivity].
  apply labelled_iff in E.
  assert (Hex : existsb (String.eqb name) (map fst (cols df)) = true).
  { apply existsb_exists. exists (fst c). split; [now apply in_map|].
    rewrite E. apply String.eqb_refl. }
  congruence.
Qed.

Lemma assign_series_ok (e : exn) (name : string) (f : value -> value)
  (df df' : frame) :
  assign_series e name f df = Ok df' ->
  df' = map_column name f df /\
  length (filter (labelled name) (cols df)) <= 1.
Proof.
  unfold assign_series. destruct (has_column name df) eqn:Hh.
  - unfold series. destruct (filter (labelled name) (cols df)) as [|c [|c' l]];
      simpl; try discriminate.
    intros H. injection H as <-. auto.
  - intros H. injection H as <-.
    rewrite (map_column_absent _ _ _ Hh), (has_column_filter _ _ Hh). auto.
Qed.

Lemma select_columns_ok (df sel : frame) (keys : list string) :
  select_columns df keys = Ok sel ->
  sel = mkFrame (flat_map (fun k => filter (labelled k) (cols df)) keys) (nrows df).
Proof.
  unfold select_columns.
  destruct (forallb (fun k => has_column k df) keys); [|discriminate].
  now intros H; injection H as <-.
Qed.

Lemma first_col_has_column (p : string -> bool) (df : frame) (c : string) :
  first_col p (columns df) = Some c -> has_column c df = true.
Proof.
  intros H. apply find_some in H. destruct H as [Hin _].
  unfold has_column. apply existsb_exists. exists c.
  split; [assumption|apply String.eqb_refl].
Qed.

Lemma keep_cols_present (df : frame) :
  forallb (fun k => has_column k df) (keep_cols df) = true.
Proof.
  apply forallb_forall. intros k Hk. unfold keep_cols in Hk.
  repeat (apply in_app_or in Hk; destruct Hk as [Hk|Hk]);
    unfold keep_if_truthy in Hk;
    match type of Hk with
    | In _ (match ?o with _ => _ end) =>
        destruct o as [c|] eqn:Eo; [|contradiction];
        destruct (truthy (Some c)); [|contradiction];
        destruct Hk as [<-|[]];
        eapply first_col_has_column; exact Eo
    end.
Qed.

(** A kept label is renamed to the name of a role only if that role
    chose it. *)
Lemma rename_map_role (df : frame) (k : string) (r : role) :
  In k (keep_cols df) ->
  rename_label (rename_map df) k = role_name r ->
  role_col r df = Some k.
Proof.
  unfold keep_cols, rename_map, role_col, rename_label, dict_get,
    bind_role, keep_if_truthy, dict_set.
  generalize (date_col df) (debit_col df) (credit_col df) (ref_col df).
  intros a b c d Hin Hren.
  destruct a as [a|], b as [b|], c as [c|], d as [d|]; simpl in Hin, Hren;
    repeat match type of Hin with
           | context [String.eqb ?x ""] => destruct (String.eqb x ""); simpl in Hin, Hren
           end;
    repeat match type of Hren with
           | context [String.eqb ?x ?y] =>
               destruct (String.eqb_spec x y); simpl in Hren; subst
           end;
    destruct r; simpl in *; try discriminate; try reflexivity;
    intuition (subst; try congruence).
Qed.

Section NormalizerFacts.

Variable to_numeric : string -> option Q.
Variable to_datetime : string -> option date.

Lemma normalize_inv (df out : frame) :
  normalize to_numeric to_datetime df = Ok out ->
  (keep_cols df = [] /\ out = empty_frame) \/
  (keep_cols df <> [] /\
   out = map_column "Date" (coerce_date to_datetime)
           (map_column "Credit" (coerce_amount to_numeric)
              (map_column "Debit" (coerce_amount to_numeric) (projected df)))).
Proof.
  unfold normalize.
  destruct (keep_cols df) as [|k ks] eqn:Ek.
  - intros H. injection H as <-. now left.
  - rewrite <- Ek. intros H. right. split; [rewrite Ek; discriminate|].
    unfold select_columns in H. rewrite keep_cols_present in H. simpl in H.
    fold (projected df) in H.
    destruct (assign_series AttributeError "Debit" (coerce_amount to_numeric)
                (projected df)) as [df2|] eqn:E2; [|discriminate].
    simpl in H.
    destruct (assign_series AttributeError "Credit" (coerce_amount to_numeric) df2)
      as [df3|] eqn:E3; [|discriminate].
    simpl in H.
    apply assign_series_ok in E2, E3, H.
    destruct E2 as [-> _], E3 as [-> _], H as [-> _]. reflexivity.
Qed.

(** The columns of the normalised frame that carry the name of role
    [r]: the columns of the input whose kept label is renamed to it,
    coerced. *)
Lemma normalize_role_columns (df out : frame) (r : role) :
  normalize to_numeric to_datetime df = Ok out ->
  filter (labelled (role_name r)) (cols out)
  = map (fun c => (fst c, map (role_coercion to_numeric to_datetime r) (snd c)))
      (flat_map
         (fun k => if String.eqb (rename_label (rename_map df) k) (role_name r)
                   then map (fun c => (role_name r, snd c))
                            (filter (labelled k) (cols df))
                   else [])
         (keep_cols df)).
Proof.
  intros H. destruct (@normalize_inv _ _ H) as [[Ek ->]|[_ ->]].
  - now rewrite Ek.
  - rewrite <- filter_rename_select.
    change (map (fun c => (rename_label (rename_map df) (fst c), snd c))
              (flat_map (fun k => filter (labelled k) (cols df)) (keep_cols df)))
      with (cols (projected df)).
    rewrite !filter_map_column.
    destruct r; simpl; try reflexivity.
    symmetry. rewrite <- (map_id (filter _ _)) at 2.
    apply map_ext. intros [l d]. simpl. now rewrite map_id.
Qed.

Lemma normalize_bound_column (df out : frame) (r : role) (x : column) :
  normalize to_numeric to_datetime df = Ok out ->
  filter (labelled (role_name r)) (cols out) = [x] ->
  exists c col,
    role_col r df = Some c /\
    filter (labelled c) (cols df) = [col] /\
    snd x = map (role_coercion to_numeric to_datetime r) (snd col).
Proof.
  intros H Hx. rewrite (@normalize_role_columns _ _ r H) in Hx.
  destruct (flat_map _ (keep_cols df)) as [|y [|y' l]] eqn:Ef; try discriminate.
  simpl in Hx. injection Hx as <-.
  apply flat_map_singleton in Ef. destruct Ef as [k [Hk Hf]].
  destruct (String.eqb (rename_label (rename_map df) k) (role_name r)) eqn:Er;
    [|discriminate].
  apply String.eqb_eq in Er.
  destruct (filter (labelled k) (cols df)) as [|col [|col' l]] eqn:Ec;
    try discriminate.
  simpl in Hf. injection Hf as <-.
  exists k, col. split; [|split]; auto.
  now apply rename_map_role.
Qed.

Lemma normalize_column_present (df out : frame) (r : role) :
  normalize to_numeric to_datetime df = Ok out ->
  In (role_name r) (columns out) ->
  exists c, role_col r df = Some c.
Proof.
  intros H Hin.
  assert (Hne : filter (labelled (role_name r)) (cols out) <> []).
  { unfold columns in Hin. apply in_map_iff in Hin.
    destruct Hin as [c [Hc Hin]].
    assert (In c (filter (labelled (role_name r)) (cols out))).
    { apply filter_In. split; [assumption|now apply labelled_iff]. }
    intros E. rewrite E in *. contradiction. }
  rewrite (@normalize_role_columns _ _ r H) in Hne.
  match type of Hne with
  | context [flat_map ?f ?l] =>
      assert (Hne' : flat_map f l <> [])
        by (intros E; apply Hne; rewrite E; reflexivity)
  end.
  apply flat_map_nonempty in Hne'. destruct Hne' as [k [Hk Hf]].
  destruct (String.eqb (rename_label (rename_map df) k) (role_name r)) eqn:Er;
    [|congruence].
  apply String.eqb_eq in Er. exists k. now apply rename_map_role.
Qed.

(** A returned frame holds each of [Debit], [Credit] and [Date] at most
    once: a repeated one makes the coercion raise. *)
Lemma normalize_coerced_once (df out : frame) (r : role) :
  normalize to_numeric to_datetime df = Ok out ->
  r <> Reference ->
  length (filter (labelled (role_name r)) (cols out)) <= 1.
Proof.
  unfold normalize.
  destruct (keep_cols df) as [|k ks] eqn:Ek.
  - intros H _. injection H as <-. simpl. lia.
  - rewrite <- Ek. intros H Hr.
    unfold select_columns in H. rewrite keep_cols_present in H. simpl in H.
    fold (projected df) in H.
    destruct (assign_series AttributeError "Debit" (coerce_amount to_numeric)
                (projected df)) as [df2|] eqn:E2; [|discriminate].
    simpl in H.
    destruct (assign_series AttributeError "Credit" (coerce_amount to_numeric) df2)
      as [df3|] eqn:E3; [|discriminate].
    simpl in H.
    apply assign_series_ok in E2, E3, H.
    destruct E2 as [-> L2], E3 as [-> L3], H as [-> L4].
    rewrite !filter_map_column in *.
    destruct r; simpl in *; try congruence;
      rewrite ?length_map in *; assumption.
Qed.

Lemma series_of_singleton (e : exn) (df : frame) (name : string) (c : column) :
  filter (labelled name) (cols df) = [c] -> series e df name = Ok (snd c).
Proof. unfold series. now intros ->. Qed.

End NormalizerFacts.

Lemma coerce_amount_number (to_numeric : string -> option Q) (v : value) :
  exists q, coerce_amount to_numeric v = VNum q.
Proof.
  destruct v as [s|q|d|]; simpl; eauto.
  destruct (to_numeric _); eauto.
Qed.

(** ** Where the normaliser raises *)

Lemma total_rows_app (a b : list frame) :
  total_rows (a ++ b) = total_rows a + total_rows b.
Proof.
  unfold total_rows. induction a as [|d a IH]; simpl; [reflexivity|].
  rewrite IH. lia.
Qed.

Lemma page_frame_rows (p : page) (fs : list frame) :
  page_frame p = Some fs ->
  total_rows fs = match p with Some (_ :: data) => length data | _ => 0 end.
Proof.
  unfold page_frame. destruct p as [[|header data]|].
  - intros H. injection H as <-. reflexivity.
  - destruct (DataFrame data header) as [df|] eqn:Ed; [|discriminate].
    intros H. injection H as <-. unfold total_rows. simpl.
    unfold DataFrame in Ed. destruct data as [|r data].
    + injection Ed as <-. reflexivity.
    + destruct (list_max_len (r :: data) =? length header); [|discriminate].
      injection Ed as <-. simpl. lia.
  - intros H. injection H as <-. reflexivity.
Qed.

Lemma collect_pages_rows (ps : list page) (all_data : list frame) :
  collect_pages ps = Some all_data -> total_rows all_data = input_rows ps.
Proof.
  revert all_data. induction ps as [|p ps IH]; intros all_data; simpl.
  - intros H. injection H as <-. reflexivity.
  - destruct (page_frame p) as [fs|] eqn:Ep; [|discriminate].
    destruct (collect_pages ps) as [rest|]; [|discriminate].
    intros H. injection H as <-.
    rewrite total_rows_app, (IH rest eq_refl), (page_frame_rows _ Ep).
    reflexivity.
Qed.

Lemma pd_concat_rows (dfs : list frame) (df : frame) :
  pd_concat dfs = Ok df -> nrows df = total_rows dfs.
Proof.
  unfold pd_concat. destruct dfs as [|d rest]; [discriminate|].
  destruct (forallb _ rest).
  - intros H. injection H as <-. reflexivity.
  - destruct (forallb _ (d :: rest)); [|discriminate].
    intros H. injection H as <-. reflexivity.
Qed.

(** What [process_pdf_data] returns never holds more rows than the pages
    did, and holds all of them when some role has a column. *)
Lemma process_pdf_data_rows (to_numeric : string -> option Q)
  (to_datetime : string -> option date) (ps : list page) (out : frame) :
  process_pdf_data to_numeric to_datetime (Pages ps) = Ok (Some out) ->
  nrows out <= input_rows ps /\
  (cols out <> [] -> nrows out = input_rows ps).
Proof.
  unfold process_pdf_data.
  destruct (collect_pages ps) as [[|d rest]|] eqn:Ec; try discriminate.
  - intros H. injection H as <-. simpl. split; [lia|congruence].
  - destruct (pd_concat (d :: rest)) as [df|] eqn:Ep; [|discriminate].
    simpl. destruct (normalize to_numeric to_datetime df) as [o|] eqn:En;
      [|discriminate].
    simpl. intros H. injection H as <-.
    apply pd_concat_rows in Ep. apply collect_pages_rows in Ec.
    destruct (@normalize_inv to_numeric to_datetime df o En) as [[_ ->]|[_ ->]];
      simpl; split; try lia; congruence.
Qed.

(** C2 (the code at the failing input): a header whose single label
    contains both [debit] and [credit] is bound to two roles, the
    projection holds the column twice under the name [Credit], and the
    coercion of [Credit] raises outside the [try] block. *)
Theorem process_pdf_data_shared_column_raises (to_numeric : string -> option Q)
  (to_datetime : string -> option date) :
  process_pdf_data to_numeric to_datetime shared_column_pdf = Raise AttributeError.
Proof. reflexivity. Qed.

(** ** Where a summary raises *)

(** C6 (the code at the failing input): on a store with [Date] and
    [Debit] but no [Credit] column, as the normaliser returns for a
    statement without a credit column, both period summaries raise
    [KeyError] instead of returning an empty result. *)
Theorem period_summary_missing_column_raises
  (group_sum : string -> list (option Q) -> Q) :
  process_pdf_data Parse.decimal Parse.mdy debit_only_pdf = Ok (Some debit_only_store) /\
  is_empty debit_only_store = false /\
  has_column "Credit" debit_only_store = false /\
  get_monthly_summary group_sum debit_only_store = Raise KeyError /\
  get_weekly_summary group_sum debit_only_store = Raise KeyError.
Proof. repeat split; vm_compute; reflexivity. Qed.

(** ** Ranking by reference *)

Lemma slt_irrefl (k : string) : ~ slt k k.
Proof. apply (StrictOrder_Irreflexive (R := slt)). Qed.

Lemma slt_trans (a b c : string) : slt a b -> slt b c -> slt a c.
Proof. apply (StrictOrder_Transitive (R := slt)). Qed.

Lemma insert_desc_In (x z : string * Q) (s : ranked) :
  In z (insert_desc x s) <-> z = x \/ In z s.
Proof.
  induction s as [|y s IH]; simpl.
  - intuition.
  - destruct (Qgtb (snd y) (snd x)); simpl; [rewrite IH|]; intuition.
Qed.

Lemma sort_desc_In (z : string * Q) (s : ranked) :
  In z (sort_desc s) <-> In z s.
Proof.
  induction s as [|x s IH]; simpl; [reflexivity|].
  rewrite insert_desc_In, IH. intuition.
Qed.

Lemma desc_then_key_le (a b : string * Q) :
  desc_then_key a b -> (snd b <= snd a)%Q.
Proof.
  intros [H|[H _]]; [now apply Qlt_le_weak|]. rewrite H. apply Qle_refl.
Qed.

Lemma desc_then_key_intro (x z : string * Q) :
  (snd z <= snd x)%Q -> slt (fst x) (fst z) -> desc_then_key x z.
Proof.
  intros Hle Hk. destruct (Qlt_le_dec (snd z) (snd x)) as [Hlt|Hge].
  - now left.
  - right. split; [now apply Qle_antisym|assumption].
Qed.

Lemma insert_desc_sorted (x : string * Q) (s : ranked) :
  StronglySorted desc_then_key s ->
  (forall z, In z s -> slt (fst x) (fst z)) ->
  StronglySorted desc_then_key (insert_desc x s).
Proof.
  induction s as [|y s IH]; simpl; intros Hs Hk.
  - repeat constructor.
  - inversion Hs as [|? ? Hs' Hall]; subst.
    rewrite Forall_forall in Hall.
    destruct (Qgtb (snd y) (snd x)) eqn:E.
    + apply Qgtb_true_iff in E.
      constructor; [apply IH; auto|].
      apply Forall_forall. intros z Hz. apply insert_desc_In in Hz.
      destruct Hz as [->|Hz]; [now left|now apply Hall].
    + apply Qgtb_false_iff in E.
      constructor; [assumption|].
      apply Forall_forall. intros z [<-|Hz].
      * apply desc_then_key_intro; [assumption|]. apply Hk. now left.
      * apply desc_then_key_intro; [|apply Hk; now right].
        eapply Qle_trans; [|exact E]. apply desc_then_key_le. now apply Hall.
Qed.

Lemma sort_desc_sorted (s : ranked) :
  StronglySorted slt (map fst s) ->
  StronglySorted desc_then_key (sort_desc s).
Proof.
  induction s as [|x s IH]; simpl; intros Hs.
  - constructor.
  - inversion Hs as [|? ? Hs' Hall]; subst.
    apply insert_desc_sorted; [now apply IH|].
    intros z Hz. apply (proj1 (sort_desc_In z s)) in Hz.
    rewrite Forall_forall in Hall. apply Hall. apply (in_map fst). exact Hz.
Qed.

Lemma StronglySorted_filter (A : Type) (R : A -> A -> Prop) (p : A -> bool)
  (l : list A) :
  StronglySorted R l -> StronglySorted R (filter p l).
Proof.
  induction l as [|a l IH]; simpl; intros Hs; [constructor|].
  inversion Hs as [|? ? Hs' Hall]; subst.
  destruct (p a); [|now apply IH].
  constructor; [now apply IH|].
  rewrite Forall_forall in *. intros z Hz. apply filter_In in Hz. now apply Hall.
Qed.

Lemma firstn_incl (A : Type) (n : nat) (l : list A) (x : A) :
  In x (firstn n l) -> In x l.
Proof.
  revert n. induction l as [|a l IH]; intros n Hx.
  - now rewrite firstn_nil in Hx.
  - destruct n as [|n]; [contradiction|].
    simpl in Hx. destruct Hx as [->|Hx]; [now left|right; eauto].
Qed.

Lemma StronglySorted_firstn (A : Type) (R : A -> A -> Prop) (n : nat) (l : list A) :
  StronglySorted R l -> StronglySorted R (firstn n l).
Proof.
  revert n. induction l as [|a l IH]; intros n Hs.
  - rewrite firstn_nil. constructor.
  - destruct n as [|n]; simpl; [constructor|].
    inversion Hs as [|? ? Hs' Hall]; subst.
    constructor; [now apply IH|].
    rewrite Forall_forall in *. intros z Hz.
    apply Hall. now apply firstn_incl in Hz.
Qed.

(** Taking the positive entries commutes with taking the first [n] of a
    list in descending order. *)
Lemma positive_firstn (n : nat) (l : ranked) :
  StronglySorted desc_then_key l ->
  positive (firstn n l) = firstn n (positive l).
Proof.
  revert n. induction l as [|a l IH]; intros n Hs.
  - now rewrite !firstn_nil.
  - inversion Hs as [|? ? Hs' Hall]; subst.
    destruct (Qgtb (snd a) 0) eqn:E.
    + destruct n as [|n]; [reflexivity|].
      simpl. rewrite E. simpl. now rewrite IH.
    + assert (Hnone : forall m, positive (firstn m l) = []).
      { intros m. apply filter_none. intros z Hz.
        apply Qgtb_false_iff. apply Qgtb_false_iff in E.
        eapply Qle_trans; [|exact E]. apply desc_then_key_le.
        rewrite Forall_forall in Hall. apply Hall.
        now apply firstn_incl in Hz. }
      assert (Hl : positive l = []).
      { rewrite <- (firstn_all l). apply Hnone. }
      destruct n as [|n]; [reflexivity|].
      cbn [firstn positive filter]. rewrite E.
      fold (positive (firstn n l)). fold (positive l).
      rewrite Hl, Hnone. reflexivity.
Qed.

(** ** The free-text branch *)

Lemma append_nil_r (s : string) : (s ++ "")%string = s.
Proof. induction s as [|c s IH]; simpl; [reflexivity|now rewrite IH]. Qed.

Lemma append_assoc (a b c : string) :
  ((a ++ b) ++ c)%string = (a ++ (b ++ c))%string.
Proof. induction a as [|x a IH]; simpl; [reflexivity|now rewrite IH]. Qed.

Lemma prefix_nil (s : string) : prefix "" s = true.
Proof. now destruct s. Qed.

Lemma prefix_on_iff (s : string) :
  prefix "on" s = true <-> exists rest, s = String "o" (String "n" rest).
Proof.
  split.
  - intros H. destruct s as [|a [|b rest]]; cbn [prefix] in H; try discriminate.
    + destruct (ascii_dec "o" a); discriminate H.
    + destruct (ascii_dec "o" a) as [<-|]; [|discriminate].
      destruct (ascii_dec "n" b) as [<-|]; [|discriminate].
      eauto.
  - intros [rest ->]. cbn [prefix].
    destruct (ascii_dec "o" "o"); [|congruence].
    destruct (ascii_dec "n" "n"); [|congruence].
    apply prefix_nil.
Qed.

Lemma split_go_match (cur rest : string) :
  Str.split_go "on" 0 cur (String "o" (String "n" rest))
  = Str.rev cur :: Str.split_go "on" 0 "" rest.
Proof.
  cbn [Str.split_go].
  assert (E : prefix "on" (String "o" (String "n" rest)) = true)
    by (apply prefix_on_iff; eauto).
  rewrite E. reflexivity.
Qed.

Lemma split_go_pass (cur : string) (c : ascii) (s : string) :
  prefix "on" (String c s) = false ->
  Str.split_go "on" 0 cur (String c s) = Str.split_go "on" 0 (String c cur) s.
Proof.
  intros E. cbn [Str.split_go]. now rewrite E.
Qed.

(** Without an occurrence of the separator the text is one piece. *)
Lemma split_go_whole (s : string) :
  forall cur,
    Str.contains "on" s = false ->
    Str.split_go "on" 0 cur s = [(Str.rev cur ++ s)%string].
Proof.
  induction s as [|c s IH]; intros cur H.
  - simpl. now rewrite append_nil_r.
  - cbn [Str.contains] in H. apply orb_false_iff in H. destruct H as [Hp Hc].
    rewrite (@split_go_pass cur _ _ Hp), (IH _ Hc). simpl.
    now rewrite append_assoc.
Qed.

(** The last piece is the text after the last occurrence. *)
Lemma split_go_last (post : string) (n : nat) :
  Str.contains "on" post = false ->
  forall pre cur,
    String.length pre <= n ->
    exists parts,
      Str.split_go "on" 0 cur (pre ++ "on" ++ post) = parts ++ [post] /\
      parts <> [].
Proof.
  intros Hpost. induction n as [|n IH]; intros pre cur Hlen.
  - destruct pre; [|simpl in Hlen; lia].
    change ("" ++ "on" ++ post)%string with (String "o" (String "n" post)).
    rewrite split_go_match, (@split_go_whole _ _ Hpost). simpl.
    exists [Str.rev cur]. split; [reflexivity|discriminate].
  - destruct pre as [|c pre].
    + apply IH. simpl. lia.
    + change (String c pre ++ "on" ++ post)%string
        with (String c (pre ++ "on" ++ post)%string).
      destruct (prefix "on" (String c (pre ++ "on" ++ post))) eqn:E.
      * apply prefix_on_iff in E. destruct E as [rest Hr].
        injection Hr as -> Hr.
        destruct pre as [|d pre]; [discriminate|].
        simpl in Hr. injection Hr as -> <-.
        change (String "o" (String "n" pre ++ "on" ++ post))%string
          with (String "o" (String "n" (pre ++ "on" ++ post)%string)).
        rewrite split_go_match.
        destruct (IH pre ""%string) as [parts [Hp Hne]]; [simpl in Hlen; lia|].
        exists (Str.rev cur :: parts). rewrite Hp. split; [reflexivity|discriminate].
      * rewrite (@split_go_pass cur _ _ E).
        apply IH. simpl in Hlen. lia.
Qed.

Lemma last_app_singleton (A : Type) (parts : list A) (x d : A) :
  last (parts ++ [x]) d = x.
Proof.
  induction parts as [|a parts IH]; simpl; [reflexivity|].
  destruct (parts ++ [x]) eqn:E; [now destruct parts|exact IH].
Qed.

Lemma split_on_last (pre post : string) :
  Str.contains "on" post = false ->
  last (Str.split "on" (pre ++ "on" ++ post)) "" = post /\
  (1 <? length (Str.split "on" (pre ++ "on" ++ post))) = true.
Proof.
  intros Hpost. unfold Str.split.
  destruct (@split_go_last post (String.length pre) Hpost pre ""%string (le_n _))
    as [parts [-> Hne]].
  split; [apply last_app_singleton|].
  apply Nat.ltb_lt. rewrite length_app. simpl.
  destruct parts; [congruence|simpl; lia].
Qed.

(** A text that holds the separator splits at its last occurrence. *)
Lemma contains_on_last (q : string) :
  Str.contains "on" q = true ->
  exists pre post,
    q = (pre ++ "on" ++ post)%string /\ Str.contains "on" post = false.
Proof.
  induction q as [|c q IH]; intros H.
  - discriminate.
  - cbn [Str.contains] in H.
    destruct (Str.contains "on" q) eqn:Eq.
    + destruct (IH eq_refl) as [pre [post [-> Hpost]]].
      exists (String c pre), post. split; [reflexivity|assumption].
    + rewrite orb_false_r in H. apply prefix_on_iff in H.
      destruct H as [rest Hr]. injection Hr as -> ->.
      exists ""%string, rest. split; [reflexivity|].
      cbn [Str.contains] in Eq. apply orb_false_iff in Eq. apply Eq.
Qed.

Lemma filter_labelled_masked (name : string) (mask : list bool) (cs : list column) :
  filter (labelled name) (map (fun c => (fst c, mask_list mask (snd c))) cs)
  = map (fun c => (fst c, mask_list mask (snd c))) (filter (labelled name) cs).
Proof.
  induction cs as [|c cs IH]; simpl; [reflexivity|].
  change (labelled name (fst c, mask_list mask (snd c))) with (labelled name c).
  destruct (labelled name c); simpl; now rewrite IH.
Qed.

Lemma series_select_rows (e : exn) (mask : list bool) (df : frame) (name : string)
  (vals : list value) :
  series e df name = Ok vals ->
  series e (select_rows mask df) name = Ok (mask_list mask vals).
Proof.
  intros H. destruct (series_inv _ _ _ H) as [c [Hc <-]].
  unfold series, select_rows, masked. simpl. now rewrite filter_labelled_masked, Hc.
Qed.

Lemma has_column_select_rows (mask : list bool) (df : frame) (name : string) :
  has_column name (select_rows mask df) = has_column name df.
Proof.
  unfold has_column, columns, select_rows, masked. simpl. now rewrite map_map.
Qed.

Lemma traverse_number_masked (vals : list value) :
  forall mask ns,
    traverse number vals = Ok ns ->
    traverse number (mask_list mask vals) = Ok (mask_list mask ns).
Proof.
  induction vals as [|v vals IH]; intros mask ns H; simpl in H.
  - injection H as <-. now destruct mask.
  - destruct (number v) as [qv|] eqn:Ev; [|discriminate]. simpl in H.
    destruct (traverse number vals) as [qs|] eqn:Et; [|discriminate].
    simpl in H. injection H as <-.
    destruct mask as [|b mask]; [reflexivity|].
    destruct b; simpl.
    + rewrite Ev. simpl. now rewrite (IH mask qs eq_refl).
    + now apply IH.
Qed.

Section QueryFacts.

Variable re_search : string -> option (string -> bool).
Variable lower : string -> string.

Lemma search_reference_plain (df : frame) (term : string) (refs : list value) :
  regex_plain (lower term) = true ->
  series AttributeError df "Reference" = Ok refs ->
  search_reference re_search lower df term
  = Ok (select_rows (map (reference_matches lower term) refs) df).
Proof.
  intros Hp Hs. unfold search_reference, str_contains.
  rewrite (series_has_column _ _ _ Hs), Hs. simpl. rewrite Hp. reflexivity.
Qed.

End QueryFacts.

(** * Further properties of the normaliser *)

Unset Implicit Arguments.

(** ** Rectangular frames of raw cells *)

Lemma frame_ok_columns (df : frame) :
  frame_ok df <->
  forall c, In c (cols df) ->
            length (snd c) = nrows df /\ forallb is_raw (snd c) = true.
Proof.
  unfold frame_ok, well_formed, raw_frame. rewrite !forallb_forall. split.
  - intros [Hw Hr] c Hc. split; [apply Nat.eqb_eq, Hw, Hc|apply Hr, Hc].
  - intros H. split; intros c Hc; destruct (H c Hc) as [Hl Hr];
      [now apply Nat.eqb_eq|assumption].
Qed.

Lemma cell_at_raw (r : list string) (j : nat) : is_raw (cell_at r j) = true.
Proof. unfold cell_at. now destruct (nth_error r j). Qed.

Lemma DataFrame_ok (data : list (list string)) (header : list string) (df : frame) :
  DataFrame data header = Some df -> frame_ok df.
Proof.
  unfold DataFrame. intros H. apply frame_ok_columns.
  destruct data as [|r data].
  - injection H as <-. simpl. intros c Hc. apply in_map_iff in Hc.
    destruct Hc as [h [<- _]]. auto.
  - destruct (list_max_len (r :: data) =? length header); [|discriminate].
    injection H as <-. cbn [cols nrows]. intros c Hc. apply in_map_iff in Hc.
    destruct Hc as [jh [<- _]]. cbn [snd]. split.
    + simpl. now rewrite length_map.
    + apply forallb_forall. intros v Hv.
      change (In v (map (fun r0 => cell_at r0 (fst jh)) (r :: data))) in Hv.
      apply in_map_iff in Hv.
      destruct Hv as [row [<- _]]. apply cell_at_raw.
Qed.

Lemma page_frame_ok (p : page) (fs : list frame) :
  page_frame p = Some fs -> Forall frame_ok fs.
Proof.
  unfold page_frame. destruct p as [[|header data]|].
  - intros H. injection H as <-. constructor.
  - destruct (DataFrame data header) as [df|] eqn:Ed; [|discriminate].
    intros H. injection H as <-. constructor; [|constructor].
    apply DataFrame_ok in Ed. rewrite frame_ok_columns in Ed.
    apply frame_ok_columns. cbn [cols nrows]. intros c Hc.
    destruct c as [l d]. apply in_combine_r in Hc. apply in_map_iff in Hc.
    destruct Hc as [c0 [<- Hc0]]. cbn [snd]. apply Ed, Hc0.
  - intros H. injection H as <-. constructor.
Qed.

Lemma collect_pages_ok (ps : list page) (fs : list frame) :
  collect_pages ps = Some fs -> Forall frame_ok fs.
Proof.
  revert fs. induction ps as [|p ps IH]; intros fs; simpl.
  - intros H. injection H as <-. constructor.
  - destruct (page_frame p) as [f|] eqn:Ep; [|discriminate].
    destruct (collect_pages ps) as [rest|]; [|discriminate].
    intros H. injection H as <-. apply Forall_app. split.
    + now apply (page_frame_ok p).
    + now apply IH.
Qed.

Lemma flat_map_length_rows (g : frame -> list value) (dfs : list frame) :
  (forall f, In f dfs -> length (g f) = nrows f) ->
  length (flat_map g dfs) = total_rows dfs.
Proof.
  unfold total_rows. induction dfs as [|d dfs IH]; intros H; simpl; [reflexivity|].
  rewrite length_app, (H d) by now left.
  rewrite IH; [reflexivity|]. intros f Hf. apply H. now right.
Qed.

Lemma flat_map_raw (g : frame -> list value) (dfs : list frame) :
  (forall f, In f dfs -> forallb is_raw (g f) = true) ->
  forallb is_raw (flat_map g dfs) = true.
Proof.
  induction dfs as [|d dfs IH]; intros H; simpl; [reflexivity|].
  rewrite forallb_app, (H d) by now left.
  apply IH. intros f Hf. apply H. now right.
Qed.

Lemma labels_eqb_length (a b : list string) :
  labels_eqb a b = true -> length a = length b.
Proof.
  unfold labels_eqb. intros H. apply andb_true_iff in H.
  now apply Nat.eqb_eq.
Qed.

Lemma pd_concat_ok (dfs : list frame) (df : frame) :
  Forall frame_ok dfs -> pd_concat dfs = Ok df -> frame_ok df.
Proof.
  intros Hall. rewrite Forall_forall in Hall.
  unfold pd_concat. destruct dfs as [|d rest]; [discriminate|].
  destruct (forallb (fun f => labels_eqb (columns d) (columns f)) rest) eqn:Eq.
  - intros H. injection H as <-. apply frame_ok_columns. cbn [cols nrows].
    intros c Hc. apply in_map_iff in Hc. destruct Hc as [[j c0] [<- Hjc]].
    cbn [fst snd].
    assert (Hj : j < length (cols d)).
    { apply in_combine_l in Hjc. apply in_seq in Hjc. exact (proj2 Hjc). }
    assert (Hcol : forall f, In f (d :: rest) ->
                     In (nth j (cols f) (""%string, [])) (cols f)).
    { intros f Hf. apply nth_In. destruct Hf as [<-|Hf]; [assumption|].
      rewrite forallb_forall in Eq. specialize (Eq f Hf).
      apply labels_eqb_length in Eq. unfold columns in Eq.
      rewrite !length_map in Eq.
      exact (eq_ind _ (fun n => j < n) Hj _ Eq). }
    split.
    + apply (flat_map_length_rows
               (fun f => snd (nth j (cols f) (""%string, []))) (d :: rest)).
      intros f Hf.
      apply (proj1 (frame_ok_columns f) (Hall f Hf)). now apply Hcol.
    + apply (flat_map_raw
               (fun f => snd (nth j (cols f) (""%string, []))) (d :: rest)).
      intros f Hf.
      apply (proj1 (frame_ok_columns f) (Hall f Hf)). now apply Hcol.
  - destruct (forallb (fun f => nodupb (columns f)) (d :: rest)); [|discriminate].
    intros H. injection H as <-. apply frame_ok_columns. cbn [cols nrows].
    intros c Hc. apply in_map_iff in Hc. destruct Hc as [name [<- _]].
    cbn [snd].
    assert (Hcm : forall f, In f (d :: rest) ->
                    length (column_or_missing name f) = nrows f /\
                    forallb is_raw (column_or_missing name f) = true).
    { intros f Hf. unfold column_or_missing.
      destruct (find (labelled name) (cols f)) as [c|] eqn:Ef.
      - apply find_some in Ef. destruct Ef as [Hin _].
        now apply (proj1 (frame_ok_columns f) (Hall f Hf)).
      - split; [apply repeat_length|].
        apply forallb_forall. intros v Hv. apply repeat_spec in Hv. now subst. }
    split.
    + apply (flat_map_length_rows (column_or_missing name) (d :: rest)).
      intros f Hf. now apply Hcm.
    + apply (flat_map_raw (column_or_missing name) (d :: rest)).
      intros f Hf. now apply Hcm.
Qed.

Lemma projected_columns (df : frame) (c : column) :
  In c (cols (projected df)) ->
  exists k c0,
    In k (keep_cols df) /\ In c0 (cols df) /\ fst c0 = k /\
    c = (rename_label (rename_map df) k, snd c0).
Proof.
  unfold projected, rename. cbn [cols]. intros Hc.
  apply in_map_iff in Hc. destruct Hc as [c0 [<- Hc0]].
  apply in_flat_map in Hc0. destruct Hc0 as [k [Hk Hc0]].
  apply filter_In in Hc0. destruct Hc0 as [Hin Hl].
  apply labelled_iff in Hl. exists k, c0. now rewrite Hl.
Qed.

Lemma rename_map_canonical (df : frame) (k : string) :
  In k (keep_cols df) ->
  exists r, rename_label (rename_map df) k = role_name r.
Proof.
  unfold keep_cols, rename_map, rename_label, dict_get, bind_role,
    keep_if_truthy, dict_set.
  generalize (date_col df) (debit_col df) (credit_col df) (ref_col df).
  intros a b c d Hin.
  destruct a as [a|], b as [b|], c as [c|], d as [d|]; simpl in Hin |- *;
    repeat match type of Hin with
           | context [String.eqb ?x ""] => destruct (String.eqb x ""); simpl in Hin |- *
           end;
    repeat match goal with
           | |- context [String.eqb ?x ?y] =>
               destruct (String.eqb_spec x y); simpl; subst
           end;
    try (exists Date; reflexivity); try (exists Debit; reflexivity);
    try (exists Credit; reflexivity); try (exists Reference; reflexivity);
    intuition (subst; try congruence).
Qed.

Lemma normalize_shape (to_numeric : string -> option Q)
  (to_datetime : string -> option date) (df out : frame) :
  normalize to_numeric to_datetime df = Ok out ->
  out = empty_frame \/
  (nrows out = nrows df /\
   forall c, In c (cols out) ->
     exists k c0 r,
       In k (keep_cols df) /\ In c0 (cols df) /\ fst c0 = k /\
       rename_label (rename_map df) k = role_name r /\
       c = (role_name r, map (role_coercion to_numeric to_datetime r) (snd c0))).
Proof.
  intros H. destruct (@normalize_inv to_numeric to_datetime df out H)
    as [[_ ->]|[_ ->]]; [now left|right].
  split; [reflexivity|].
  unfold map_column. cbn [cols nrows]. intros c Hc.
  apply in_map_iff in Hc. destruct Hc as [c3 [<- Hc]].
  apply in_map_iff in Hc. destruct Hc as [c2 [<- Hc]].
  apply in_map_iff in Hc. destruct Hc as [c1 [<- Hc]].
  apply projected_columns in Hc. destruct Hc as [k [c0 [Hk [Hc0 [Hf ->]]]]].
  destruct (rename_map_canonical df k Hk) as [r Hr].
  exists k, c0, r. repeat (split; [assumption|]).
  rewrite Hr. destruct r; cbn; try reflexivity.
  now rewrite map_id.
Qed.

(** ** What a returned store looks like *)

(** Every frame [process_pdf_data] returns is rectangular: each of its
    columns holds exactly one cell per row. *)
Theorem process_pdf_data_well_formed (to_numeric : string -> option Q)
  (to_datetime : string -> option date) (file : pdf) (out : frame) :
  process_pdf_data to_numeric to_datetime file = Ok (Some out) ->
  well_formed out = true.
Proof.
  unfold process_pdf_data. destruct file as [| |ps]; try discriminate.
  destruct (collect_pages ps) as [[|d rest]|] eqn:Ec; try discriminate.
  - intros H. injection H as <-. reflexivity.
  - destruct (pd_concat (d :: rest)) as [df|] eqn:Ep; [|discriminate].
    cbn [bind].
    destruct (normalize to_numeric to_datetime df) as [o|] eqn:En; [|discriminate].
    cbn [bind]. intros H. injection H as <-.
    apply collect_pages_ok in Ec.
    pose proof (pd_concat_ok _ _ Ec Ep) as Hok.
    rewrite frame_ok_columns in Hok.
    destruct (normalize_shape _ _ _ _ En) as [->|[Hn Hcols]]; [reflexivity|].
    unfold well_formed. apply forallb_forall. intros c Hc.
    destruct (Hcols c Hc) as [k [c0 [r [_ [Hc0 [_ [_ ->]]]]]]].
    cbn [snd]. rewrite length_map, Hn. apply Nat.eqb_eq. now apply Hok.
Qed.

Lemma process_pdf_data_well_formed_witness :
  well_formed
    (mkFrame [("Date", [VDate (mkDate 2024 1 1 0)]); ("Debit", [VNum (2401 # 2)]);
              ("Credit", [VNum 0]); ("Reference", [VStr "Coffee Shop"])] 1)
  = true.
Proof.
  apply (process_pdf_data_well_formed Parse.decimal Parse.mdy sample_pdf).
  reflexivity.
Defined.

Lemma coerce_date_cell (to_datetime : string -> option date) (v : value) :
  is_date_cell (coerce_date to_datetime v) = true.
Proof.
  destruct v as [s|q|d|]; simpl; try reflexivity.
  now destruct (to_datetime s).
Qed.

Lemma coerce_amount_is_number (to_numeric : string -> option Q) (v : value) :
  is_number (coerce_amount to_numeric v) = true.
Proof.
  destruct v as [s|q|d|]; simpl; try reflexivity.
  now destruct (to_numeric _).
Qed.

(** Every column of a frame [process_pdf_data] returns carries one of
    the four canonical names, and its cells are of the column's kind:
    numbers under [Debit] and [Credit], dates or missing cells under
    [Date], the extracted text or missing cells under [Reference]. *)
Theorem process_pdf_data_typed (to_numeric : string -> option Q)
  (to_datetime : string -> option date) (file : pdf) (out : frame) :
  process_pdf_data to_numeric to_datetime file = Ok (Some out) ->
  forallb typed_column (cols out) = true.
Proof.
  unfold process_pdf_data. destruct file as [| |ps]; try discriminate.
  destruct (collect_pages ps) as [[|d rest]|] eqn:Ec; try discriminate.
  - intros H. injection H as <-. reflexivity.
  - destruct (pd_concat (d :: rest)) as [df|] eqn:Ep; [|discriminate].
    cbn [bind].
    destruct (normalize to_numeric to_datetime df) as [o|] eqn:En; [|discriminate].
    cbn [bind]. intros H. injection H as <-.
    apply collect_pages_ok in Ec.
    pose proof (pd_concat_ok _ _ Ec Ep) as Hok.
    rewrite frame_ok_columns in Hok.
    destruct (normalize_shape _ _ _ _ En) as [->|[Hn Hcols]]; [reflexivity|].
    apply forallb_forall. intros c Hc.
    destruct (Hcols c Hc) as [k [c0 [r [_ [Hc0 [_ [_ ->]]]]]]].
    destruct (Hok c0 Hc0) as [_ Hraw].
    destruct r; unfold typed_column; cbn.
    + apply forallb_forall. intros v Hv. apply in_map_iff in Hv.
      destruct Hv as [w [<- _]]. apply coerce_date_cell.
    + apply forallb_forall. intros v Hv. apply in_map_iff in Hv.
      destruct Hv as [w [<- _]]. apply coerce_amount_is_number.
    + apply forallb_forall. intros v Hv. apply in_map_iff in Hv.
      destruct Hv as [w [<- _]]. apply coerce_amount_is_number.
    + now rewrite map_id.
Qed.

Lemma process_pdf_data_typed_witness :
  forallb typed_column
    [("Date", [VDate (mkDate 2024 1 1 0)]); ("Debit", [VNum (2401 # 2)]);
     ("Credit", [VNum 0]); ("Reference", [VStr "Coffee Shop"])]
  = true.
Proof.
  apply (process_pdf_data_typed Parse.decimal Parse.mdy sample_pdf
           (mkFrame [("Date", [VDate (mkDate 2024 1 1 0)]); ("Debit", [VNum (2401 # 2)]);
                     ("Credit", [VNum 0]); ("Reference", [VStr "Coffee Shop"])] 1)).
  reflexivity.
Defined.

Lemma process_pdf_data_rows_witness :
  1 <= input_rows [Some [["Txn Date"; "Debit Amt"; "Credit Amt"; "Particulars"];
                         ["01/01/2024"; "1,200.50"; "0"; "Coffee Shop"]]].
Proof.
  apply (proj1 (@process_pdf_data_rows Parse.decimal Parse.mdy
                  [Some [["Txn Date"; "Debit Amt"; "Credit Amt"; "Particulars"];
                         ["01/01/2024"; "1,200.50"; "0"; "Coffee Shop"]]]
                  (mkFrame [("Date", [VDate (mkDate 2024 1 1 0)]);
                            ("Debit", [VNum (2401 # 2)]);
                            ("Credit", [VNum 0]);
                            ("Reference", [VStr "Coffee Shop"])] 1)
                  eq_refl)).
Defined.

(** ** When the normaliser returns *)

Lemma role_col_nonempty (r : role) (df : frame) (c : string) :
  role_col r df = Some c -> String.eqb c "" = false.
Proof.
  intros H. apply String.eqb_neq. intros ->.
  destruct r; apply find_some in H; destruct H as [_ H];
    vm_compute in H; discriminate.
Qed.

Lemma unique_column (df : frame) (k : string) :
  NoDup (columns df) ->
  has_column k df = true ->
  exists c, filter (labelled k) (cols df) = [c] /\ fst c = k.
Proof.
  unfold has_column, columns. induction (cols df) as [|c cs IH]; simpl.
  - discriminate.
  - intros Hnd Hhas. inversion Hnd as [|? ? Hnot Hnd']; subst.
    unfold labelled at 1. destruct (String.eqb_spec (fst c) k) as [E|E].
    + exists c. split; [|assumption]. f_equal.
      apply filter_none. intros x Hx.
      destruct (labelled k x) eqn:El; [|reflexivity].
      apply labelled_iff in El. exfalso. apply Hnot.
      rewrite E, <- El. now apply in_map.
    + apply IH; [assumption|].
      apply orb_true_iff in Hhas. destruct Hhas as [Hh|Hh]; [|assumption].
      apply String.eqb_eq in Hh. congruence.
Qed.

Lemma columns_map_column (name : string) (f : value -> value) (df : frame) :
  columns (map_column name f df) = columns df.
Proof.
  unfold columns, map_column. cbn [cols]. rewrite map_map.
  apply map_ext. intros c. now destruct (labelled name c).
Qed.

Lemma assign_series_unique (e : exn) (name : string) (f : value -> value)
  (df : frame) :
  NoDup (columns df) ->
  assign_series e name f df = Ok (map_column name f df).
Proof.
  intros Hnd. unfold assign_series.
  destruct (has_column name df) eqn:Hh.
  - destruct (unique_column df name Hnd Hh) as [c [Hc _]].
    unfold series. now rewrite Hc.
  - now rewrite map_column_absent.
Qed.

Lemma NoDup_present_roles (df : frame) : NoDup (present_roles df).
Proof.
  unfold present_roles. cbn [flat_map].
  destruct (role_col Date df), (role_col Debit df), (role_col Credit df),
    (role_col Reference df); cbn;
    repeat constructor; cbn; intuition discriminate.
Qed.

(** With pairwise different chosen labels every kept label is renamed
    to the name of its own role. *)
Lemma rename_keep_cols (df : frame) :
  NoDup (keep_cols df) ->
  map (rename_label (rename_map df)) (keep_cols df) = present_roles df.
Proof.
  unfold keep_cols, rename_map, present_roles, rename_label, dict_get,
    bind_role, keep_if_truthy, dict_set, truthy.
  cbn [flat_map role_name].
  pose proof (role_col_nonempty Date df) as Ha.
  pose proof (role_col_nonempty Debit df) as Hb.
  pose proof (role_col_nonempty Credit df) as Hc.
  pose proof (role_col_nonempty Reference df) as Hd.
  cbn [role_col] in *.
  destruct (date_col df) as [a|], (debit_col df) as [b|],
    (credit_col df) as [c|], (ref_col df) as [d|];
    try rewrite (Ha _ eq_refl); try rewrite (Hb _ eq_refl);
    try rewrite (Hc _ eq_refl); try rewrite (Hd _ eq_refl);
    cbn; intros Hnd;
    repeat match goal with
           | H : NoDup (_ :: _) |- _ =>
               let Hn := fresh "Hn" in
               inversion H as [|? ? Hn ?]; subst; clear H; cbn in Hn
           end;
    repeat (rewrite ?String.eqb_refl; cbn;
            match goal with
            | |- context [String.eqb ?x ?y] =>
                destruct (String.eqb_spec x y);
                [subst; exfalso; intuition congruence|]
            end);
    rewrite ?String.eqb_refl; reflexivity.
Qed.

Lemma select_unique (df : frame) (keys : list string) :
  NoDup (columns df) ->
  forallb (fun k => has_column k df) keys = true ->
  map fst (flat_map (fun k => filter (labelled k) (cols df)) keys) = keys.
Proof.
  intros Hnd. induction keys as [|k keys IH]; cbn [forallb flat_map]; intros H.
  - reflexivity.
  - apply andb_true_iff in H. destruct H as [Hk Hks].
    destruct (unique_column df k Hnd Hk) as [c [Hc Hf]].
    rewrite map_app, Hc. cbn [map app]. rewrite Hf.
    apply (f_equal (cons k)). exact (IH Hks).
Qed.

Lemma normalize_unique_labels (to_numeric : string -> option Q)
  (to_datetime : string -> option date) (df : frame) :
  NoDup (columns df) ->
  NoDup (keep_cols df) ->
  exists out,
    normalize to_numeric to_datetime df = Ok out /\
    columns out = present_roles df.
Proof.
  intros Hnd Hkeep.
  pose proof (rename_keep_cols df Hkeep) as Hren.
  unfold normalize. destruct (keep_cols df) as [|k ks] eqn:Ek.
  - exists empty_frame. split; [reflexivity|]. now rewrite <- Hren.
  - rewrite <- Ek in *. unfold select_columns. rewrite keep_cols_present.
    cbn [bind]. fold (projected df).
    assert (Hcols : columns (projected df) = present_roles df).
    { unfold projected, rename, columns. cbn [cols]. rewrite map_map.
      cbn [fst]. rewrite <- Hren, <- map_map.
      now rewrite (select_unique df (keep_cols df) Hnd (keep_cols_present df)). }
    assert (H1 : NoDup (columns (projected df)))
      by (rewrite Hcols; apply NoDup_present_roles).
    rewrite (assign_series_unique _ _ _ _ H1). cbn [bind].
    assert (H2 : NoDup (columns (map_column "Debit" (coerce_amount to_numeric)
                                   (projected df))))
      by now rewrite columns_map_column.
    rewrite (assign_series_unique _ _ _ _ H2). cbn [bind].
    assert (H3 : NoDup (columns (map_column "Credit" (coerce_amount to_numeric)
                                   (map_column "Debit" (coerce_amount to_numeric)
                                      (projected df)))))
      by now rewrite columns_map_column.
    rewrite (assign_series_unique _ _ _ _ H3).
    eexists. split; [reflexivity|].
    now rewrite !columns_map_column.
Qed.

(** On a table whose labels are pairwise different and in which no label
    is chosen by two roles, the normaliser returns a frame; its columns
    are the canonical names of the roles that found a column, in the
    order Date, Debit, Credit, Reference. *)
Theorem normalize_returns (to_numeric : string -> option Q)
  (to_datetime : string -> option date) (df : frame) :
  NoDup (columns df) ->
  NoDup (keep_cols df) ->
  exists out,
    normalize to_numeric to_datetime df = Ok out /\
    columns out = present_roles df.
Proof.
  exact (normalize_unique_labels to_numeric to_datetime df).
Qed.

Lemma normalize_returns_witness :
  exists out,
    normalize Parse.decimal Parse.mdy two_page_frame = Ok out /\
    columns out = ["Date"; "Reference"].
Proof.
  apply (normalize_returns Parse.decimal Parse.mdy two_page_frame).
  - cbv. repeat constructor; cbn; intuition discriminate.
  - cbv. repeat constructor; cbn; intuition discriminate.
Defined.

(** ** When the document is not read *)

Lemma page_frame_none (p : page) :
  page_frame p = None <-> ragged p = true.
Proof.
  unfold page_frame, ragged, DataFrame.
  destruct p as [[|header [|r data]]|]; try (split; discriminate).
  destruct (list_max_len (r :: data) =? length header); split;
    (discriminate || reflexivity).
Qed.

Lemma collect_pages_none (ps : list page) :
  collect_pages ps = None <-> existsb ragged ps = true.
Proof.
  induction ps as [|p ps IH]; cbn [collect_pages existsb].
  - split; discriminate.
  - destruct (page_frame p) as [fs|] eqn:Ep.
    + assert (Hr : ragged p = false).
      { destruct (ragged p) eqn:Er; [|reflexivity].
        apply page_frame_none in Er. congruence. }
      rewrite Hr. cbn [orb].
      destruct (collect_pages ps) as [rest|].
      * rewrite <- IH. split; discriminate.
      * rewrite <- IH. split; reflexivity.
    + rewrite (proj1 (page_frame_none p) Ep). split; reflexivity.
Qed.

(** [process_pdf_data] never returns [None].  A document that does not
    open, and a document with a page whose data rows differ in width
    (that of the longest row) from the page's header, end in an
    [AttributeError] that leaves the function; one such page loses the
    tables of all the others. *)
Theorem process_pdf_data_never_none (to_numeric : string -> option Q)
  (to_datetime : string -> option date) :
  (forall file, process_pdf_data to_numeric to_datetime file <> Ok None) /\
  process_pdf_data to_numeric to_datetime PasswordError = Raise AttributeError /\
  process_pdf_data to_numeric to_datetime Unreadable = Raise AttributeError /\
  (forall ps,
      existsb ragged ps = true ->
      process_pdf_data to_numeric to_datetime (Pages ps) = Raise AttributeError).
Proof.
  split; [|split; [reflexivity|split; [reflexivity|]]].
  - intros [| |ps]; cbn [process_pdf_data]; try discriminate.
    destruct (collect_pages ps) as [[|d rest]|]; try discriminate.
    destruct (pd_concat (d :: rest)) as [df|]; cbn [bind]; [|discriminate].
    destruct (normalize to_numeric to_datetime df); cbn [bind]; discriminate.
  - intros ps H. apply collect_pages_none in H.
    cbn [process_pdf_data]. now rewrite H.
Qed.

Lemma process_pdf_data_never_none_witness :
  process_pdf_data Parse.decimal Parse.mdy ragged_pdf = Raise AttributeError.
Proof.
  apply (proj2 (proj2 (proj2
           (process_pdf_data_never_none Parse.decimal Parse.mdy)))
           [Some [["Date"; "Debit"]; ["01/01/2024"; "5"]];
            Some [["Date"; "Debit"]; ["01/02/2024"; "7"; "x"]]]).
  reflexivity.
Defined.

(** * Further properties of the filters *)

Lemma mask_list_length (A : Type) (mask : list bool) (l : list A) :
  length l = length mask ->
  length (mask_list mask l) = count_true mask.
Proof.
  unfold count_true. revert l. induction mask as [|b mask IH]; intros l H.
  - now destruct l.
  - destruct l as [|x l]; [discriminate|]. injection H as H.
    destruct b; simpl; rewrite (IH l H); reflexivity.
Qed.

Lemma select_rows_well_formed (mask : list bool) (df : frame) :
  well_formed df = true ->
  length mask = nrows df ->
  well_formed (select_rows mask df) = true.
Proof.
  intros Hwf Hm. pose proof (well_formed_lengths df Hwf) as Hl.
  rewrite Forall_forall in Hl.
  unfold well_formed, select_rows, masked. cbn [cols nrows].
  apply forallb_forall. intros c Hc. apply in_map_iff in Hc.
  destruct Hc as [c0 [<- Hc0]]. cbn [snd]. apply Nat.eqb_eq.
  rewrite firstn_all2 by lia.
  apply mask_list_length. rewrite (Hl c0 Hc0). now rewrite Hm.
Qed.

Lemma series_length (e : exn) (df : frame) (name : string) (vals : list value) :
  well_formed df = true ->
  series e df name = Ok vals ->
  length vals = nrows df.
Proof.
  intros Hwf Hs. destruct (@series_inv e df name vals Hs) as [c [Hc <-]].
  pose proof (well_formed_lengths df Hwf) as Hl. rewrite Forall_forall in Hl.
  apply Hl. assert (H : In c (filter (labelled name) (cols df)))
    by (rewrite Hc; now left).
  now apply filter_In in H.
Qed.

Lemma length_transpose (n : nat) : forall cs, length (transpose n cs) = n.
Proof. induction n as [|n IH]; intros cs; cbn; [reflexivity|now rewrite IH]. Qed.

(** A frame with a column is empty exactly when it has no row. *)
Lemma is_empty_rows (df : frame) :
  cols df <> [] ->
  is_empty df = match rows df with
                | [] => true
                | _ :: _ => false
                end.
Proof.
  intros Hne. unfold is_empty. destruct (cols df) as [|c cs] eqn:Ec; [congruence|].
  pose proof (length_transpose (nrows df) (cols df)) as Hl.
  fold (rows df) in Hl. destruct (rows df); cbn in Hl; rewrite <- Hl; reflexivity.
Qed.

Section SearchFacts.

Variable re_search : string -> option (string -> bool).
Variable lower : string -> string.

(** For a term without regular-expression metacharacters, on a
    rectangular frame with one Reference column, [search_reference]
    returns exactly the rows whose lowered Reference contains the
    lowered term, in their order and under the same columns; a row
    whose Reference is missing is never among them.  What [str.lower]
    makes of a text is left open. *)
Theorem search_reference_rows (df : frame) (term : string) (refs : list value) :
  well_formed df = true ->
  series AttributeError df "Reference" = Ok refs ->
  regex_plain (lower term) = true ->
  exists out,
    search_reference re_search lower df term = Ok out /\
    columns out = columns df /\
    well_formed out = true /\
    rows out = filter (fun r => reference_matches lower term (cell "Reference" r)) (rows df) /\
    (forall r, In r (rows out) -> cell "Reference" r <> VNull).
Proof.
  intros Hwf Hs Hp.
  rewrite (@search_reference_plain re_search lower df term refs Hp Hs).
  destruct (@series_inv _ _ _ _ Hs) as [c [Hc Hv]]. subst refs.
  destruct (@select_rows_spec df "Reference" c (reference_matches lower term) Hwf Hc)
    as [Hcols Hrows].
  eexists. split; [reflexivity|]. split; [exact Hcols|].
  split; [|split; [exact Hrows|]].
  - apply select_rows_well_formed; [assumption|].
    rewrite length_map. now apply (series_length AttributeError df "Reference").
  - intros r Hr. rewrite Hrows in Hr. apply filter_In in Hr.
    destruct Hr as [_ Hm]. intros E. rewrite E in Hm. discriminate.
Qed.

Lemma mask_list_all (A : Type) (l : list A) :
  mask_list (repeat true (length l)) l = l.
Proof. induction l as [|x l IH]; simpl; [reflexivity|now rewrite IH]. Qed.

Lemma matches_of_matched (g : value -> bool) (vals : list value) :
  map g (mask_list (map g vals) vals)
  = repeat true (length (mask_list (map g vals) vals)).
Proof.
  induction vals as [|v vals IH]; simpl; [reflexivity|].
  destruct (g v) eqn:E; simpl; [rewrite E|]; now rewrite IH.
Qed.

Lemma count_true_repeat (n : nat) : count_true (repeat true n) = n.
Proof.
  unfold count_true. induction n as [|n IH]; simpl; [reflexivity|now rewrite IH].
Qed.

(** Searching the result of a search for the same term again changes
    nothing. *)
Theorem search_reference_idempotent (df out : frame) (term : string)
  (refs : list value) :
  well_formed df = true ->
  series AttributeError df "Reference" = Ok refs ->
  regex_plain (lower term) = true ->
  search_reference re_search lower df term = Ok out ->
  search_reference re_search lower out term = Ok out.
Proof.
  intros Hwf Hs Hp Hout.
  rewrite (@search_reference_plain re_search lower df term refs Hp Hs) in Hout.
  injection Hout as <-.
  pose proof (@series_select_rows AttributeError
                (map (reference_matches lower term) refs) df "Reference" refs Hs) as Hs2.
  rewrite (@search_reference_plain re_search lower _ term _ Hp Hs2).
  rewrite matches_of_matched.
  set (mask := map (reference_matches lower term) refs).
  assert (Hlen : length mask = nrows df).
  { unfold mask. rewrite length_map.
    now apply (series_length AttributeError df "Reference"). }
  pose proof (well_formed_lengths df Hwf) as Hl. rewrite Forall_forall in Hl.
  assert (Hrl : length refs = length mask) by (unfold mask; now rewrite length_map).
  rewrite (mask_list_length _ mask refs Hrl).
  f_equal. unfold select_rows, masked. cbn [cols nrows].
  rewrite (firstn_all2 (n := nrows df)) by lia.
  f_equal.
  - rewrite map_map. cbn [fst snd]. apply map_ext_in. intros c Hc.
    f_equal.
    assert (Hcl : length (snd c) = length mask) by (rewrite (Hl c Hc); lia).
    rewrite <- (mask_list_length _ mask (snd c) Hcl).
    apply mask_list_all.
  - rewrite firstn_all2 by (rewrite repeat_length; lia).
    apply count_true_repeat.
Qed.

Lemma in_range_max (lo hi : Q) (v : value) :
  (if Qgtb hi 0 then in_range lo (Some hi) v else in_range lo None v)
  = in_range lo (Some hi) v.
Proof.
  destruct v; simpl; destruct (Qgtb hi 0); reflexivity.
Qed.

Lemma filter_filter (A : Type) (p q : A -> bool) (l : list A) :
  filter q (filter p l) = filter (fun x => p x && q x) l.
Proof.
  induction l as [|x l IH]; simpl; [reflexivity|].
  destruct (p x); simpl; [destruct (q x)|]; now rewrite IH.
Qed.

Lemma filter_by_amount_rows (df : frame) (lo : Q) (hi : option Q)
  (col : string) (vals : list value) :
  well_formed df = true ->
  series ValueError df col = Ok vals ->
  forallb is_amount vals = true ->
  exists out,
    filter_by_amount df lo hi col = Ok out /\
    columns out = columns df /\
    rows out = filter (fun r => in_range lo hi (cell col r)) (rows df).
Proof.
  intros Hwf Hs Ham.
  pose proof (@series_has_column _ _ _ _ Hs) as Hhas.
  destruct (@series_inv _ _ _ _ Hs) as [c [Hc Hv]]. subst vals.
  unfold filter_by_amount. rewrite Hhas, Hs. cbn [bind].
  assert (Hcase :
    forall t : Q -> bool,
      (forall v, match v with VNum q => t q | _ => false end = in_range lo hi v) ->
      exists out,
        (mask <- traverse (compare_cell t) (snd c) ;; Ok (select_rows mask df))
        = Ok out /\
        columns out = columns df /\
        rows out = filter (fun r => in_range lo hi (cell col r)) (rows df)).
  { intros t Ht.
    rewrite (@traverse_compare_amounts t _ Ham). cbn [bind].
    eexists. split; [reflexivity|].
    rewrite (map_ext _ (in_range lo hi) Ht).
    exact (@select_rows_spec df col c (in_range lo hi) Hwf Hc). }
  destruct hi as [m|]; [destruct (Qgtb m 0) eqn:Em|].
  - apply Hcase. intros v. destruct v; simpl; try reflexivity. now rewrite Em.
  - apply Hcase. intros v. destruct v; simpl; try reflexivity.
    now rewrite Em, andb_true_r.
  - apply Hcase. intros v. destruct v; simpl; try reflexivity.
    now rewrite andb_true_r.
Qed.

(** For a search term that is empty or without regular-expression
    metacharacters, the filter branch shows exactly the rows of the
    store whose lowered Reference contains the lowered term (every row
    when the term is empty) and whose amount is at least [min_amt] and,
    when [max_amt] is positive, at most [max_amt]; it reports "no
    matching transactions" exactly when no row passes. *)
Theorem answer_filter_rows (s : filters) (df : frame) (vals : list value) :
  well_formed df = true ->
  (search_term s = ""%string \/
   exists refs,
     series AttributeError df "Reference" = Ok refs /\
     regex_plain (lower (search_term s)) = true) ->
  series ValueError df (amt_col s) = Ok vals ->
  forallb is_amount vals = true ->
  exists out,
    answer_filter re_search lower s df = Ok (if is_empty out then None else Some out) /\
    columns out = columns df /\
    rows out = filter (passes lower s) (rows df) /\
    is_empty out = match filter (passes lower s) (rows df) with
                   | [] => true
                   | _ :: _ => false
                   end.
Proof.
  intros Hwf Hsearch Hs Ham.
  assert (Hfin : forall out,
            columns out = columns df ->
            rows out = filter (passes lower s) (rows df) ->
            is_empty out = match filter (passes lower s) (rows df) with
                           | [] => true
                           | _ :: _ => false
                           end).
  { intros out Hc Hr. rewrite <- Hr. apply is_empty_rows.
    intros E. pose proof (@series_has_column _ _ _ _ Hs) as Hh.
    unfold has_column in Hh. rewrite <- Hc in Hh. unfold columns in Hh.
    rewrite E in Hh. discriminate. }
  unfold answer_filter.
  assert (Hstep :
    exists fdf vals',
      (if negb (String.eqb (search_term s) "")
       then search_reference re_search lower df (search_term s) else Ok df) = Ok fdf /\
      columns fdf = columns df /\
      well_formed fdf = true /\
      series ValueError fdf (amt_col s) = Ok vals' /\
      forallb is_amount vals' = true /\
      rows fdf
      = filter (fun r => String.eqb (search_term s) ""
                         || reference_matches lower (search_term s) (cell "Reference" r))
               (rows df)).
  { destruct (String.eqb_spec (search_term s) "") as [E|E]; cbn [negb].
    - exists df, vals. repeat (split; [auto; fail|]).
      rewrite filter_all; [reflexivity|]. intros r _. reflexivity.
    - destruct Hsearch as [E'|[refs [Hr Hp]]]; [contradiction|].
      rewrite (@search_reference_plain re_search lower df _ refs Hp Hr).
      destruct (@series_inv _ _ _ _ Hr) as [c [Hcc Hsnd]].
      destruct (@select_rows_spec df "Reference" c
                  (reference_matches lower (search_term s)) Hwf Hcc) as [Hc Hrows].
      rewrite Hsnd in Hc, Hrows.
      exists (select_rows (map (reference_matches lower (search_term s)) refs) df),
        (mask_list (map (reference_matches lower (search_term s)) refs) vals).
      split; [reflexivity|]. split; [exact Hc|].
      split.
      { apply select_rows_well_formed; [assumption|].
        rewrite length_map.
        now apply (series_length AttributeError df "Reference"). }
      split; [now apply series_select_rows|]. split; [|exact Hrows].
      apply forallb_forall. intros v Hv.
      rewrite forallb_forall in Ham. apply Ham.
      clear -Hv. revert vals Hv.
      generalize (map (reference_matches lower (search_term s)) refs).
      induction l as [|b l IH]; intros vals Hv; [now destruct vals|].
      destruct vals as [|x vals]; [contradiction|].
      destruct b; simpl in Hv.
      + destruct Hv as [->|Hv]; [now left|right; now apply IH].
      + right. now apply IH. }
  destruct Hstep as [fdf [vals' [-> [Hc [Hw [Hs' [Ham' Hrows]]]]]]].
  cbn [bind].
  destruct (filter_by_amount_rows fdf (min_amt s) (Some (max_amt s)) (amt_col s)
              vals' Hw Hs' Ham') as [o1 [Ho1 [Hc1 Hr1]]].
  destruct (filter_by_amount_rows fdf (min_amt s) None (amt_col s)
              vals' Hw Hs' Ham') as [o2 [Ho2 [Hc2 Hr2]]].
  destruct (Qgtb (max_amt s) 0) eqn:Em.
  - rewrite Ho1. cbn [bind]. exists o1.
    assert (Hr : rows o1 = filter (passes lower s) (rows df))
      by (rewrite Hr1, Hrows; apply filter_filter).
    split; [now destruct (is_empty o1)|]. split; [congruence|].
    split; [exact Hr|]. apply Hfin; [congruence|exact Hr].
  - rewrite Ho2. cbn [bind]. exists o2.
    assert (Hr : rows o2 = filter (passes lower s) (rows df)).
    { rewrite Hr2, Hrows, filter_filter. apply filter_ext. intros r.
      unfold passes. f_equal.
      rewrite <- (in_range_max (min_amt s) (max_amt s)). now rewrite Em. }
    split; [now destruct (is_empty o2)|]. split; [congruence|].
    split; [exact Hr|]. apply Hfin; [congruence|exact Hr].
Qed.

End SearchFacts.

Lemma search_reference_rows_witness :
  exists out,
    search_reference (fun _ => None) Str.lower sample_store "SHOP" = Ok out /\
    columns out = columns sample_store /\
    well_formed out = true /\
    rows out
    = filter (fun r => reference_matches Str.lower "SHOP" (cell "Reference" r))
        (rows sample_store) /\
    (forall r, In r (rows out) -> cell "Reference" r <> VNull).
Proof.
  apply (search_reference_rows (fun _ => None) Str.lower sample_store "SHOP"
           [VStr "Coffee Shop"; VStr "Salary"; VStr "Book shop"]);
    reflexivity.
Defined.

Lemma search_reference_idempotent_witness :
  search_reference (fun _ => None) Str.lower
    (select_rows [true; false; true] sample_store) "shop"
  = Ok (select_rows [true; false; true] sample_store).
Proof.
  apply (search_reference_idempotent (fun _ => None) Str.lower sample_store
           (select_rows [true; false; true] sample_store) "shop"
           [VStr "Coffee Shop"; VStr "Salary"; VStr "Book shop"]);
    reflexivity.
Defined.

Lemma answer_filter_rows_witness :
  exists out,
    answer_filter (fun _ => None) Str.lower sample_filters sample_store
    = Ok (if is_empty out then None else Some out) /\
    columns out = columns sample_store /\
    rows out = filter (passes Str.lower sample_filters) (rows sample_store) /\
    is_empty out = false.
Proof.
  apply (answer_filter_rows (fun _ => None) Str.lower sample_filters sample_store
           [VNum 5; VNum 0; VNum 12]).
  - reflexivity.
  - right. exists [VStr "Coffee Shop"; VStr "Salary"; VStr "Book shop"].
    split; reflexivity.
  - reflexivity.
  - reflexivity.
Defined.

(** * The session's store, further *)

(** Pressing [Process PDF] never clears a store, keeps the store
    non-empty if it was, and pressing it again on the same document
    changes nothing more. *)
Theorem process_button_invariant (to_numeric : string -> option Q)
  (to_datetime : string -> option date) (session_df : option frame) (file : pdf) :
  let press := process_button to_numeric to_datetime in
  (session_df <> None -> press session_df file <> None) /\
  ((forall d, session_df = Some d -> is_empty d = false) ->
   forall d, press session_df file = Some d -> is_empty d = false) /\
  press (press session_df file) file = press session_df file.
Proof.
  cbv zeta. unfold process_button.
  destruct (process_pdf_data to_numeric to_datetime file) as [[df|]|e].
  - destruct (is_empty df) eqn:E; repeat split; intros; try congruence; auto.
  - repeat split; auto.
  - repeat split; auto.
Qed.

Lemma process_button_invariant_witness :
  process_button Parse.decimal Parse.mdy (Some sample_store) Unreadable <> None.
Proof.
  apply (proj1 (process_button_invariant Parse.decimal Parse.mdy
                  (Some sample_store) Unreadable)).
  discriminate.
Defined.

(** * Further properties of the aggregations *)

(** ** Grouping, in general *)

Section GroupFacts.

Variables K V : Type.
Variable cmp : K -> K -> comparison.
Variable lt : K -> K -> Prop.

Hypothesis cmp_spec :
  forall x y, CompareSpec (x = y) (lt x y) (lt y x) (cmp x y).
Hypothesis lt_irrefl : forall x, ~ lt x x.
Hypothesis lt_trans : forall x y z, lt x y -> lt y z -> lt x z.

Lemma cmp_refl (k : K) : cmp k k = Eq.
Proof.
  destruct (cmp_spec k k) as [_|H|H]; [reflexivity| |]; now apply lt_irrefl in H.
Qed.

Lemma cmp_eq (a b : K) : cmp a b = Eq -> a = b.
Proof.
  intros H. destruct (cmp_spec a b); [assumption|discriminate|discriminate].
Qed.

Lemma group_add_keys (k : K) (v : V) (g : list (K * list V)) (k' : K) :
  In k' (map fst (group_add cmp k v g)) <-> k' = k \/ In k' (map fst g).
Proof.
  induction g as [|[k0 l0] g IH]; simpl.
  - intuition.
  - destruct (cmp_spec k k0) as [E|L|L]; simpl.
    + subst. intuition (subst; auto).
    + intuition (subst; auto).
    + rewrite IH. intuition (subst; auto).
Qed.

Lemma group_add_sorted (k : K) (v : V) (g : list (K * list V)) :
  StronglySorted lt (map fst g) ->
  StronglySorted lt (map fst (group_add cmp k v g)).
Proof.
  induction g as [|[k0 l0] g IH]; simpl; intros Hs.
  - repeat constructor.
  - inversion Hs as [|? ? Hs' Hall]; subst.
    destruct (cmp_spec k k0) as [E|L|L]; simpl.
    + now constructor.
    + constructor; [assumption|].
      constructor; [assumption|].
      eapply Forall_impl; [|exact Hall]. intros a Ha. now apply (lt_trans _ _ _ L).
    + constructor; [now apply IH|].
      apply Forall_forall. intros a Ha. apply group_add_keys in Ha.
      destruct Ha as [->|Ha]; [assumption|].
      rewrite Forall_forall in Hall. now apply Hall.
Qed.

Lemma sorted_head_absent (k k0 : K) (ks : list K) :
  lt k k0 -> Forall (lt k0) ks -> ~ In k (k0 :: ks).
Proof.
  intros L Hall [E|Hin].
  - subst. now apply lt_irrefl in L.
  - rewrite Forall_forall in Hall. specialize (Hall _ Hin).
    exact (lt_irrefl _ (lt_trans _ _ _ L Hall)).
Qed.

(** Where an entry of the groups comes from, once a row is added. *)
Lemma group_add_In (k : K) (v : V) (g : list (K * list V)) (k' : K) (l' : list V) :
  StronglySorted lt (map fst g) ->
  In (k', l') (group_add cmp k v g) ->
  (k' <> k /\ In (k', l') g) \/
  (k' = k /\
   ((exists l, In (k, l) g /\ l' = l ++ [v]) \/
    (~ In k (map fst g) /\ l' = [v]))).
Proof.
  induction g as [|[k0 l0] g IH]; cbn [group_add map fst]; intros Hs Hin.
  - destruct Hin as [E|[]]. injection E as <- <-. right. split; [reflexivity|].
    right. split; [intros []|reflexivity].
  - inversion Hs as [|? ? Hs' Hall]; subst.
    destruct (cmp_spec k k0) as [E|L|L].
    + subst k0. destruct Hin as [E|Hin].
      * injection E as <- <-. right. split; [reflexivity|]. left.
        exists l0. split; [now left|reflexivity].
      * left. split; [|now right].
        intros ->. rewrite Forall_forall in Hall.
        apply (lt_irrefl k). apply Hall. apply in_map_iff. now exists (k, l').
    + pose proof (sorted_head_absent k k0 (map fst g) L Hall) as Habs.
      destruct Hin as [E|Hin].
      * injection E as <- <-. right. split; [reflexivity|].
        right. split; [exact Habs|reflexivity].
      * left. split; [|exact Hin].
        intros ->. apply Habs.
        change (In k (map fst ((k0, l0) :: g))).
        apply in_map_iff. now exists (k, l').
    + destruct Hin as [E|Hin].
      * injection E as <- <-. left. split; [|now left].
        intros ->. now apply lt_irrefl in L.
      * destruct (IH Hs' Hin) as [[Hne Hg]|[-> [[l [Hl ->]]|[Habs ->]]]].
        -- left. split; [assumption|now right].
        -- right. split; [reflexivity|]. left. exists l. split; [now right|reflexivity].
        -- right. split; [reflexivity|]. right. split; [|reflexivity].
           intros [E|Hk]; [|now apply Habs].
           cbn in E. subst k0. now apply lt_irrefl in L.
Qed.

Lemma gather_app (k : K) (a b : list (K * V)) :
  gather cmp k (a ++ b) = gather cmp k a ++ gather cmp k b.
Proof. unfold gather. now rewrite filter_app, map_app. Qed.

Lemma gather_absent (k : K) (rows : list (K * V)) :
  ~ In k (map fst rows) -> gather cmp k rows = [].
Proof.
  unfold gather. induction rows as [|[k0 v0] rows IH]; cbn [filter map fst];
    intros H; [reflexivity|].
  destruct (cmp k0 k) eqn:E.
  - apply cmp_eq in E. exfalso. apply H. now left.
  - apply IH. intros Hin. apply H. now right.
  - apply IH. intros Hin. apply H. now right.
Qed.

Lemma gather_one (k k' : K) (v : V) :
  gather cmp k' [(k, v)] = match cmp k k' with Eq => [v] | _ => [] end.
Proof. unfold gather. cbn. now destruct (cmp k k'). Qed.

(** What [group_by] returns: the keys of the rows, each once, in
    ascending order, each with the values of its rows in row order. *)
Lemma group_by_facts (rows : list (K * V)) :
  StronglySorted lt (map fst (group_by cmp rows)) /\
  (forall k, In k (map fst (group_by cmp rows)) <-> In k (map fst rows)) /\
  (forall k l, In (k, l) (group_by cmp rows) -> l = gather cmp k rows).
Proof.
  unfold group_by.
  assert (Hgen : forall (rest done : list (K * V)) (g : list (K * list V)),
    (StronglySorted lt (map fst g) /\
     (forall k, In k (map fst g) <-> In k (map fst done)) /\
     (forall k l, In (k, l) g -> l = gather cmp k done)) ->
    let out := fold_left (fun g kv => group_add cmp (fst kv) (snd kv) g) rest g in
    StronglySorted lt (map fst out) /\
    (forall k, In k (map fst out) <-> In k (map fst (done ++ rest))) /\
    (forall k l, In (k, l) out -> l = gather cmp k (done ++ rest))).
  { induction rest as [|[k0 v0] rest IH]; intros done g [Hs [Hk Hv]]; cbn [fold_left].
    - rewrite app_nil_r. auto.
    - replace (done ++ (k0, v0) :: rest) with ((done ++ [(k0, v0)]) ++ rest)
        by (now rewrite <- app_assoc).
      apply IH. cbn [fst snd]. split; [now apply group_add_sorted|]. split.
      + intros k. rewrite group_add_keys, map_app, in_app_iff, Hk. cbn.
        intuition.
      + intros k l Hin. rewrite gather_app, gather_one.
        destruct (group_add_In k0 v0 g k l Hs Hin)
          as [[Hne Hg]|[-> [[l1 [Hl ->]]|[Habs ->]]]].
        * rewrite (Hv _ _ Hg).
          destruct (cmp k0 k) eqn:E; [|now rewrite app_nil_r..].
          apply cmp_eq in E. congruence.
        * rewrite cmp_refl. now rewrite (Hv _ _ Hl).
        * rewrite cmp_refl. rewrite gather_absent; [reflexivity|].
          intros Hin'. apply Habs. now apply Hk. }
  apply (Hgen rows [] []). split; [constructor|]. split.
  - intros k. reflexivity.
  - intros k l [].
Qed.

End GroupFacts.

(** ** Cells of the rows *)

Lemma map_cell_transpose (name : string) (n : nat) :
  forall cs c,
    filter (labelled name) cs = [c] ->
    length (snd c) = n ->
    map (cell name) (transpose n cs) = snd c.
Proof.
  induction n as [|n IH]; intros cs c Hc Hlen; cbn [transpose map].
  - destruct (snd c); [reflexivity|discriminate].
  - rewrite (@cell_heads name cs c Hc).
    assert (Htl : filter (labelled name) (tails cs) = [(fst c, tl (snd c))]).
    { rewrite filter_labelled_tails, Hc. reflexivity. }
    specialize (IH (tails cs) _ Htl).
    destruct (snd c) as [|v vals]; [discriminate|].
    cbn in *. injection Hlen as Hlen. now rewrite (IH Hlen).
Qed.

(** A column read off the rows. *)
Lemma series_cells (e : exn) (df : frame) (name : string) (vals : list value) :
  well_formed df = true ->
  series e df name = Ok vals ->
  map (cell name) (rows df) = vals.
Proof.
  intros Hwf Hs. destruct (@series_inv e df name vals Hs) as [c [Hc <-]].
  apply map_cell_transpose; [exact Hc|].
  pose proof (@well_formed_lengths df Hwf) as Hl. rewrite Forall_forall in Hl.
  apply Hl.
  assert (H : In c (filter (labelled name) (cols df))) by (rewrite Hc; now left).
  now apply filter_In in H.
Qed.

Lemma combine_map (A B C : Type) (f : A -> B) (g : A -> C) (l : list A) :
  combine (map f l) (map g l) = map (fun x => (f x, g x)) l.
Proof. induction l as [|x l IH]; cbn; [reflexivity|now rewrite IH]. Qed.

(** ** Ranking by reference *)

Lemma compare_eqb (s k : string) :
  match String_as_OT.compare s k with Eq => true | _ => false end = String.eqb s k.
Proof.
  destruct (String_as_OT.compare_spec s k) as [E|L|L].
  - change (s = k) in E. subst. now rewrite String.eqb_refl.
  - destruct (String.eqb_spec s k) as [->|_]; [|reflexivity].
    now apply slt_irrefl in L.
  - destruct (String.eqb_spec s k) as [->|_]; [|reflexivity].
    now apply slt_irrefl in L.
Qed.

Lemma keyed_amounts_cells (keys vals : list value) :
  forallb is_raw keys = true ->
  forallb is_amount vals = true ->
  keyed_amounts keys vals = Ok (keyed_cells keys vals).
Proof.
  revert vals. induction keys as [|k keys IH]; intros vals Hk Hv; [reflexivity|].
  destruct vals as [|v vals]; [reflexivity|].
  cbn [forallb] in Hk, Hv.
  apply andb_true_iff in Hk. apply andb_true_iff in Hv.
  destruct Hk as [Hk Hks], Hv as [Hv Hvs].
  cbn [keyed_amounts]. unfold keyed_cells. cbn [combine flat_map fst snd].
  fold (keyed_cells keys vals). rewrite (IH vals Hks Hvs).
  destruct k; try discriminate; destruct v; try discriminate; reflexivity.
Qed.

Lemma gather_keyed_rows (col k : string) (L : list (list (string * value))) :
  gather String_as_OT.compare k
    (keyed_cells (map (cell "Reference") L) (map (cell col) L))
  = map (fun r => num_of (cell col r)) (filter (has_reference k) L).
Proof.
  unfold keyed_cells. rewrite combine_map.
  induction L as [|r L IH]; [reflexivity|].
  cbn [map flat_map fst snd]. rewrite gather_app, IH.
  cbn [filter]. unfold has_reference at 2.
  destruct (cell "Reference" r) as [s| | |]; try reflexivity.
  rewrite gather_one. pose proof (compare_eqb s k) as E.
  destruct (String_as_OT.compare s k), (String.eqb s k);
    try discriminate; reflexivity.
Qed.

Lemma keys_keyed_rows (col k : string) (L : list (list (string * value))) :
  In k (map fst (keyed_cells (map (cell "Reference") L) (map (cell col) L))) <->
  exists r, In r L /\ has_reference k r = true.
Proof.
  unfold keyed_cells. rewrite combine_map.
  induction L as [|r L IH]; cbn [map flat_map fst snd].
  - split; [intros []|intros [r [[] _]]].
  - rewrite map_app, in_app_iff, IH. split.
    + intros [H|[r' [Hin Hr]]].
      * exists r. split; [now left|]. unfold has_reference.
        destruct (cell "Reference" r) as [s| | |]; try contradiction.
        destruct H as [<-|[]]. cbn. apply String.eqb_refl.
      * exists r'. split; [now right|assumption].
    + intros [r' [[<-|Hin] Hr]].
      * left. unfold has_reference in Hr.
        destruct (cell "Reference" r) as [s| | |]; try discriminate.
        apply String.eqb_eq in Hr. subst. now left.
      * right. now exists r'.
Qed.

(** The sums by Reference: the References of the store in ascending
    order, each with the sum of its cells. *)
Lemma sum_by_reference_facts (group_sum : string -> list (option Q) -> Q)
  (col : string) (df : frame) (keys vals : list value) :
  well_formed df = true ->
  series ValueError df "Reference" = Ok keys ->
  forallb is_raw keys = true ->
  series TypeError df col = Ok vals ->
  forallb is_amount vals = true ->
  exists sums,
    sum_by_reference group_sum col df = Ok sums /\
    StronglySorted slt (map fst sums) /\
    (forall k, In k (map fst sums) <->
               exists r, In r (rows df) /\ has_reference k r = true) /\
    (forall k q, In (k, q) sums -> q = group_sum col (reference_cells col k df)).
Proof.
  intros Hwf Hk Hraw Hv Ham. unfold sum_by_reference.
  rewrite Hk, Hv. cbn [bind]. rewrite (keyed_amounts_cells keys vals Hraw Ham).
  cbn [bind]. eexists. split; [reflexivity|].
  rewrite <- (series_cells _ df "Reference" keys Hwf Hk).
  rewrite <- (series_cells _ df col vals Hwf Hv).
  set (rws := keyed_cells (map (cell "Reference") (rows df)) (map (cell col) (rows df))).
  destruct (group_by_facts string (option Q) String_as_OT.compare slt
              String_as_OT.compare_spec slt_irrefl slt_trans rws)
    as [Hs [Hkeys Hvals]].
  rewrite map_map. cbn [fst].
  split; [exact Hs|]. split.
  - intros k. rewrite Hkeys. apply keys_keyed_rows.
  - intros k q Hin. apply in_map_iff in Hin.
    destruct Hin as [[k' l] [E Hin]]. cbn [fst snd] in E. injection E as -> <-.
    rewrite (Hvals _ _ Hin). unfold rws. now rewrite gather_keyed_rows.
Qed.

Lemma firstn_or_after (A : Type) (R : A -> A -> Prop) (x : A) (l : list A) :
  forall n,
    StronglySorted R l ->
    In x l ->
    In x (firstn n l) \/
    (length (firstn n l) = n /\ Forall (fun e => R e x) (firstn n l)).
Proof.
  induction l as [|a l IH]; intros n Hs Hin; [contradiction|].
  destruct n as [|n]; [right; split; [reflexivity|constructor]|].
  inversion Hs as [|? ? Hs' Hall]; subst. cbn [firstn].
  destruct Hin as [->|Hin]; [left; now left|].
  destruct (IH n Hs' Hin) as [H|[Hlen Hfa]].
  - left. now right.
  - right. split; [cbn; now rewrite Hlen|].
    constructor; [|exact Hfa].
    rewrite Forall_forall in Hall. now apply Hall.
Qed.

Lemma get_top_is_top (group_sum : string -> list (option Q) -> Q)
  (col : string) (df : frame) (n : nat) (keys vals : list value) :
  well_formed df = true ->
  series ValueError df "Reference" = Ok keys ->
  forallb is_raw keys = true ->
  series TypeError df col = Ok vals ->
  forallb is_amount vals = true ->
  exists s, get_top group_sum col df n = Ok s /\ is_top group_sum col df n s.
Proof.
  intros Hwf Hk Hraw Hv Ham.
  destruct (sum_by_reference_facts group_sum col df keys vals Hwf Hk Hraw Hv Ham)
    as [sums [Hsums [Hsorted [Hkeys Hvals]]]].
  unfold get_top.
  rewrite (@series_has_column _ _ _ _ Hk), (@series_has_column _ _ _ _ Hv), Hsums.
  cbn [andb bind].
  pose proof (@sort_desc_sorted sums Hsorted) as Hdesc.
  unfold nlargest. rewrite (@positive_firstn n (sort_desc sums) Hdesc).
  eexists. split; [reflexivity|].
  assert (Hpos : StronglySorted desc_then_key (positive (sort_desc sums)))
    by (apply StronglySorted_filter; exact Hdesc).
  split; [rewrite length_firstn; lia|].
  split; [now apply StronglySorted_firstn|]. split.
  - intros k q Hin. apply firstn_incl in Hin. apply filter_In in Hin.
    destruct Hin as [Hin Hq]. apply (proj1 (sort_desc_In (k, q) sums)) in Hin.
    split; [|split].
    + apply Hkeys. apply in_map_iff. now exists (k, q).
    + now apply Hvals.
    + now apply Qgtb_true_iff.
  - intros k r Hr Hkr Hq.
    assert (Hin : In k (map fst sums)) by (apply Hkeys; now exists r).
    apply in_map_iff in Hin. destruct Hin as [[k' q] [E Hin]].
    cbn in E. subst k'. pose proof (Hvals _ _ Hin) as Eq. subst q.
    apply (firstn_or_after _ desc_then_key _ _ n Hpos).
    apply filter_In. split.
    + now apply (proj2 (sort_desc_In _ sums)).
    + now apply Qgtb_true_iff.
Qed.




(** ** Ranking, further *)

Lemma sum_by_reference_sorted (group_sum : string -> list (option Q) -> Q)
  (col : string) (df : frame) (sums : ranked) :
  sum_by_reference group_sum col df = Ok sums ->
  StronglySorted desc_then_key (sort_desc sums).
Proof.
  unfold sum_by_reference.
  destruct (series ValueError df "Reference") as [keys|]; [|discriminate].
  cbn [bind]. destruct (series TypeError df col) as [vals|]; [|discriminate].
  cbn [bind]. destruct (keyed_amounts keys vals) as [rws|]; [|discriminate].
  cbn [bind]. intros H. injection H as <-.
  apply sort_desc_sorted. rewrite map_map. cbn [fst].
  apply (group_by_facts string (option Q) String_as_OT.compare slt
           String_as_OT.compare_spec slt_irrefl slt_trans rws).
Qed.

Lemma get_top_prefix_gen (group_sum : string -> list (option Q) -> Q)
  (col : string) (df : frame) (n m : nat) (sm : ranked) :
  n <= m ->
  get_top group_sum col df m = Ok sm ->
  get_top group_sum col df n = Ok (firstn n sm).
Proof.
  intros Hle. unfold get_top.
  destruct (has_column col df && has_column "Reference" df).
  - destruct (sum_by_reference group_sum col df) as [sums|] eqn:Es; [|discriminate].
    cbn [bind]. intros H. injection H as <-. f_equal.
    pose proof (sum_by_reference_sorted group_sum col df sums Es) as Hs.
    unfold nlargest.
    rewrite (@positive_firstn n _ Hs), (@positive_firstn m _ Hs).
    rewrite firstn_firstn. now rewrite Nat.min_l.
  - intros H. injection H as <-. now rewrite firstn_nil.
Qed.

(** A shorter ranking is the beginning of a longer one: the top [n]
    debits (credits) are the first [n] entries of the top [m], for
    [n <= m]. *)
Theorem get_top_prefix (group_sum : string -> list (option Q) -> Q)
  (df : frame) (n m : nat) (sm : ranked) :
  n <= m ->
  (get_top_debits group_sum df m = Ok sm ->
   get_top_debits group_sum df n = Ok (firstn n sm)) /\
  (get_top_credits group_sum df m = Ok sm ->
   get_top_credits group_sum df n = Ok (firstn n sm)).
Proof.
  intros Hle. split; now apply get_top_prefix_gen.
Qed.

Lemma get_top_prefix_witness :
  get_top_debits (fun _ => exact_sum) tie_store 1
  = Ok (firstn 1 [("A", 5%Q); ("B", 5%Q); ("C", 1%Q)]).
Proof.
  apply (proj1 (get_top_prefix (fun _ => exact_sum) tie_store 1 3
                  [("A", 5%Q); ("B", 5%Q); ("C", 1%Q)]
                  (le_S _ _ (le_S _ _ (le_n 1))))).
  reflexivity.
Defined.

(** ** The highest debit and credit *)

Lemma arg_max_head (x : string * Q) (l : ranked) :
  Forall (fun y => (snd y <= snd x)%Q) l ->
  arg_max Qgtb x l = x.
Proof.
  induction l as [|y l IH]; intros H; simpl; [reflexivity|].
  inversion H as [|? ? Hy Hl]; subst.
  apply Qgtb_false_iff in Hy. rewrite Hy. now apply IH.
Qed.

Lemma highest_of_top (group_sum : string -> list (option Q) -> Q)
  (col : string) (df : frame) (s : ranked) :
  is_top group_sum col df 5 s ->
  is_highest group_sum col df (idxmax Qgtb s).
Proof.
  intros [Hlen [Hsorted [Hentries Hall]]].
  destruct s as [|[k q] rest]; cbn [idxmax]; unfold is_highest.
  - intros k' r Hr Hkr.
    destruct (Qlt_le_dec 0 (group_sum col (reference_cells col k' df)))
      as [Hpos|Hle]; [|exact Hle].
    exfalso. destruct (Hall k' r Hr Hkr Hpos) as [[]|[E _]]. discriminate.
  - inversion Hsorted as [|? ? Hs' Hrest]; subst.
    rewrite Forall_forall in Hrest.
    rewrite arg_max_head.
    2:{ apply Forall_forall. intros y Hy.
        apply (@desc_then_key_le (k, q) y). now apply Hrest. }
    destruct (Hentries k q (or_introl eq_refl)) as [Hrow [Hq Hpos]].
    split; [exact Hrow|]. split; [exact Hq|]. split; [exact Hpos|].
    intros k' r Hr Hkr.
    set (t := group_sum col (reference_cells col k' df)).
    assert (Hcase : (0 < t)%Q -> (k', t) = (k, q) \/ desc_then_key (k, q) (k', t)).
    { intros Ht. destruct (Hall k' r Hr Hkr Ht) as [[E|Hin]|[_ Hfa]].
      - left. now symmetry.
      - right. now apply Hrest.
      - right. now inversion Hfa. }
    destruct (Qlt_le_dec 0 t) as [Ht|Ht].
    + destruct (Hcase Ht) as [E|Hd].
      * injection E as -> Et. rewrite Et. split; [apply Qle_refl|]. now left.
      * split; [exact (@desc_then_key_le (k, q) (k', t) Hd)|].
        intros Heq. right. destruct Hd as [Hlt|[_ Hlt]]; [|exact Hlt].
        cbn [snd] in Hlt. rewrite Heq in Hlt. now apply Qlt_irrefl in Hlt.
    + split.
      * apply Qlt_le_weak. eapply Qle_lt_trans; eassumption.
      * intros Heq. exfalso. rewrite Heq in Ht.
        exact (Qlt_not_le _ _ Hpos Ht).
Qed.

(** "Highest Debit" ("Highest Credit") shows a Reference of the store
    whose sum of debits (credits) is positive and no smaller than that
    of any other Reference, the first in Reference order among equal
    sums; the "no data" warning appears exactly when no Reference has
    a positive sum.  The sum is the one pandas computes. *)
Theorem answer_highest_spec (group_sum : string -> list (option Q) -> Q)
  (df : frame) (keys : list value) :
  well_formed df = true ->
  series ValueError df "Reference" = Ok keys ->
  forallb is_raw keys = true ->
  (forall vals,
      series TypeError df "Debit" = Ok vals ->
      forallb is_amount vals = true ->
      exists shown,
        answer_highest_debit group_sum df = Ok shown /\
        is_highest group_sum "Debit" df shown) /\
  (forall vals,
      series TypeError df "Credit" = Ok vals ->
      forallb is_amount vals = true ->
      exists shown,
        answer_highest_credit group_sum df = Ok shown /\
        is_highest group_sum "Credit" df shown).
Proof.
  intros Hwf Hk Hraw.
  assert (Hgen : forall col vals,
    series TypeError df col = Ok vals ->
    forallb is_amount vals = true ->
    exists shown,
      (top <- get_top group_sum col df 5 ;; Ok (idxmax Qgtb top)) = Ok shown /\
      is_highest group_sum col df shown).
  { intros col vals Hv Ham.
    destruct (get_top_is_top group_sum col df 5 keys vals Hwf Hk Hraw Hv Ham)
      as [s [-> Htop]].
    cbn [bind]. eexists. split; [reflexivity|].
    now apply highest_of_top. }
  split; intros vals Hv Ham; exact (Hgen _ vals Hv Ham).
Qed.

Lemma answer_highest_spec_witness :
  exists shown,
    answer_highest_debit (fun _ => exact_sum) tie_store = Ok shown /\
    is_highest (fun _ => exact_sum) "Debit" tie_store shown.
Proof.
  apply (proj1 (answer_highest_spec (fun _ => exact_sum) tie_store
                  [VStr "B"; VStr "A"; VStr "C"] eq_refl eq_refl eq_refl)
           [VNum 5; VNum 5; VNum 1]);
    reflexivity.
Defined.

(** ** The largest transaction *)

Lemma fold_max_spec (ns : list (option Q)) :
  forall acc,
    match fold_left Qmax_opt ns acc with
    | Some m =>
        (acc = Some m \/ In (Some m) ns) /\
        (forall a, acc = Some a -> (a <= m)%Q) /\
        (forall q, In (Some q) ns -> (q <= m)%Q)
    | None => acc = None /\ forall q, ~ In (Some q) ns
    end.
Proof.
  induction ns as [|x ns IH]; intros acc; cbn [fold_left].
  - destruct acc as [a|].
    + split; [now left|]. split.
      * intros b E. injection E as ->. apply Qle_refl.
      * intros q [].
    + split; [reflexivity|]. intros q [].
  - specialize (IH (Qmax_opt acc x)).
    destruct (fold_left Qmax_opt ns (Qmax_opt acc x)) as [m|].
    + destruct IH as [Hsrc [Hacc Hns]].
      assert (Hx : forall q, x = Some q -> (q <= m)%Q).
      { intros q ->. destruct acc as [a|]; cbn in Hacc.
        - destruct (Qgtb q a) eqn:E.
          + now apply Hacc.
          + apply Qgtb_false_iff in E. eapply Qle_trans; [exact E|].
            now apply Hacc.
        - now apply Hacc. }
      assert (Ha : forall a, acc = Some a -> (a <= m)%Q).
      { intros a ->. destruct x as [q|]; cbn in Hacc.
        - destruct (Qgtb q a) eqn:E.
          + apply Qgtb_true_iff in E. apply Qlt_le_weak.
            eapply Qlt_le_trans; [exact E|]. now apply Hacc.
          + now apply Hacc.
        - now apply Hacc. }
      split; [|split].
      * destruct Hsrc as [E|Hin]; [|right; now right].
        destruct acc as [a|], x as [q|]; cbn in E.
        { destruct (Qgtb q a); injection E as <-; [right|]; now left. }
        { now left. }
        { right. left. assumption. }
        { discriminate. }
      * exact Ha.
      * intros q [E|Hin]; [now apply Hx|now apply Hns].
    + destruct IH as [Hnone Hns].
      destruct acc as [a|], x as [q|]; cbn in Hnone; try discriminate.
      split; [reflexivity|]. intros q [E|Hin]; [discriminate|].
      exact (Hns q Hin).
Qed.

Lemma traverse_number (vals : list value) :
  forallb is_amount vals = true ->
  traverse number vals
  = Ok (map (fun v => match v with VNum q => Some q | _ => None end) vals).
Proof.
  induction vals as [|v vals IH]; cbn; [reflexivity|].
  intros H. apply andb_true_iff in H. destruct H as [Hv Hr].
  rewrite (IH Hr). destruct v; cbn in *; try discriminate; reflexivity.
Qed.

Lemma column_max_spec (col : string) (df : frame) (vals : list value) :
  series TypeError df col = Ok vals ->
  forallb is_amount vals = true ->
  exists m, column_max col df = Ok m /\ is_max m vals.
Proof.
  intros Hs Ham. unfold column_max.
  rewrite (@series_has_column _ _ _ _ Hs), Hs. cbn [bind].
  rewrite (traverse_number vals Ham). cbn [bind].
  eexists. split; [reflexivity|].
  pose proof (fold_max_spec
                (map (fun v => match v with VNum q => Some q | _ => None end) vals)
                None) as H.
  assert (Hin : forall q,
            In (Some q)
               (map (fun v => match v with VNum q => Some q | _ => None end) vals)
            <-> In (VNum q) vals).
  { intros q. rewrite in_map_iff. split.
    - intros [v [E Hv]]. destruct v; try discriminate. now injection E as ->.
    - intros Hv. now exists (VNum q). }
  destruct (fold_left Qmax_opt _ None) as [m|]; cbn.
  - destruct H as [[E|Hm] [_ Hub]]; [discriminate|].
    split; [now apply Hin|]. intros q' Hq'. apply Hub. now apply Hin.
  - destruct H as [_ Hno]. intros q' Hq'. apply (Hno q'). now apply Hin.
Qed.

(** "Largest Transaction" shows, for Debit and for Credit each on its
    own, a number that occurs in the column and that no cell of the
    column exceeds; missing cells are passed over. *)
Theorem answer_largest_transaction_spec (df : frame) (debits credits : list value) :
  series TypeError df "Debit" = Ok debits ->
  series TypeError df "Credit" = Ok credits ->
  forallb is_amount debits = true ->
  forallb is_amount credits = true ->
  exists debit_max credit_max,
    answer_largest_transaction df = Ok (debit_max, credit_max) /\
    is_max debit_max debits /\
    is_max credit_max credits.
Proof.
  intros Hd Hc Had Hac. unfold answer_largest_transaction.
  destruct (column_max_spec "Debit" df debits Hd Had) as [md [-> Hmd]].
  destruct (column_max_spec "Credit" df credits Hc Hac) as [mc [-> Hmc]].
  cbn [bind]. now exists md, mc.
Qed.

Lemma answer_largest_transaction_spec_witness :
  exists debit_max credit_max,
    answer_largest_transaction sample_store = Ok (debit_max, credit_max) /\
    is_max debit_max [VNum 5; VNum 0; VNum 12] /\
    is_max credit_max [VNum 0; VNum 30; VNum 0].
Proof.
  apply (answer_largest_transaction_spec sample_store
           [VNum 5; VNum 0; VNum 12] [VNum 0; VNum 30; VNum 0]);
    reflexivity.
Defined.

(** ** The period summaries, when they return *)

Lemma bucketed_is_cells (period : date -> Z) (dates debits credits : list value) :
  forallb is_date_cell dates = true ->
  forallb is_amount debits = true ->
  forallb is_amount credits = true ->
  bucketed period dates debits credits
  = Ok (bucketed_cells period dates debits credits).
Proof.
  revert debits credits.
  induction dates as [|d dates IH]; intros debits credits Hd Hx Hy; [reflexivity|].
  destruct debits as [|x debits]; [reflexivity|].
  destruct credits as [|y credits]; [reflexivity|].
  cbn [forallb] in Hd, Hx, Hy.
  apply andb_true_iff in Hd. apply andb_true_iff in Hx. apply andb_true_iff in Hy.
  destruct Hd as [Hd Hds], Hx as [Hx Hxs], Hy as [Hy Hys].
  cbn [bucketed]. unfold bucketed_cells. cbn [combine flat_map fst snd].
  fold (bucketed_cells period dates debits credits).
  rewrite (IH debits credits Hds Hxs Hys).
  destruct d; try discriminate; destruct x; try discriminate;
    destruct y; try discriminate; reflexivity.
Qed.

Lemma Zcompare_eqb (a k : Z) :
  match Z.compare a k with Eq => true | _ => false end = Z.eqb a k.
Proof.
  destruct (Z.compare_spec a k) as [E|L|L]; destruct (Z.eqb_spec a k);
    try reflexivity; lia.
Qed.

Lemma combine3_map (A B C D : Type) (f : A -> B) (g : A -> C) (h : A -> D)
  (l : list A) :
  combine (map f l) (combine (map g l) (map h l))
  = map (fun x => (f x, (g x, h x))) l.
Proof. induction l as [|x l IH]; cbn; [reflexivity|now rewrite IH]. Qed.

Lemma gather_bucketed_rows (period : date -> Z) (k : Z)
  (L : list (list (string * value))) :
  gather Z.compare k
    (bucketed_cells period (map (cell "Date") L) (map (cell "Debit") L)
       (map (cell "Credit") L))
  = map (fun r => (num_of (cell "Debit" r), num_of (cell "Credit" r)))
        (filter (in_period period k) L).
Proof.
  unfold bucketed_cells. rewrite combine3_map.
  induction L as [|r L IH]; [reflexivity|].
  cbn [map flat_map fst snd]. rewrite (gather_app Z _ Z.compare), IH.
  cbn [filter]. unfold in_period at 2.
  destruct (cell "Date" r) as [| |d|]; try reflexivity.
  rewrite (gather_one Z _ Z.compare). pose proof (Zcompare_eqb (period d) k) as E.
  destruct (Z.compare (period d) k), (Z.eqb (period d) k);
    try discriminate; reflexivity.
Qed.

Lemma keys_bucketed_rows (period : date -> Z) (k : Z)
  (L : list (list (string * value))) :
  In k (map fst (bucketed_cells period (map (cell "Date") L)
                   (map (cell "Debit") L) (map (cell "Credit") L))) <->
  exists r, In r L /\ in_period period k r = true.
Proof.
  unfold bucketed_cells. rewrite combine3_map.
  induction L as [|r L IH]; cbn [map flat_map fst snd].
  - split; [intros []|intros [r [[] _]]].
  - rewrite map_app, in_app_iff, IH. split.
    + intros [H|[r' [Hin Hr]]].
      * exists r. split; [now left|]. unfold in_period.
        destruct (cell "Date" r) as [| |d|]; try contradiction.
        destruct H as [<-|[]]. cbn. apply Z.eqb_refl.
      * exists r'. split; [now right|assumption].
    + intros [r' [[<-|Hin] Hr]].
      * left. unfold in_period in Hr.
        destruct (cell "Date" r) as [| |d|]; try discriminate.
        apply Z.eqb_eq in Hr. subst. now left.
      * right. now exists r'.
Qed.

Lemma period_summary_is_summary (group_sum : string -> list (option Q) -> Q)
  (period : date -> Z) (df : frame) (dates debits credits : list value) :
  well_formed df = true ->
  series AttributeError df "Date" = Ok dates ->
  forallb is_date_cell dates = true ->
  series TypeError df "Debit" = Ok debits ->
  forallb is_amount debits = true ->
  series TypeError df "Credit" = Ok credits ->
  forallb is_amount credits = true ->
  exists out,
    period_summary group_sum period df = Ok out /\
    is_summary group_sum period df out.
Proof.
  intros Hwf Hd Hdc Hx Hxa Hy Hya. unfold period_summary.
  rewrite (@series_has_column _ _ _ _ Hd), Hd, Hx, Hy. cbn [bind].
  rewrite (bucketed_is_cells period dates debits credits Hdc Hxa Hya).
  cbn [bind]. eexists. split; [reflexivity|].
  rewrite <- (series_cells _ df "Date" dates Hwf Hd).
  rewrite <- (series_cells _ df "Debit" debits Hwf Hx).
  rewrite <- (series_cells _ df "Credit" credits Hwf Hy).
  set (rws := bucketed_cells period (map (cell "Date") (rows df))
                (map (cell "Debit") (rows df)) (map (cell "Credit") (rows df))).
  destruct (group_by_facts Z (option Q * option Q) Z.compare Z.lt
              Z.compare_spec Z.lt_irrefl Z.lt_trans rws)
    as [Hs [Hkeys Hvals]].
  unfold is_summary. rewrite map_map. cbn [fst].
  split; [exact Hs|]. split.
  - intros k. rewrite Hkeys. apply keys_bucketed_rows.
  - intros k a b Hin. apply in_map_iff in Hin.
    destruct Hin as [[k' l] [E Hin]]. cbn [fst snd] in E.
    injection E as -> <- <-.
    rewrite (Hvals _ _ Hin). unfold rws. rewrite gather_bucketed_rows.
    unfold period_cells. now rewrite !map_map.
Qed.

(** On a rectangular store with Date, Debit and Credit columns the
    monthly and the weekly summary return one line for each month
    (week) that holds a dated row, in ascending order of the period,
    with the sums pandas computes of the Debit cells and of the Credit
    cells of the rows of that period; rows without a date are in no
    line. *)
Theorem period_summaries_spec (group_sum : string -> list (option Q) -> Q)
  (df : frame) (dates debits credits : list value) :
  well_formed df = true ->
  series AttributeError df "Date" = Ok dates ->
  forallb is_date_cell dates = true ->
  series TypeError df "Debit" = Ok debits ->
  forallb is_amount debits = true ->
  series TypeError df "Credit" = Ok credits ->
  forallb is_amount credits = true ->
  (exists out,
      get_monthly_summary group_sum df = Ok out /\
      is_summary group_sum month_period df out) /\
  (exists out,
      get_weekly_summary group_sum df = Ok out /\
      is_summary group_sum week_period df out).
Proof.
  intros Hwf Hd Hdc Hx Hxa Hy Hya. split.
  - exact (period_summary_is_summary group_sum month_period df _ _ _
             Hwf Hd Hdc Hx Hxa Hy Hya).
  - exact (period_summary_is_summary group_sum week_period df _ _ _
             Hwf Hd Hdc Hx Hxa Hy Hya).
Qed.

Lemma period_summaries_spec_witness :
  exists out,
    get_monthly_summary (fun _ => exact_sum) dated_store = Ok out /\
    is_summary (fun _ => exact_sum) month_period dated_store out.
Proof.
  apply (proj1 (period_summaries_spec (fun _ => exact_sum) dated_store
                  [VDate (mkDate 2024 1 31 0); VNull; VDate (mkDate 2024 2 1 0);
                   VDate (mkDate 2024 1 2 0); VDate (mkDate 2024 2 1 0);
                   VDate (mkDate 2024 2 1 3600000000000)]
                  [VNum 5; VNum 1; VNum 7; VNum 2; VNum 1; VNum 1]
                  [VNum 0; VNum 0; VNum 3; VNum 4; VNum 0; VNum 0]
                  eq_refl eq_refl eq_refl eq_refl eq_refl eq_refl eq_refl)).
Defined.

(** Monthly buckets follow the calendar: an earlier month has a smaller
    bucket, and two dates share a bucket exactly when they share year
    and month. *)
Theorem month_period_chronological (a b : date) :
  (1 <= month a <= 12)%Z ->
  (1 <= month b <= 12)%Z ->
  ((month_period a < month_period b)%Z <->
   (year a < year b)%Z \/ (year a = year b /\ (month a < month b)%Z)) /\
  (month_period a = month_period b <->
   year a = year b /\ month a = month b).
Proof.
  unfold month_period. intros Ha Hb. split; split; intros H; lia.
Qed.

Lemma month_period_chronological_witness :
  (month_period (mkDate 2023 12 31 0) < month_period (mkDate 2024 1 1 0))%Z.
Proof.
  apply (proj1 (month_period_chronological (mkDate 2023 12 31 0) (mkDate 2024 1 1 0)
                  ltac:(cbn; lia) ltac:(cbn; lia))).
  left. cbn. lia.
Defined.

(** ** The menu *)

(** Every entry of the quick-analysis menu yields a query key, and the
    dispatcher takes that key to the branch of the entry's name. *)
Theorem quick_options_branches :
  map (fun o => option_map classify (query_key o)) quick_options
  = map Some menu_branches.
Proof. vm_compute. reflexivity. Qed.

(** ** Splitting a query *)

Lemma split_go_nonempty (s : string) :
  forall skip cur, Str.split_go "on" skip cur s <> [].
Proof.
  induction s as [|c s IH]; intros skip cur; cbn [Str.split_go].
  - discriminate.
  - destruct skip; [|apply IH].
    destruct (prefix "on" (String c s)); [discriminate|apply IH].
Qed.

Lemma join_cons (sep p : string) (rest : list string) :
  rest <> [] -> join sep (p :: rest) = (p ++ sep ++ join sep rest)%string.
Proof. destruct rest; [congruence|reflexivity]. Qed.

Lemma split_go_join (n : nat) :
  forall s cur,
    String.length s <= n ->
    join "on" (Str.split_go "on" 0 cur s) = (Str.rev cur ++ s)%string.
Proof.
  induction n as [|n IH]; intros s cur Hlen.
  - destruct s; [|cbn in Hlen; lia]. cbn. now rewrite append_nil_r.
  - destruct s as [|c s]; [cbn; now rewrite append_nil_r|].
    destruct (prefix "on" (String c s)) eqn:E.
    + apply prefix_on_iff in E. destruct E as [rest Hr]. injection Hr as -> ->.
      rewrite split_go_match.
      rewrite join_cons by apply split_go_nonempty.
      rewrite (IH rest ""%string) by (cbn in Hlen; lia).
      reflexivity.
    + rewrite (@split_go_pass cur c s E).
      rewrite (IH s (String c cur)) by (cbn in Hlen; lia).
      cbn. now rewrite append_assoc.
Qed.

(** Splitting a query on [on] loses nothing: the parts, joined with
    [on] between them, are the query; and there is always at least one
    part. *)
Theorem split_on_join (q : string) :
  join "on" (Str.split "on" q) = q /\ Str.split "on" q <> [].
Proof.
  unfold Str.split. split.
  - exact (split_go_join (String.length q) q ""%string (le_n _)).
  - apply split_go_nonempty.
Qed.

(** ** Transactions per timestamp *)

Lemma date_compare_spec (a b : date) :
  CompareSpec (a = b) (stamp_lt a b) (stamp_lt b a) (date_compare a b).
Proof.
  destruct a as [ya ma da ta], b as [yb mb db tb].
  unfold date_compare, stamp_lt, date_lt. cbn.
  destruct (Z.compare_spec ya yb) as [Ey|Ly|Ly];
    [|constructor; lia|constructor; lia].
  destruct (Z.compare_spec ma mb) as [Em|Lm|Lm];
    [|constructor; lia|constructor; lia].
  destruct (Z.compare_spec da db) as [Ed|Ld|Ld];
    [|constructor; lia|constructor; lia].
  destruct (Z.compare_spec ta tb) as [Et|Lt|Lt]; constructor;
    [congruence|lia|lia].
Qed.

Lemma stamp_lt_irrefl (a : date) : ~ stamp_lt a a.
Proof. unfold stamp_lt, date_lt. lia. Qed.

Lemma stamp_lt_trans (a b c : date) : stamp_lt a b -> stamp_lt b c -> stamp_lt a c.
Proof. unfold stamp_lt, date_lt. lia. Qed.

Lemma dated_rows_cells (dates : list value) :
  forallb is_date_cell dates = true ->
  dated_rows dates = Ok (dated_cells dates).
Proof.
  induction dates as [|v dates IH]; cbn [forallb]; intros H; [reflexivity|].
  apply andb_true_iff in H. destruct H as [Hv Hr].
  cbn [dated_rows]. rewrite (IH Hr).
  destruct v; try discriminate; reflexivity.
Qed.

Lemma keys_dated_cells (d : date) (dates : list value) :
  In d (map fst (dated_cells dates)) <-> In (VDate d) dates.
Proof.
  unfold dated_cells. induction dates as [|v dates IH]; cbn [flat_map].
  - reflexivity.
  - rewrite map_app, in_app_iff, IH. cbn [In]. split.
    + intros [H|H]; [|now right].
      destruct v; try contradiction. destruct H as [<-|[]]. now left.
    + intros [->|H]; [left; now left|now right].
Qed.

Lemma gather_dated_cells (d : date) (dates : list value) :
  length (gather date_compare d (dated_cells dates)) = dates_on d dates.
Proof.
  unfold dated_cells, dates_on. induction dates as [|v dates IH]; [reflexivity|].
  cbn [flat_map filter]. rewrite (gather_app date _ date_compare), length_app, IH.
  destruct v as [| |d'|]; try reflexivity.
  rewrite (gather_one date _ date_compare).
  destruct (date_compare d' d); reflexivity.
Qed.

Lemma get_day_counts_facts (df : frame) (dates : list value) :
  series ValueError df "Date" = Ok dates ->
  forallb is_date_cell dates = true ->
  exists counts,
    get_day_counts df = Ok counts /\
    StronglySorted stamp_lt (map fst counts) /\
    (forall d n,
        In (d, n) counts <-> In (VDate d) dates /\ n = dates_on d dates).
Proof.
  intros Hs Hd. unfold get_day_counts.
  rewrite (@series_has_column _ _ _ _ Hs), Hs. cbn [bind].
  rewrite (dated_rows_cells dates Hd). cbn [bind].
  eexists. split; [reflexivity|].
  destruct (group_by_facts date unit date_compare stamp_lt
              date_compare_spec stamp_lt_irrefl stamp_lt_trans (dated_cells dates))
    as [Hsorted [Hkeys Hvals]].
  rewrite map_map. cbn [fst]. split; [exact Hsorted|].
  intros d n. split.
  - intros Hin. apply in_map_iff in Hin.
    destruct Hin as [[d' l] [E Hin]]. cbn [fst snd] in E. injection E as -> <-.
    split.
    + apply keys_dated_cells, Hkeys. apply in_map_iff. now exists (d, l).
    + rewrite (Hvals _ _ Hin). apply gather_dated_cells.
  - intros [Hin ->]. apply keys_dated_cells, Hkeys in Hin.
    apply in_map_iff in Hin. destruct Hin as [[d' l] [E Hin]].
    cbn in E. subst d'. apply in_map_iff. exists (d, l). split; [|exact Hin].
    cbn [fst snd]. f_equal. rewrite (Hvals _ _ Hin). apply gather_dated_cells.
Qed.

(** [get_day_counts] returns one line for each timestamp that occurs in
    the Date column, in chronological order, with the number of rows
    that carry exactly that timestamp; rows without a date are not
    counted.  Rows of one day at different times of day are counted
    apart. *)
Theorem get_day_counts_spec (df : frame) (dates : list value) :
  series ValueError df "Date" = Ok dates ->
  forallb is_date_cell dates = true ->
  exists counts,
    get_day_counts df = Ok counts /\
    StronglySorted stamp_lt (map fst counts) /\
    (forall d n,
        In (d, n) counts <-> In (VDate d) dates /\ n = dates_on d dates).
Proof. exact (get_day_counts_facts df dates). Qed.

Lemma get_day_counts_spec_witness :
  exists counts,
    get_day_counts dated_store = Ok counts /\
    StronglySorted stamp_lt (map fst counts) /\
    (forall d n,
        In (d, n) counts <->
        In (VDate d)
           [VDate (mkDate 2024 1 31 0); VNull; VDate (mkDate 2024 2 1 0);
            VDate (mkDate 2024 1 2 0); VDate (mkDate 2024 2 1 0);
            VDate (mkDate 2024 2 1 3600000000000)] /\
        n = dates_on d
              [VDate (mkDate 2024 1 31 0); VNull; VDate (mkDate 2024 2 1 0);
               VDate (mkDate 2024 1 2 0); VDate (mkDate 2024 2 1 0);
               VDate (mkDate 2024 2 1 3600000000000)]).
Proof.
  apply (get_day_counts_spec dated_store
           [VDate (mkDate 2024 1 31 0); VNull; VDate (mkDate 2024 2 1 0);
            VDate (mkDate 2024 1 2 0); VDate (mkDate 2024 2 1 0);
            VDate (mkDate 2024 2 1 3600000000000)]); reflexivity.
Defined.

Lemma arg_max_first (l : list (date * nat)) :
  forall x,
    exists pre post,
      x :: l = pre ++ arg_max (fun a b => b <? a) x l :: post /\
      Forall (fun y => snd y < snd (arg_max (fun a b => b <? a) x l)) pre /\
      Forall (fun y => snd y <= snd (arg_max (fun a b => b <? a) x l)) post.
Proof.
  induction l as [|y l IH]; intros x; cbn [arg_max].
  - exists [], []. repeat split; constructor.
  - destruct (snd x <? snd y) eqn:E.
    + apply Nat.ltb_lt in E.
      destruct (IH y) as [pre [post [Heq [Hpre Hpost]]]].
      exists (x :: pre), post. split; [cbn [app]; now rewrite Heq|].
      split; [|assumption]. constructor; [|assumption].
      assert (Hy : snd y <= snd (arg_max (fun a b => b <? a) y l)).
      { assert (Hin : In y (pre ++ arg_max (fun a b => b <? a) y l :: post))
          by (rewrite <- Heq; now left).
        apply in_app_or in Hin.
        pose proof (proj1 (Forall_forall _ _) Hpre) as Hpre'.
        pose proof (proj1 (Forall_forall _ _) Hpost) as Hpost'.
        destruct Hin as [Hin|[E'|Hin]].
        - apply Nat.lt_le_incl. now apply Hpre'.
        - rewrite E'. apply Nat.le_refl.
        - now apply Hpost'. }
      lia.
    + apply Nat.ltb_ge in E.
      destruct (IH x) as [pre [post [Heq [Hpre Hpost]]]].
      destruct pre as [|p pre].
      * cbn [app] in Heq. injection Heq as Hx Hl.
        exists [], (y :: l). split; [cbn [app]; now rewrite <- Hx|].
        split; [constructor|].
        constructor; [now rewrite <- Hx|].
        rewrite <- Hl in Hpost. exact Hpost.
      * cbn [app] in Heq. injection Heq as Hx Hl. subst p.
        exists (x :: y :: pre), post.
        split; [cbn [app]; do 2 apply f_equal; exact Hl|].
        inversion Hpre as [|? ? Hp Hpre']; subst.
        split; [|assumption].
        constructor; [assumption|]. constructor; [lia|assumption].
Qed.

Lemma sorted_after (A : Type) (R : A -> A -> Prop) (pre : list A) (r : A)
  (post : list A) :
  StronglySorted R (pre ++ r :: post) -> Forall (R r) post.
Proof.
  induction pre as [|p pre IH]; cbn; intros H;
    inversion H as [|? ? Hs Hall]; subst; [assumption|now apply IH].
Qed.

(** "Most Transactions" shows a timestamp that the greatest number of
    rows carry, the earliest one among timestamps with as many; it
    warns of missing date data exactly when no row has a date. *)
Theorem answer_most_transactions_spec (df : frame) (dates : list value) :
  series ValueError df "Date" = Ok dates ->
  forallb is_date_cell dates = true ->
  exists counts shown,
    get_day_counts df = Ok counts /\
    answer_most_transactions df = Ok shown /\
    is_busiest counts shown /\
    (shown = None <-> forall d, ~ In (VDate d) dates).
Proof.
  intros Hs Hd.
  destruct (get_day_counts_facts df dates Hs Hd) as [counts [Hc [Hsorted Hcounts]]].
  unfold answer_most_transactions. rewrite Hc. cbn [bind].
  exists counts. eexists. split; [reflexivity|]. split; [reflexivity|].
  destruct counts as [|x l].
  - split; [reflexivity|]. split; [|reflexivity].
    intros _ d Hin.
    exact (proj2 (Hcounts d (dates_on d dates)) (conj Hin eq_refl)).
  - cbn [idxmax]. split.
    + destruct (arg_max_first l x) as [pre [post [Heq [Hpre Hpost]]]].
      set (r := arg_max (fun a b => b <? a) x l) in *.
      destruct r as [d n] eqn:Er. cbn [is_busiest]. cbn [snd] in Hpre, Hpost.
      split; [rewrite Heq; apply in_or_app; right; now left|].
      intros d' n' Hin. rewrite Heq in Hin, Hsorted.
      rewrite Forall_forall in Hpre, Hpost.
      apply in_app_or in Hin. destruct Hin as [Hin|[E|Hin]].
      * specialize (Hpre _ Hin). cbn in Hpre. split; lia.
      * injection E as <- <-. split; [lia|]. intros _. now left.
      * specialize (Hpost _ Hin). cbn in Hpost. split; [assumption|].
        intros _. right.
        rewrite map_app in Hsorted. cbn [map] in Hsorted.
        apply sorted_after in Hsorted. rewrite Forall_forall in Hsorted.
        apply (Hsorted d'). apply in_map_iff. now exists (d', n').
    + split; [discriminate|]. intros Hnone. exfalso.
      destruct x as [d n].
      destruct (proj1 (Hcounts d n) (or_introl eq_refl)) as [Hin _].
      exact (Hnone d Hin).
Qed.

Lemma answer_most_transactions_spec_witness :
  exists counts shown,
    get_day_counts dated_store = Ok counts /\
    answer_most_transactions dated_store = Ok shown /\
    is_busiest counts shown /\
    (shown = None <->
     forall d,
       ~ In (VDate d)
            [VDate (mkDate 2024 1 31 0); VNull; VDate (mkDate 2024 2 1 0);
             VDate (mkDate 2024 1 2 0); VDate (mkDate 2024 2 1 0);
             VDate (mkDate 2024 2 1 3600000000000)]).
Proof.
  apply (answer_most_transactions_spec dated_store
           [VDate (mkDate 2024 1 31 0); VNull; VDate (mkDate 2024 2 1 0);
            VDate (mkDate 2024 1 2 0); VDate (mkDate 2024 2 1 0);
            VDate (mkDate 2024 2 1 3600000000000)]); reflexivity.
Defined.

(** * Concatenation of the pages *)

Section ColumnsByIndex.

Variable I : Type.
Variable lab : I -> string.

Lemma transpose_app (idxs : list I) (n T : nat) :
  forall a b : I -> list value,
    (forall i, In i idxs -> length (a i) = n) ->
    transpose (n + T) (map (fun i => (lab i, a i ++ b i)) idxs)
    = transpose n (map (fun i => (lab i, a i)) idxs)
      ++ transpose T (map (fun i => (lab i, b i)) idxs).
Proof.
  induction n as [|n IH]; intros a b Ha.
  - cbn [Nat.add transpose app]. f_equal. apply map_ext_in. intros i Hi.
    specialize (Ha i Hi). now destruct (a i).
  - cbn [Nat.add transpose app]. f_equal.
    + unfold heads. rewrite !map_map. apply map_ext_in. intros i Hi.
      specialize (Ha i Hi). cbn [fst snd]. now destruct (a i).
    + assert (Ht : tails (map (fun i => (lab i, a i ++ b i)) idxs)
                   = map (fun i => (lab i, tl (a i) ++ b i)) idxs).
      { unfold tails. rewrite map_map. apply map_ext_in. intros i Hi.
        specialize (Ha i Hi). cbn [fst snd]. now destruct (a i). }
      assert (Ht' : tails (map (fun i => (lab i, a i)) idxs)
                    = map (fun i => (lab i, tl (a i))) idxs).
      { unfold tails. rewrite map_map. reflexivity. }
      rewrite Ht, Ht'. apply (IH (fun i => tl (a i)) b).
      intros i Hi. specialize (Ha i Hi). destruct (a i); [discriminate|].
      cbn in *. lia.
Qed.

Lemma transpose_flat_map (idxs : list I) (g : I -> frame -> list value)
  (dfs : list frame) :
  (forall i f, In i idxs -> In f dfs -> length (g i f) = nrows f) ->
  transpose (total_rows dfs) (map (fun i => (lab i, flat_map (g i) dfs)) idxs)
  = flat_map (fun f => transpose (nrows f) (map (fun i => (lab i, g i f)) idxs)) dfs.
Proof.
  induction dfs as [|d rest IH]; intros Hg.
  - reflexivity.
  - unfold total_rows. cbn [map fold_right flat_map]. fold (total_rows rest).
    rewrite (transpose_app idxs (nrows d) (total_rows rest)
               (fun i => g i d) (fun i => flat_map (g i) rest)).
    + f_equal. apply IH. intros i f Hi Hf. apply Hg; [assumption|now right].
    + intros i Hi. apply Hg; [assumption|now left].
Qed.

End ColumnsByIndex.

Lemma labels_eqb_eq (a b : list string) : labels_eqb a b = true <-> a = b.
Proof.
  unfold labels_eqb. revert b. induction a as [|x a IH]; intros [|y b]; cbn;
    try (split; (discriminate || reflexivity)).
  specialize (IH b). split.
  - intros H. apply andb_true_iff in H. destruct H as [Hl H].
    apply andb_true_iff in H. destruct H as [Hx H].
    apply String.eqb_eq in Hx. subst y. f_equal. apply IH.
    now rewrite Hl, H.
  - intros H. injection H as -> ->.
    rewrite String.eqb_refl, Nat.eqb_refl. cbn.
    pose proof (proj2 IH eq_refl) as H. apply andb_true_iff in H.
    now destruct H.
Qed.

(** The columns of a frame, read through the positions of a frame with
    the same labels. *)
Lemma columns_by_position (cd : list column) :
  forall (cf pre : list column),
    map fst cf = map fst cd ->
    map (fun jc : nat * column =>
           (fst (snd jc), snd (nth (fst jc) (pre ++ cf) (""%string, []))))
        (combine (seq (length pre) (length cd)) cd)
    = cf.
Proof.
  induction cd as [|c cd IH]; intros cf pre H.
  - destruct cf; [reflexivity|discriminate].
  - destruct cf as [|c' cf]; [discriminate|]. cbn in H. injection H as Hc H.
    cbn [length seq combine map fst snd]. rewrite nth_length_app.
    apply f_equal2.
    + destruct c'. cbn in *. now rewrite Hc.
    + specialize (IH cf (pre ++ [c']) H).
      rewrite length_app, Nat.add_comm in IH. cbn [length Nat.add] in IH.
      rewrite <- app_assoc in IH. exact IH.
Qed.

Lemma flat_map_ext_In (A B : Type) (f g : A -> list B) (l : list A) :
  (forall a, In a l -> f a = g a) -> flat_map f l = flat_map g l.
Proof.
  induction l as [|x l IH]; intros H; cbn; [reflexivity|].
  rewrite (H x) by now left. f_equal. apply IH. intros a Ha. apply H. now right.
Qed.

Lemma labels_by_position (l : list column) :
  forall a,
    map (fun jc : nat * column => fst (snd jc)) (combine (seq a (length l)) l)
    = map fst l.
Proof.
  induction l as [|c l IH]; intros a; cbn; [reflexivity|].
  now rewrite IH.
Qed.

(** Pages with the same header are stacked: the concatenation has that
    header, and its rows are the rows of the pages, page after page, in
    their order. *)
Theorem pd_concat_same_header (d : frame) (rest : list frame) :
  Forall (fun f => well_formed f = true) (d :: rest) ->
  Forall (fun f => columns f = columns d) rest ->
  exists out,
    pd_concat (d :: rest) = Ok out /\
    columns out = columns d /\
    rows out = flat_map rows (d :: rest).
Proof.
  intros Hwf Hsame. rewrite Forall_forall in Hwf, Hsame.
  unfold pd_concat.
  assert (E : forallb (fun f => labels_eqb (columns d) (columns f)) rest = true).
  { apply forallb_forall. intros f Hf. apply labels_eqb_eq.
    symmetry. now apply Hsame. }
  rewrite E. eexists. split; [reflexivity|].
  assert (Hall : forall f, In f (d :: rest) -> map fst (cols f) = map fst (cols d)).
  { intros f [<-|Hf]; [reflexivity|]. now apply Hsame. }
  split.
  - unfold columns. cbn [cols]. rewrite map_map. cbn [fst].
    apply labels_by_position.
  - unfold rows at 1. cbn [cols nrows].
    etransitivity.
    { apply (transpose_flat_map (nat * column) (fun jc => fst (snd jc))
               (combine (seq 0 (length (cols d))) (cols d))
               (fun jc f => snd (nth (fst jc) (cols f) (""%string, [])))
               (d :: rest)).
      intros [j c] f Hjc Hf. cbn [fst snd].
      apply in_combine_l in Hjc. apply in_seq in Hjc.
      pose proof (well_formed_lengths f (Hwf f Hf)) as Hl.
      rewrite Forall_forall in Hl. apply Hl. apply nth_In.
      pose proof (f_equal (@length string) (Hall f Hf)) as Hlen.
      rewrite !length_map in Hlen.
      exact (eq_ind_r (fun n => j < n) (proj2 Hjc) Hlen). }
    apply flat_map_ext_In. intros f Hf. unfold rows. f_equal.
    exact (columns_by_position (cols d) (cols f) [] (Hall f Hf)).
Qed.

Lemma pd_concat_same_header_witness :
  exists out,
    pd_concat [page_one; page_two] = Ok out /\
    columns out = columns page_one /\
    rows out = flat_map rows [page_one; page_two].
Proof.
  apply (pd_concat_same_header page_one [page_two]).
  - repeat constructor.
  - repeat constructor.
Defined.

Lemma nodupb_NoDup (l : list string) : nodupb l = true <-> NoDup l.
Proof.
  induction l as [|x l IH]; cbn.
  - split; [constructor|reflexivity].
  - rewrite andb_true_iff, negb_true_iff, IH. split.
    + intros [Hx Hl]. constructor; [|assumption].
      intros Hin. apply existsb_eqb_In in Hin. congruence.
    + intros H. inversion H as [|? ? Hx Hl]; subst. split; [|assumption].
      destruct (existsb (String.eqb x) l) eqn:E; [|reflexivity].
      apply existsb_eqb_In in E. contradiction.
Qed.

Lemma union_labels_spec (l : list string) :
  forall seen,
    NoDup seen ->
    NoDup (union_labels seen l) /\
    (forall x, In x (union_labels seen l) <-> In x seen \/ In x l).
Proof.
  induction l as [|y l IH]; intros seen Hnd; cbn [union_labels].
  - split; [assumption|]. intros x. cbn. intuition.
  - destruct (existsb (String.eqb y) seen) eqn:E.
    + apply existsb_eqb_In in E. destruct (IH seen Hnd) as [H1 H2].
      split; [assumption|]. intros x. rewrite H2. cbn. intuition (subst; auto).
    + assert (Hnd' : NoDup (seen ++ [y])).
      { apply NoDup_app; [assumption|repeat constructor; intros []|].
        intros a Ha [<-|[]]. apply existsb_eqb_In in Ha. congruence. }
      destruct (IH _ Hnd') as [H1 H2].
      split; [assumption|]. intros x. rewrite H2, in_app_iff. cbn.
      intuition (subst; auto).
Qed.

Lemma find_labelled_heads (name : string) (cs : list column) :
  find (fun lv => String.eqb (fst lv) name) (heads cs)
  = option_map (fun c => (fst c, hd VNull (snd c))) (find (labelled name) cs).
Proof.
  unfold heads. induction cs as [|c cs IH]; cbn [map find]; [reflexivity|].
  unfold labelled at 1. cbn [fst].
  destruct (String.eqb (fst c) name); [reflexivity|exact IH].
Qed.

Lemma find_labelled_tails (name : string) (cs : list column) :
  find (labelled name) (tails cs)
  = option_map (fun c => (fst c, tl (snd c))) (find (labelled name) cs).
Proof.
  unfold tails. induction cs as [|c cs IH]; cbn [map find]; [reflexivity|].
  unfold labelled at 1 3. cbn [fst].
  destruct (String.eqb (fst c) name); [reflexivity|exact IH].
Qed.

(** The columns of a frame laid out under other labels, row by row. *)
Lemma transpose_reindex (names : list string) (n : nat) :
  forall cs,
    transpose n
      (map (fun name => (name, match find (labelled name) cs with
                               | Some c => snd c
                               | None => repeat VNull n
                               end)) names)
    = map (reindex names) (transpose n cs).
Proof.
  induction n as [|n IH]; intros cs; cbn [transpose map].
  - reflexivity.
  - apply f_equal2.
    + unfold heads at 1, reindex. rewrite map_map. apply map_ext. intros name.
      cbn [fst snd]. unfold cell. rewrite find_labelled_heads.
      now destruct (find (labelled name) cs).
    + rewrite <- IH. f_equal. unfold tails at 1. rewrite map_map.
      apply map_ext. intros name. cbn [fst snd].
      rewrite find_labelled_tails. now destruct (find (labelled name) cs).
Qed.

Lemma column_or_missing_length (name : string) (f : frame) :
  well_formed f = true -> length (column_or_missing name f) = nrows f.
Proof.
  intros Hwf. unfold column_or_missing.
  destruct (find (labelled name) (cols f)) as [c|] eqn:E.
  - apply find_some in E. destruct E as [Hin _].
    pose proof (well_formed_lengths f Hwf) as Hl. rewrite Forall_forall in Hl.
    now apply Hl.
  - apply repeat_length.
Qed.

(** Pages with different headers, none of which repeats a label, are
    laid out under the union of their labels in order of first
    appearance: every row keeps its cells and has missing cells under
    the labels its page does not have; rows stay in page order. *)
Theorem pd_concat_union (d : frame) (rest : list frame) :
  Forall (fun f => well_formed f = true) (d :: rest) ->
  Forall (fun f => NoDup (columns f)) (d :: rest) ->
  Exists (fun f => columns f <> columns d) rest ->
  exists out,
    pd_concat (d :: rest) = Ok out /\
    columns out = union_labels [] (flat_map columns (d :: rest)) /\
    NoDup (columns out) /\
    (forall l, In l (columns out) <->
               exists f, In f (d :: rest) /\ In l (columns f)) /\
    rows out = flat_map (fun f => map (reindex (columns out)) (rows f)) (d :: rest).
Proof.
  intros Hwf Hnd Hdiff. rewrite Forall_forall in Hwf, Hnd.
  unfold pd_concat.
  assert (E1 : forallb (fun f => labels_eqb (columns d) (columns f)) rest = false).
  { destruct (forallb _ rest) eqn:E; [|reflexivity]. exfalso.
    rewrite forallb_forall in E. apply Exists_exists in Hdiff.
    destruct Hdiff as [f [Hf Hne]]. apply Hne. symmetry.
    apply labels_eqb_eq. now apply E. }
  assert (E2 : forallb (fun f => nodupb (columns f)) (d :: rest) = true).
  { apply forallb_forall. intros f Hf. apply nodupb_NoDup. now apply Hnd. }
  rewrite E1, E2. eexists. split; [reflexivity|].
  set (names := union_labels [] (flat_map columns (d :: rest))).
  assert (Hcols : columns (mkFrame
                     (map (fun name => (name, flat_map (column_or_missing name)
                                                (d :: rest))) names)
                     (total_rows (d :: rest))) = names).
  { unfold columns. cbn [cols]. rewrite map_map. cbn [fst]. apply map_id. }
  rewrite Hcols.
  destruct (union_labels_spec (flat_map columns (d :: rest)) [] (NoDup_nil _))
    as [Hu1 Hu2].
  split; [reflexivity|]. split; [exact Hu1|]. split.
  - intros l. fold names in Hu2. rewrite Hu2, in_flat_map. cbn [In]. intuition.
  - unfold rows at 1. cbn [cols nrows].
    etransitivity.
    { apply (transpose_flat_map string (fun name => name) names
               (fun name f => column_or_missing name f) (d :: rest)).
      intros name f _ Hf. apply column_or_missing_length. now apply Hwf. }
    apply flat_map_ext_In. intros f Hf. unfold rows.
    exact (transpose_reindex names (nrows f) (cols f)).
Qed.

Lemma pd_concat_union_witness :
  exists out,
    pd_concat [page_one; page_three] = Ok out /\
    columns out = union_labels [] (flat_map columns [page_one; page_three]) /\
    NoDup (columns out) /\
    (forall l, In l (columns out) <->
               exists f, In f [page_one; page_three] /\ In l (columns f)) /\
    rows out
    = flat_map (fun f => map (reindex (columns out)) (rows f)) [page_one; page_three].
Proof.
  apply (pd_concat_union page_one [page_three]).
  - repeat constructor.
  - repeat constructor; cbn; intuition discriminate.
  - constructor. cbv. discriminate.
Defined.

(** * Documents the normaliser accepts *)

Lemma list_max_len_regular (A : Type) (n : nat) (r : list A) (data : list (list A)) :
  Forall (fun r => length r = n) (r :: data) ->
  list_max_len (r :: data) = n.
Proof.
  unfold list_max_len. revert r. induction data as [|r' data IH]; intros r H.
  - inversion H; subst. cbn. lia.
  - inversion H as [|? ? Hr Hd]; subst.
    specialize (IH r' Hd). cbn [map fold_right] in *. rewrite IH.
    inversion Hd; subst. lia.
Qed.

Lemma map_fst_combine (A B : Type) (l : list A) (l' : list B) :
  length l = length l' -> map fst (combine l l') = l.
Proof.
  revert l'. induction l as [|x l IH]; intros [|y l'] H; cbn in *;
    try reflexivity; try discriminate.
  f_equal. apply IH. lia.
Qed.

Lemma map_snd_combine_seq (A : Type) (l : list A) :
  forall a, map snd (combine (seq a (length l)) l) = l.
Proof.
  induction l as [|x l IH]; intros a; cbn; [reflexivity|]. now rewrite IH.
Qed.

Lemma DataFrame_regular (data : list (list string)) (header : list string) :
  Forall (fun r => length r = length header) data ->
  exists df,
    DataFrame data header = Some df /\
    columns df = header /\
    length (cols df) = length header.
Proof.
  intros H. unfold DataFrame. destruct data as [|r data].
  - eexists. split; [reflexivity|]. unfold columns. cbn [cols].
    rewrite map_map, length_map. cbn [fst]. now rewrite map_id.
  - rewrite (list_max_len_regular _ _ _ _ H), Nat.eqb_refl.
    eexists. split; [reflexivity|]. unfold columns. cbn [cols].
    rewrite map_map, length_map. cbn [fst]. split.
    + apply (map_snd_combine_seq _ header 0).
    + rewrite length_combine, length_seq. lia.
Qed.

Lemma page_frame_regular (header : list string) (p : page) :
  NoDup header ->
  regular_page header p ->
  exists fs,
    page_frame p = Some fs /\ Forall (fun f => columns f = header) fs.
Proof.
  intros Hnd Hp. unfold page_frame. destruct p as [[|h data]|].
  - exists []. split; [reflexivity|constructor].
  - destruct Hp as [-> Hdata].
    destruct (DataFrame_regular data header Hdata) as [df [-> [Hc Hl]]].
    eexists. split; [reflexivity|]. constructor; [|constructor].
    unfold columns at 1. cbn [cols].
    rewrite Hc, dedup_columns_relabel.
    rewrite (@relabel_fresh header [] (fun x _ H => H) Hnd).
    apply map_fst_combine. rewrite length_map. symmetry. exact Hl.
  - exists []. split; [reflexivity|constructor].
Qed.

Lemma collect_pages_regular (header : list string) (ps : list page) :
  NoDup header ->
  Forall (regular_page header) ps ->
  exists fs,
    collect_pages ps = Some fs /\ Forall (fun f => columns f = header) fs.
Proof.
  intros Hnd. induction ps as [|p ps IH]; intros H; cbn [collect_pages].
  - exists []. split; [reflexivity|constructor].
  - inversion H as [|? ? Hp Hps]; subst.
    destruct (page_frame_regular header p Hnd Hp) as [fs [-> Hfs]].
    destruct (IH Hps) as [rest [-> Hrest]].
    eexists. split; [reflexivity|]. apply Forall_app. now split.
Qed.

Lemma keep_cols_columns (df df' : frame) :
  columns df = columns df' -> keep_cols df = keep_cols df'.
Proof.
  intros H. unfold keep_cols, date_col, debit_col, credit_col, ref_col.
  now rewrite H.
Qed.

(** A document whose pages carry one and the same header without
    repeated labels over tables of the header's width, and in which no
    label is chosen by two roles, is always processed: the normaliser
    neither raises nor gives up. *)
Theorem process_pdf_data_returns (to_numeric : string -> option Q)
  (to_datetime : string -> option date) (header : list string) (ps : list page) :
  NoDup header ->
  NoDup (chosen_labels header) ->
  Forall (regular_page header) ps ->
  exists out, process_pdf_data to_numeric to_datetime (Pages ps) = Ok (Some out).
Proof.
  intros Hnd Hchosen Hps. unfold process_pdf_data.
  destruct (collect_pages_regular header ps Hnd Hps) as [fs [-> Hfs]].
  destruct fs as [|d rest]; [now exists empty_frame|].
  inversion Hfs as [|? ? Hd Hrest]; subst.
  assert (Hsame : forallb (fun f => labels_eqb (columns d) (columns f)) rest = true).
  { apply forallb_forall. intros f Hf. apply labels_eqb_eq.
    rewrite Forall_forall in Hrest. now rewrite (Hrest f Hf). }
  unfold pd_concat. rewrite Hsame. cbn [bind].
  match goal with
  | |- context [normalize to_numeric to_datetime ?df] => set (cat := df)
  end.
  assert (Hcat : columns cat = columns d).
  { unfold cat, columns. cbn [cols]. rewrite map_map. cbn [fst].
    apply labels_by_position. }
  destruct (normalize_unique_labels to_numeric to_datetime cat) as [out [-> _]].
  - now rewrite Hcat.
  - rewrite (keep_cols_columns cat
               (mkFrame (map (fun l => (l, [])) (columns d)) 0)).
    + exact Hchosen.
    + rewrite Hcat. unfold columns at 2. cbn [cols]. rewrite map_map. cbn [fst].
      now rewrite map_id.
  - now exists out.
Qed.

Lemma process_pdf_data_returns_witness :
  exists out,
    process_pdf_data Parse.decimal Parse.mdy (Pages regular_pages) = Ok (Some out).
Proof.
  apply (process_pdf_data_returns Parse.decimal Parse.mdy
           ["Date"; "Withdrawal"; "Deposit"; "Particulars"] regular_pages).
  - repeat constructor; cbn; intuition discriminate.
  - cbv. repeat constructor; cbn; intuition discriminate.
  - repeat constructor.
Defined.

(** * The calendar behind the weekly summary *)

Section CalendarFacts.

Local Open Scope Z_scope.

Ltac month_cases m H :=
  assert (H : m = 1 \/ m = 2 \/ m = 3 \/ m = 4 \/ m = 5 \/ m = 6 \/ m = 7 \/
              m = 8 \/ m = 9 \/ m = 10 \/ m = 11 \/ m = 12) by lia;
  repeat (destruct H as [H|H]); subst m.

Ltac split_tests :=
  repeat match goal with
         | |- context [?a =? ?b] => destruct (Z.eqb_spec a b)
         end; cbn [andb orb negb].

Lemma year_next (y : Z) : year_start (y + 1) = year_start y + year_length y.
Proof.
  unfold year_start, year_length, days_from_civil, leap_year.
  cbn [year month day]. change (1 <=? 2) with true. cbv iota.
  replace (y + 1 - 1) with y by lia.
  split_tests; Z.div_mod_to_equations; lia.
Qed.

Lemma year_length_pos (y : Z) : 365 <= year_length y.
Proof. unfold year_length. destruct (leap_year y); lia. Qed.

Lemma year_start_mono (y y' : Z) :
  y < y' -> year_start y + year_length y <= year_start y'.
Proof.
  intros H. replace y' with (y + 1 + (y' - y - 1)) by lia.
  assert (Hk : 0 <= y' - y - 1) by lia. revert Hk.
  generalize (y' - y - 1). apply natlike_ind.
  - rewrite Z.add_0_r, year_next. lia.
  - intros k Hk IH. replace (y + 1 + Z.succ k) with (y + 1 + k + 1) by lia.
    rewrite year_next. pose proof (year_length_pos (y + 1 + k)). lia.
Qed.

Lemma days_from_civil_march (y m d t : Z) :
  3 <= m <= 12 ->
  days_from_civil (mkDate y m d t)
  = year_start (y + 1) - 306 + (153 * ((m + 9) mod 12) + 2) / 5 + d - 1.
Proof.
  intros Hm. unfold year_start, days_from_civil. cbn [year month day].
  change (1 <=? 2) with true. cbv iota.
  destruct (Z.leb_spec m 2) as [H|_]; [lia|].
  replace (y + 1 - 1) with y by lia.
  change ((153 * ((1 + 9) mod 12) + 2) / 5) with 306. lia.
Qed.

Lemma days_from_civil_offset (y m d t : Z) :
  1 <= m <= 12 ->
  days_from_civil (mkDate y m d t) = year_start y + month_offset y m + d - 1.
Proof.
  intros Hm. destruct (Z.leb_spec m 2) as [H|H].
  - assert (Hc : m = 1 \/ m = 2) by lia.
    destruct Hc as [-> | ->]; unfold year_start, month_offset, days_from_civil;
      cbn [year month day Z.eqb Pos.eqb];
      change (1 <=? 2) with true; change (2 <=? 2) with true; cbv iota;
      Z.div_mod_to_equations; lia.
  - rewrite days_from_civil_march, year_next by lia.
    unfold year_length, month_offset.
    assert (Hc : m = 3 \/ m = 4 \/ m = 5 \/ m = 6 \/ m = 7 \/ m = 8 \/ m = 9 \/
                 m = 10 \/ m = 11 \/ m = 12) by lia.
    destruct (leap_year y);
      repeat (destruct Hc as [Hc|Hc]); subst m;
      cbn [Z.eqb Pos.eqb]; cbv iota; Z.div_mod_to_equations; lia.
Qed.

Lemma month_offset_next (y m m' : Z) :
  1 <= m -> m < m' -> m' <= 12 ->
  month_offset y m + days_in_month y m <= month_offset y m'.
Proof.
  intros H1 H2 H3. unfold month_offset, days_in_month.
  assert (Hm : 1 <= m <= 12) by lia. assert (Hm' : 1 <= m' <= 12) by lia.
  destruct (leap_year y); month_cases m H; try lia;
    month_cases m' H'; try lia; cbn [Z.eqb Pos.eqb orb]; cbv iota; lia.
Qed.

Lemma month_offset_last (y m : Z) :
  1 <= m <= 12 ->
  month_offset y m + days_in_month y m <= year_length y.
Proof.
  intros H. unfold month_offset, days_in_month, year_length.
  destruct (leap_year y); split_tests; lia.
Qed.

Lemma month_offset_nonneg (y m : Z) : 0 <= month_offset y m.
Proof.
  unfold month_offset. destruct (leap_year y); split_tests; lia.
Qed.

(** Day numbers and weekly buckets follow the calendar: of two valid
    dates the earlier has the smaller day number, and its week is never
    after the week of the later one. *)
Theorem week_period_chronological (a b : date) :
  valid_date a -> valid_date b -> date_lt a b ->
  days_from_civil a < days_from_civil b /\ week_period a <= week_period b.
Proof.
  intros [Hma Hda] [Hmb Hdb] Hlt.
  assert (H : days_from_civil a < days_from_civil b).
  { destruct a as [ya ma da ta], b as [yb mb db tb]. unfold date_lt in Hlt.
    cbn [year month day] in *.
    rewrite (days_from_civil_offset ya ma da ta Hma),
      (days_from_civil_offset yb mb db tb Hmb).
    destruct Hlt as [Hy|[-> [Hm|[-> Hd]]]].
    - pose proof (year_start_mono ya yb Hy).
      pose proof (month_offset_last ya ma Hma).
      pose proof (month_offset_nonneg yb mb). lia.
    - pose proof (month_offset_next yb ma mb (proj1 Hma) Hm (proj2 Hmb)). lia.
    - lia. }
  split; [exact H|]. unfold week_period.
  apply Z.div_le_mono; lia.
Qed.

Lemma week_period_chronological_witness :
  days_from_civil (mkDate 2024 2 29 0) < days_from_civil (mkDate 2024 3 1 0) /\
  week_period (mkDate 2024 2 29 0) <= week_period (mkDate 2024 3 1 0).
Proof.
  apply (week_period_chronological (mkDate 2024 2 29 0) (mkDate 2024 3 1 0)).
  - unfold valid_date. cbn. lia.
  - unfold valid_date. cbn. lia.
  - unfold date_lt. cbn. lia.
Defined.

End CalendarFacts.

(** * White space and separators *)

Lemma prefix_split (w : string) :
  forall s, prefix w s = true <-> exists u, s = (w ++ u)%string.
Proof.
  induction w as [|a w IH]; intros s.
  - split; [intros _; now exists s|intros _; apply prefix_nil].
  - destruct s as [|b s]; cbn [prefix].
    + split; [discriminate|intros [u E]; discriminate].
    + destruct (ascii_dec a b) as [->|Hne].
      * rewrite IH. split; intros [u E]; exists u.
        -- cbn. now rewrite E.
        -- cbn in E. now injection E.
      * split; [discriminate|]. intros [u E]. cbn in E. injection E as E _.
        now symmetry in E.
Qed.

Lemma drop_app (w u : string) : Str.drop (String.length w) (w ++ u) = u.
Proof. induction w as [|a w IH]; cbn; [now destruct u|exact IH]. Qed.

Lemma length_append (a b : string) :
  String.length (a ++ b) = String.length a + String.length b.
Proof. induction a as [|c a IH]; cbn; [reflexivity|now rewrite IH]. Qed.

Lemma blank_of_app (toks : list string) (a b : string) :
  blank_of toks a -> blank_of toks b -> blank_of toks (a ++ b).
Proof.
  intros Ha Hb. induction Ha as [|w s Hw Hs IH]; [exact Hb|].
  rewrite append_assoc. now constructor.
Qed.

(** What is left has no leading character of [toks], and what was
    passed over is a run of them. *)
Lemma lstrip_go_spec (toks : list string) :
  Forall (fun w => w <> ""%string) toks ->
  forall fuel s,
    String.length s <= fuel ->
    exists pre,
      s = (pre ++ Str.lstrip_go toks fuel s)%string /\
      blank_of toks pre /\
      (forall w, In w toks -> prefix w (Str.lstrip_go toks fuel s) = false).
Proof.
  intros Hne. rewrite Forall_forall in Hne.
  induction fuel as [|fuel IH]; intros s Hlen; cbn [Str.lstrip_go].
  - exists ""%string. split; [reflexivity|]. split; [constructor|].
    intros w Hw. destruct s; [|cbn in Hlen; lia].
    specialize (Hne w Hw). destruct w; [contradiction|reflexivity].
  - unfold Str.leading. destruct (find (fun w => prefix w s) toks) as [w|] eqn:Ef.
    + apply find_some in Ef. destruct Ef as [Hw Hp].
      apply prefix_split in Hp. destruct Hp as [u ->].
      rewrite drop_app.
      assert (Hu : String.length u <= fuel).
      { rewrite length_append in Hlen. specialize (Hne w Hw).
        destruct w; [contradiction|]. cbn in Hlen. lia. }
      destruct (IH u Hu) as [pre [E [Hb Hno]]].
      exists (w ++ pre)%string. split; [|split; [|exact Hno]].
      * rewrite append_assoc. now rewrite <- E.
      * now constructor.
    + exists ""%string. split; [reflexivity|]. split; [constructor|].
      intros w Hw. exact (find_none _ _ Ef w Hw).
Qed.

Lemma rev_append (a b : string) :
  Str.rev (a ++ b) = (Str.rev b ++ Str.rev a)%string.
Proof.
  induction a as [|c a IH]; cbn.
  - now rewrite append_nil_r.
  - rewrite IH. apply append_assoc.
Qed.

Lemma rev_involutive (s : string) : Str.rev (Str.rev s) = s.
Proof.
  induction s as [|c s IH]; cbn; [reflexivity|].
  rewrite rev_append. cbn. now rewrite IH.
Qed.

Lemma rev_length (s : string) : String.length (Str.rev s) = String.length s.
Proof.
  induction s as [|c s IH]; cbn; [reflexivity|].
  rewrite length_append. cbn. lia.
Qed.

Lemma blank_of_rev (toks : list string) (s : string) :
  blank_of (map Str.rev toks) s -> blank_of toks (Str.rev s).
Proof.
  intros H. induction H as [|w s Hw Hs IH]; [constructor|].
  rewrite rev_append. apply blank_of_app; [exact IH|].
  apply in_map_iff in Hw. destruct Hw as [w' [<- Hw']].
  rewrite rev_involutive. rewrite <- (append_nil_r w').
  constructor; [exact Hw'|constructor].
Qed.

Lemma spaces_nonempty : Forall (fun w => w <> ""%string) Str.spaces.
Proof. repeat constructor; discriminate. Qed.

Lemma rev_spaces_nonempty :
  Forall (fun w => w <> ""%string) (map Str.rev Str.spaces).
Proof. repeat constructor; discriminate. Qed.

(** [Str.strip] removes the white space at both ends, and nothing
    else. *)
Lemma strip_stripped (s : string) : stripped s (Str.strip s).
Proof.
  unfold Str.strip, Str.rstrip, Str.lstrip.
  destruct (lstrip_go_spec Str.spaces spaces_nonempty (String.length s) s (le_n _))
    as [pre [Es [Hpre Hfront]]].
  set (l := Str.lstrip_go Str.spaces (String.length s) s) in *.
  destruct (lstrip_go_spec (map Str.rev Str.spaces) rev_spaces_nonempty
              (String.length l) (Str.rev l))
    as [pre' [El [Hpre' Hback]]]; [rewrite rev_length; apply le_n|].
  set (r := Str.lstrip_go (map Str.rev Str.spaces) (String.length l) (Str.rev l)) in *.
  assert (Hl : l = (Str.rev r ++ Str.rev pre')%string).
  { rewrite <- rev_append, <- El. now rewrite rev_involutive. }
  split; [|split].
  - exists pre, (Str.rev pre'). split; [|split].
    + now rewrite <- Hl.
    + exact Hpre.
    + now apply blank_of_rev.
  - intros w u Hw E.
    assert (Hp : prefix w l = true).
    { apply prefix_split. exists (u ++ Str.rev pre')%string.
      rewrite Hl, E. apply append_assoc. }
    rewrite (Hfront w Hw) in Hp. discriminate.
  - intros w u Hw E.
    assert (Hp : prefix (Str.rev w) r = true).
    { apply prefix_split. exists (Str.rev u).
      rewrite <- (rev_involutive r), E. apply rev_append. }
    rewrite (Hback (Str.rev w)) in Hp; [discriminate|].
    apply in_map_iff. now exists w.
Qed.

Lemma remove_char_without (c : ascii) (s : string) :
  without c s (Str.remove_char c s).
Proof.
  unfold without. induction s as [|a s IH]; cbn; [reflexivity|].
  destruct (Ascii.eqb a c); cbn; [exact IH|now rewrite IH].
Qed.

Lemma strip_cleaned (s : string) :
  cleaned s (Str.strip (Str.remove_char "," s)).
Proof.
  exists (Str.remove_char "," s). split; [apply remove_char_without|apply strip_stripped].
Qed.

(** * Role inference *)

Lemma present_roles_In (r : role) (df : frame) (c : string) :
  role_col r df = Some c -> In (role_name r) (present_roles df).
Proof.
  intros H. unfold present_roles. apply in_flat_map. exists r. split.
  - destruct r; cbn; tauto.
  - rewrite H. now left.
Qed.

(** Each role is bound to the first column, in table order, whose
    lower-cased label contains one of the role's trigger substrings; a
    role without such a column has no column in the output; a column
    of the output under a role's name holds the cells of the column the
    role is bound to, coerced; when no role has a column the result is
    the empty frame; and on a table whose labels are pairwise different
    and in which no label is chosen by two roles, every role that is
    bound has its column in the output. *)
Theorem role_inference (to_numeric : string -> option Q)
  (to_datetime : string -> option date) (df : frame) (r : role) :
  (forall c,
      role_label r c
      = existsb (fun t => Str.contains t (Str.lower c)) (triggers r)) /\
  (forall c,
      role_col r df = Some c <->
      exists pre post,
        columns df = pre ++ c :: post /\
        role_label r c = true /\
        forall x, In x pre -> role_label r x = false) /\
  (role_col r df = None <->
   forall x, In x (columns df) -> role_label r x = false) /\
  (forall out,
      normalize to_numeric to_datetime df = Ok out ->
      role_col r df = None ->
      ~ In (role_name r) (columns out)) /\
  (forall out e vals,
      normalize to_numeric to_datetime df = Ok out ->
      series e out (role_name r) = Ok vals ->
      exists c raw,
        role_col r df = Some c /\
        series e df c = Ok raw /\
        vals = map (role_coercion to_numeric to_datetime r) raw) /\
  ((forall r', role_col r' df = None) ->
   normalize to_numeric to_datetime df = Ok empty_frame) /\
  (NoDup (columns df) ->
   NoDup (keep_cols df) ->
   forall c,
     role_col r df = Some c ->
     exists out raw,
       normalize to_numeric to_datetime df = Ok out /\
       series KeyError df c = Ok raw /\
       series KeyError out (role_name r)
       = Ok (map (role_coercion to_numeric to_datetime r) raw)).
Proof.
  split; [|split; [|split; [|split; [|split; [|split]]]]].
  - intros c. destruct r; simpl;
      unfold is_date_label, is_debit_label, is_credit_label, is_ref_label;
      now rewrite orb_false_r.
  - intros c. destruct r; apply find_first_spec.
  - destruct r; apply find_none_iff.
  - intros out H Hnone Hin.
    destruct (@normalize_column_present to_numeric to_datetime df out r H Hin)
      as [c Hc]. congruence.
  - intros out e vals H Hs.
    destruct (@series_inv e out (role_name r) vals Hs) as [x [Hx <-]].
    destruct (@normalize_bound_column to_numeric to_datetime df out r x H Hx)
      as [c [col [Hc [Hcol Hv]]]].
    exists c, (snd col). split; [assumption|split; [|assumption]].
    now apply series_of_singleton.
  - intros Hnone. unfold normalize, keep_cols.
    pose proof (Hnone Date) as H1. pose proof (Hnone Debit) as H2.
    pose proof (Hnone Credit) as H3. pose proof (Hnone Reference) as H4.
    simpl in H1, H2, H3, H4. rewrite H1, H2, H3, H4.
    reflexivity.
  - intros Hnd Hkeep c Hc.
    destruct (normalize_unique_labels to_numeric to_datetime df Hnd Hkeep)
      as [out [Hout Hcols]].
    assert (Hhas : has_column (role_name r) out = true).
    { unfold has_column. apply existsb_exists. exists (role_name r).
      split; [|apply String.eqb_refl].
      rewrite Hcols. exact (present_roles_In r df c Hc). }
    assert (Hnd' : NoDup (columns out))
      by (rewrite Hcols; apply NoDup_present_roles).
    destruct (unique_column out (role_name r) Hnd' Hhas) as [x [Hx _]].
    destruct (@normalize_bound_column to_numeric to_datetime df out r x Hout Hx)
      as [c' [col [Hc' [Hcol Hv]]]].
    assert (c' = c) by congruence. subst c'.
    exists out, (snd col). split; [exact Hout|]. split.
    + now apply series_of_singleton.
    + rewrite <- Hv. now apply series_of_singleton.
Qed.

Lemma role_inference_witness :
  exists out raw,
    normalize Parse.decimal Parse.mdy two_page_frame = Ok out /\
    series KeyError two_page_frame "Narration Ref" = Ok raw /\
    series KeyError out "Reference"
    = Ok (map (role_coercion Parse.decimal Parse.mdy Reference) raw).
Proof.
  apply (proj2 (proj2 (proj2 (proj2 (proj2 (proj2
           (role_inference Parse.decimal Parse.mdy two_page_frame Reference)))))));
    [cbv; repeat constructor; cbn; intuition discriminate
    |cbv; repeat constructor; cbn; intuition discriminate
    |reflexivity].
Defined.

(** C1 (the code at the failing input): the label [Ref Date] holds a
    trigger of Date and a trigger of Reference, and it is the first
    such column for both roles.  The renaming map, keyed by the label,
    keeps only the later binding; the projection holds the column
    twice, both times under the name [Reference]: the Date role has a
    matching column and yet no column in the output. *)
Theorem role_shared_label_loses_date (to_numeric : string -> option Q)
  (to_datetime : string -> option date) :
  role_col Date ref_date_frame = Some "Ref Date"%string /\
  role_col Reference ref_date_frame = Some "Ref Date"%string /\
  exists out,
    process_pdf_data to_numeric to_datetime ref_date_pdf = Ok (Some out) /\
    columns out = ["Reference"; "Debit"; "Reference"]%string /\
    ~ In "Date"%string (columns out) /\
    rows out = [[("Reference", VStr "01/01/2024");
                 ("Debit", coerce_amount to_numeric (VStr "5"));
                 ("Reference", VStr "01/01/2024")]]%string.
Proof.
  split; [reflexivity|]. split; [reflexivity|].
  eexists. split; [reflexivity|]. split; [reflexivity|]. split; [|reflexivity].
  change (~ In "Date"%string ["Reference"; "Debit"; "Reference"]%string).
  intros [H|[H|[H|[]]]]; discriminate.
Qed.

(** * Coercion of the amounts *)

(** C3: in every normalised frame a [Debit] or [Credit] cell is the
    number parsed from the text of the raw cell without its commas and
    then without the white space around it, and 0 when the raw cell is
    missing or its text does not parse, so these columns are never
    null.  The sample page normalises to the row (2024-01-01, 1200.50,
    0, Coffee Shop), and so do amounts padded with a tab, spaces, a
    no-break space or an ideographic space. *)
Theorem amounts_coerced :
  (forall (to_numeric : string -> option Q) (to_datetime : string -> option date)
          (df out : frame) (r : role),
      normalize to_numeric to_datetime df = Ok out ->
      r = Debit \/ r = Credit ->
      In (role_name r) (columns out) ->
      exists c raw vals,
        role_col r df = Some c /\
        series AttributeError df c = Ok raw /\
        series AttributeError out (role_name r) = Ok vals /\
        length vals = length raw /\
        (forall i s,
            nth_error raw i = Some (VStr s) ->
            let t := Str.strip (Str.remove_char "," s) in
            cleaned s t /\
            nth_error vals i
            = Some (VNum match to_numeric t with
                         | Some q => q
                         | None => 0%Q
                         end)) /\
        (forall i, nth_error raw i = Some VNull -> nth_error vals i = Some (VNum 0)) /\
        Forall (fun v => exists q, v = VNum q) vals) /\
  (exists out debit,
      process_pdf_data Parse.decimal Parse.mdy sample_pdf = Ok (Some out) /\
      rows out = [[("Date", VDate (mkDate 2024 1 1 0)); ("Debit", VNum debit);
                   ("Credit", VNum 0); ("Reference", VStr "Coffee Shop")]]%string /\
      (debit == 120050 # 100)%Q) /\
  (exists out debit credit,
      process_pdf_data Parse.decimal Parse.mdy padded_pdf = Ok (Some out) /\
      rows out = [[("Date", VDate (mkDate 2024 1 1 0)); ("Debit", VNum debit);
                   ("Credit", VNum credit); ("Reference", VStr "Coffee Shop")]]%string /\
      (debit == 120050 # 100)%Q /\ (credit == 7)%Q).
Proof.
  split; [|split].
  - intros to_numeric to_datetime df out r H Hr Hin.
    assert (Hnr : r <> Reference) by (destruct Hr; subst; discriminate).
    pose proof (@normalize_coerced_once to_numeric to_datetime df out r H Hnr) as Hlen.
    destruct (filter (labelled (role_name r)) (cols out)) as [|x [|x' l]] eqn:Ex.
    + exfalso. unfold columns in Hin. apply in_map_iff in Hin.
      destruct Hin as [c [Hc Hin]].
      assert (Hf : In c (filter (labelled (role_name r)) (cols out))).
      { apply filter_In. split; [assumption|now apply labelled_iff]. }
      rewrite Ex in Hf. contradiction.
    + destruct (@normalize_bound_column to_numeric to_datetime df out r x H Ex)
        as [c [col [Hc [Hcol Hv]]]].
      assert (Hco : role_coercion to_numeric to_datetime r = coerce_amount to_numeric)
        by (destruct Hr; subst; reflexivity).
      rewrite Hco in Hv.
      exists c, (snd col), (snd x).
      split; [assumption|].
      split; [now apply series_of_singleton|].
      split; [now apply series_of_singleton|].
      rewrite Hv. split; [apply length_map|].
      split; [|split].
      * intros i s Hi. cbv zeta.
        split; [apply strip_cleaned|].
        rewrite nth_error_map, Hi. cbn [option_map coerce_amount].
        now destruct (to_numeric _).
      * intros i Hi. now rewrite nth_error_map, Hi.
      * apply Forall_forall. intros v Hv'. apply in_map_iff in Hv'.
        destruct Hv' as [w [<- _]]. apply coerce_amount_number.
    + simpl in Hlen. lia.
  - eexists. exists (2401 # 2)%Q. split; [vm_compute; reflexivity|].
    split; reflexivity.
  - eexists. exists (2401 # 2)%Q, 7%Q. split; [vm_compute; reflexivity|].
    split; [reflexivity|]. split; reflexivity.
Qed.

Lemma amounts_coerced_witness :
  exists c raw vals,
    role_col Debit
      (mkFrame [("Debit Amt", [VStr "  1,200.50 "; VNull])] 2) = Some c /\
    series AttributeError
      (mkFrame [("Debit Amt", [VStr "  1,200.50 "; VNull])] 2) c = Ok raw /\
    series AttributeError (mkFrame [("Debit", [VNum (2401 # 2); VNum 0])] 2) "Debit"
    = Ok vals /\
    length vals = length raw /\
    (forall i s,
        nth_error raw i = Some (VStr s) ->
        let t := Str.strip (Str.remove_char "," s) in
        cleaned s t /\
        nth_error vals i
        = Some (VNum match Parse.decimal t with
                     | Some q => q
                     | None => 0%Q
                     end)) /\
    (forall i, nth_error raw i = Some VNull -> nth_error vals i = Some (VNum 0)) /\
    Forall (fun v => exists q, v = VNum q) vals.
Proof.
  apply (proj1 amounts_coerced Parse.decimal Parse.mdy
           (mkFrame [("Debit Amt", [VStr "  1,200.50 "; VNull])] 2)
           (mkFrame [("Debit", [VNum (2401 # 2); VNum 0])] 2) Debit).
  - vm_compute. reflexivity.
  - left. reflexivity.
  - simpl. left. reflexivity.
Defined.

(** * The range filter with a negative upper bound *)

(** C10: a negative [max_amt] sends [filter_by_amount] down the branch
    without an upper bound, exactly as [max_amt = 0] and as an absent
    [max_amt] do: on a store whose chosen column holds amounts the
    call returns the rows whose amount is at least [min_amt], all of
    them, and not the empty range between [min_amt] and the negative
    bound. *)
Theorem filter_by_amount_negative_max (df : frame) (min_amt m : Q) (col : string) :
  (m < 0)%Q ->
  filter_by_amount df min_amt (Some m) col
  = filter_by_amount df min_amt (Some 0%Q) col /\
  filter_by_amount df min_amt (Some m) col
  = filter_by_amount df min_amt None col /\
  (forall vals,
      well_formed df = true ->
      series ValueError df col = Ok vals ->
      forallb is_amount vals = true ->
      exists out,
        filter_by_amount df min_amt (Some m) col = Ok out /\
        columns out = columns df /\
        rows out = filter (fun r => at_least min_amt (cell col r)) (rows df)).
Proof.
  intros Hm.
  assert (E : Qgtb m 0 = false) by (apply Qgtb_false_iff, Qlt_le_weak, Hm).
  split; [|split].
  - unfold filter_by_amount. rewrite E. change (Qgtb 0 0) with false. reflexivity.
  - unfold filter_by_amount. rewrite E. reflexivity.
  - intros vals Hwf Hs Ham.
    destruct (filter_by_amount_rows df min_amt (Some m) col vals Hwf Hs Ham)
      as [out [Ho [Hc Hr]]].
    exists out. split; [exact Ho|]. split; [exact Hc|].
    rewrite Hr. apply filter_ext. intros r. unfold in_range, at_least.
    destruct (cell col r); try reflexivity.
    rewrite E. apply andb_true_r.
Qed.

Lemma filter_by_amount_negative_max_witness :
  exists out,
    filter_by_amount sample_store 3 (Some (-1)%Q) "Debit" = Ok out /\
    columns out = columns sample_store /\
    rows out = filter (fun r => at_least 3 (cell "Debit" r)) (rows sample_store).
Proof.
  apply (proj2 (proj2 (filter_by_amount_negative_max sample_store 3 (-1)%Q "Debit"
                         eq_refl))
           [VNum 5; VNum 0; VNum 12]); reflexivity.
Defined.

(** * The free-text branch *)

Lemma mask_list_map_filter (A B : Type) (p : A -> bool) (h : A -> B) (l : list A) :
  mask_list (map p l) (map h l) = map h (filter p l).
Proof.
  induction l as [|x l IH]; cbn; [reflexivity|].
  destruct (p x); cbn; now rewrite IH.
Qed.

Section FreeTextFacts.

Variable re_search : string -> option (string -> bool).
Variable lower : string -> string.
Variable series_sum : list (option Q) -> Q.

(** What a search for a plain term finds, and the sum of its debits. *)
Lemma search_then_sum (df : frame) (term : string) (refs debits : list value) :
  regex_plain (lower term) = true ->
  well_formed df = true ->
  series AttributeError df "Reference" = Ok refs ->
  series TypeError df "Debit" = Ok debits ->
  forallb is_amount debits = true ->
  exists out,
    search_reference re_search lower df term = Ok out /\
    columns out = columns df /\
    rows out
    = filter (fun r => reference_matches lower term (cell "Reference" r)) (rows df) /\
    is_empty out = (length (rows out) =? 0) /\
    sum_column series_sum "Debit" out
    = Ok (series_sum (map (fun r => num_of (cell "Debit" r)) (rows out))).
Proof.
  intros Hplain Hwf Hrefs Hdeb Ham.
  rewrite (@search_reference_plain re_search lower df term refs Hplain Hrefs).
  destruct (@series_inv _ _ _ _ Hrefs) as [c [Hc Hv]].
  destruct (@select_rows_spec df "Reference" c (reference_matches lower term) Hwf Hc)
    as [Hcols Hrows].
  rewrite Hv in Hcols, Hrows.
  set (mask := map (reference_matches lower term) refs) in *.
  exists (select_rows mask df).
  split; [reflexivity|]. split; [exact Hcols|]. split; [exact Hrows|].
  split.
  - unfold rows at 1. rewrite length_transpose.
    unfold is_empty. cbn [cols nrows select_rows].
    assert (Hin : In c (cols df)).
    { assert (H : In c (filter (labelled "Reference") (cols df)))
        by (rewrite Hc; now left).
      now apply filter_In in H. }
    unfold masked. destruct (cols df) as [|c0 cs]; [contradiction|reflexivity].
  - unfold sum_column.
    rewrite has_column_select_rows, (@series_has_column _ _ _ _ Hdeb).
    rewrite (@series_select_rows TypeError mask df "Debit" debits Hdeb).
    cbn [bind].
    rewrite (@traverse_number_masked debits mask _ (traverse_number debits Ham)).
    cbn [bind]. do 2 f_equal.
    rewrite Hrows.
    rewrite <- (series_cells _ df "Debit" debits Hwf Hdeb).
    unfold mask. rewrite <- (series_cells _ df "Reference" refs Hwf Hrefs).
    rewrite !map_map.
    exact (mask_list_map_filter _ _
             (fun r => reference_matches lower term (cell "Reference" r))
             (fun r => num_of (cell "Debit" r)) (rows df)).
Qed.

(** A query without a fixed key that holds one of the three triggers
    takes the free-text branch.  The usage hint is given exactly when
    the query holds no [on] at all.  Otherwise the search term is the
    text after the last [on] without the white space around it; for a
    term without regular-expression metacharacters the answer is the
    sum pandas computes of the Debit cells of the rows whose lowered
    Reference contains the lowered term, together with those rows, and
    a "none found" message when there is no such row. *)
Theorem free_text_answer (df : frame) (q : string) :
  (forall kb, In kb fixed_keys -> Str.contains (fst kb) q = false) ->
  is_free_text q = true ->
  classify q = FreeText /\
  (Str.contains "on" q = false ->
   answer_free_text re_search lower series_sum df q = Ok UsageHint) /\
  (Str.contains "on" q = true ->
   answer_free_text re_search lower series_sum df q <> Ok UsageHint) /\
  (forall pre post refs debits,
      q = (pre ++ "on" ++ post)%string ->
      Str.contains "on" post = false ->
      well_formed df = true ->
      series AttributeError df "Reference" = Ok refs ->
      series TypeError df "Debit" = Ok debits ->
      forallb is_amount debits = true ->
      let term := Str.strip post in
      stripped post term /\
      (regex_plain (lower term) = true ->
         let found :=
           filter (fun r => reference_matches lower term (cell "Reference" r))
                  (rows df) in
         match found with
         | [] =>
             answer_free_text re_search lower series_sum df q = Ok (NoneFound term)
         | _ :: _ =>
             exists out,
               answer_free_text re_search lower series_sum df q
               = Ok (Spent (series_sum (map (fun r => num_of (cell "Debit" r)) found))
                           term out) /\
               columns out = columns df /\
               rows out = found
         end)).
Proof.
  intros Hkeys Hfree. split; [|split; [|split]].
  - unfold classify.
    rewrite (proj2 (@find_none_iff _ (fun kb => Str.contains (fst kb) q) fixed_keys)
               Hkeys).
    now rewrite Hfree.
  - intros Hon. unfold answer_free_text, Str.split.
    now rewrite (@split_go_whole q ""%string Hon).
  - intros Hon. destruct (@contains_on_last q Hon) as [pre [post [-> Hpost]]].
    unfold answer_free_text.
    destruct (@split_on_last pre post Hpost) as [_ Hlen]. rewrite Hlen.
    destruct (search_reference re_search lower df _) as [f|e]; cbn [bind];
      [|discriminate].
    destruct (negb (is_empty f)); [|discriminate].
    destruct (sum_column series_sum "Debit" f); cbn [bind]; discriminate.
  - intros pre post refs debits -> Hpost Hwf Hrefs Hdeb Ham.
    cbv zeta. split; [apply strip_stripped|].
    intros Hplain.
    destruct (search_then_sum df (Str.strip post) refs debits
                Hplain Hwf Hrefs Hdeb Ham)
      as [out [Hout [Hcols [Hrows [Hempty Hsum]]]]].
    rewrite <- Hrows.
    unfold answer_free_text.
    destruct (@split_on_last pre post Hpost) as [Hlast Hlen].
    rewrite Hlen, Hlast, Hout. cbn [bind]. rewrite Hempty.
    destruct (rows out) as [|r0 rest] eqn:Er; cbn [length Nat.eqb negb].
    + reflexivity.
    + rewrite Hsum. cbn [bind]. exists out. rewrite Er. auto.
Qed.

End FreeTextFacts.

Lemma free_text_answer_witness :
  exists out,
    answer_free_text (fun _ => None) Str.lower exact_sum sample_store
      "how much did i spend on Shop "
    = Ok (Spent 17 "Shop" out) /\
    columns out = columns sample_store /\
    rows out
    = filter (fun r => reference_matches Str.lower "Shop" (cell "Reference" r))
             (rows sample_store).
Proof.
  assert (Hkeys : forall kb, In kb fixed_keys ->
                    Str.contains (fst kb) "how much did i spend on Shop " = false).
  { intros kb Hin. unfold fixed_keys in Hin. simpl in Hin.
    repeat (destruct Hin as [<-|Hin]; [reflexivity|]). contradiction. }
  exact (proj2 (proj2 (proj2 (proj2
           (free_text_answer (fun _ => None) Str.lower exact_sum
              sample_store "how much did i spend on Shop " Hkeys eq_refl)))
           "how much did i spend " " Shop "
           [VStr "Coffee Shop"; VStr "Salary"; VStr "Book shop"]
           [VNum 5; VNum 0; VNum 12]
           eq_refl eq_refl eq_refl eq_refl eq_refl eq_refl)
           eq_refl).
Defined.

(** C5 (the code at the failing input): in "how much did i spend on"
    nothing follows the last [on], yet the guard [len(parts) > 1]
    holds.  The branch searches for the empty term, which every
    Reference contains, and reports the sum of all the debits as spent
    on nothing; the usage hint that its [else] branch keeps for a query
    without a search term is not given. *)
Theorem free_text_empty_remainder_no_hint
  (re_search : string -> option (string -> bool))
  (series_sum : list (option Q) -> Q) :
  classify "how much did i spend on" = FreeText /\
  last (Str.split "on" "how much did i spend on") "" = ""%string /\
  answer_free_text re_search Str.lower series_sum sample_store
    "how much did i spend on"
  = Ok (Spent (series_sum [Some 5%Q; Some 0%Q; Some 12%Q]) "" sample_store) /\
  answer_free_text re_search Str.lower series_sum sample_store
    "how much did i spend on"
  <> Ok UsageHint.
Proof.
  assert (H : answer_free_text re_search Str.lower series_sum sample_store
                "how much did i spend on"
              = Ok (Spent (series_sum [Some 5%Q; Some 0%Q; Some 12%Q]) ""
                      sample_store))
    by reflexivity.
  split; [reflexivity|]. split; [reflexivity|]. split; [exact H|].
  rewrite H. discriminate.
Qed.
